(** * Route compilation of nuxt.js: [createRoutes], [cleanChildrenRoutes], [flatRoutes]

    A shallow embedding of the route-tree builder of [lib/common/utils.js]
    (the functions [flatRoutes], [cleanChildrenRoutes] and [createRoutes])
    together with the properties the specification states about it.

    Modelling conventions.
    - JavaScript strings are [string]s; the string methods the source calls
      ([split], [replace], [indexOf], the regular expressions it tests) are
      the functions of module [JS], one per use in the source.
    - [pagesDir] is spliced into a regular expression by the source; it is
      taken to be a directory name without regular-expression operators, so
      that the expression matches that name at the start of the file path.
      The theorems that speak of the keys of files say so
      ([literalPattern]).
    - A route object is a record; [children] is [None] while the property is
      absent and [Some l] once it holds an array (an empty array is truthy).
      While the tree is built every [name] is a string; [delete route.name]
      of the collapser makes it absent, so the collapsed tree carries
      [option string] names.  Both trees are instances of one record type.
    - The forest is mutated in place by the source.  Every route object is
      referenced from one array only, so the model passes the forest along:
      placing a file returns the sibling array the cursor ends in, written
      back into the node it belongs to.
    - [Array.prototype.sort] is given a comparator that is not consistent
      (two static paths of the same length compare as greater in both
      orders), for which ECMAScript leaves the result to the engine.  The
      builder is therefore given twice.  Module [Engine] has it with the
      sort of the engine as a parameter; the theorems on the order of
      siblings are proved there, for every sort that meets
      [Engine.conforms].  The builder below runs the insertion sort that V8
      applied to arrays of at most ten elements when this code was written
      ([InsertionSort] in [array.js]); the concrete forests of this file
      are computed with it, on comparisons that are consistent, and its
      general theorems use no more of the sort than that it permutes the
      array.
    - [r(srcDir, file)] resolves a path through Node's [path] module; the
      component reference is kept as the pair it is computed from. *)

From Stdlib Require Import String Ascii List ZArith Lia Bool Permutation PeanoNat Sorted.
Import ListNotations.

Local Open Scope list_scope.
Local Open Scope string_scope.

(** ** JavaScript string and array primitives used by the source *)

Module JS.

(** [s.split(sep)] for a one-character separator. *)
Fixpoint split (sep : ascii) (s : string) : list string :=
  match s with
  | EmptyString => [EmptyString]
  | String c rest =>
      if Ascii.eqb c sep then EmptyString :: split sep rest
      else match split sep rest with
           | [] => [String c EmptyString]
           | t :: ts => String c t :: ts
           end
  end.

(** [l.join(sep)]. *)
Definition join (sep : string) (l : list string) : string := String.concat sep l.

(** [s.indexOf(c)] for a one-character needle, [-1] when absent. *)
Fixpoint indexOf (c : ascii) (s : string) : Z :=
  match s with
  | EmptyString => (-1)%Z
  | String x rest =>
      if Ascii.eqb x c then 0%Z
      else let k := indexOf c rest in
           if (k <? 0)%Z then (-1)%Z else (k + 1)%Z
  end.

(** [s.includes(c)]. *)
Definition includes (c : ascii) (s : string) : bool := (0 <=? indexOf c s)%Z.

(** [s.replace(c, r)] with a string pattern: the first occurrence only. *)
Fixpoint replace (c : ascii) (r : string) (s : string) : string :=
  match s with
  | EmptyString => EmptyString
  | String x rest =>
      if Ascii.eqb x c then r ++ rest else String x (replace c r rest)
  end.

(** [/suf$/.test(s)] for a literal [suf]. *)
Fixpoint endsWith (suf s : string) : bool :=
  if String.eqb s suf then true
  else match s with
       | EmptyString => false
       | String _ rest => endsWith suf rest
       end.

(** [s.replace(/suf$/, '')] for a literal [suf]. *)
Fixpoint stripSuffix (suf s : string) : string :=
  if String.eqb s suf then EmptyString
  else match s with
       | EmptyString => EmptyString
       | String x rest => String x (stripSuffix suf rest)
       end.

(** [s.replace(RegExp('^' + pre), '')] for a [pre] without regular-expression
    operators (a directory name). *)
Fixpoint stripPrefix (pre s : string) : option string :=
  match pre, s with
  | EmptyString, _ => Some s
  | String a pre', String b s' =>
      if Ascii.eqb a b then stripPrefix pre' s' else None
  | String _ _, EmptyString => None
  end.

Definition replacePrefix (pre s : string) : string :=
  match stripPrefix pre s with
  | Some rest => rest
  | None => s
  end.

(** [s.replace(/\.(vue|js)$/, '')]. *)
Definition stripExt (s : string) : string :=
  if endsWith ".vue" s then stripSuffix ".vue" s else stripSuffix ".js" s.

(** [s.replace(/\/{2,}/g, '/')]. *)
Fixpoint collapseSlashes (s : string) : string :=
  match s with
  | EmptyString => EmptyString
  | String c rest =>
      match rest with
      | String c' _ =>
          if Ascii.eqb c "/" && Ascii.eqb c' "/" then collapseSlashes rest
          else String c (collapseSlashes rest)
      | EmptyString => String c EmptyString
      end
  end.

(** The test of the regular expression that accepts a string starting with
    a slash followed by a colon or by a star. *)
Definition startsDynamic (s : string) : bool :=
  match s with
  | String c0 (String c1 _) =>
      Ascii.eqb c0 "/" && (Ascii.eqb c1 ":" || Ascii.eqb c1 "*")
  | _ => false
  end.

(** [/^\/+$/.test(s)]. *)
Fixpoint allSlashes (s : string) : bool :=
  match s with
  | EmptyString => false
  | String c EmptyString => Ascii.eqb c "/"
  | String c rest => Ascii.eqb c "/" && allSlashes rest
  end.

(** [s.replace(/^\/+$/, '/')]. *)
Definition normalizeSlashes (s : string) : string :=
  if allSlashes s then "/" else s.

(** [s[s.length - 1] === c]. *)
Fixpoint lastIs (c : ascii) (s : string) : bool :=
  match s with
  | EmptyString => false
  | String x EmptyString => Ascii.eqb x c
  | String _ rest => lastIs c rest
  end.

(** [s.slice(0, -1)]. *)
Fixpoint dropLast (s : string) : string :=
  match s with
  | EmptyString => EmptyString
  | String _ EmptyString => EmptyString
  | String x rest => String x (dropLast rest)
  end.

(** [l.indexOf(x)] on an array of strings, [-1] when absent. *)
Fixpoint arrayIndexOf (x : string) (l : list string) : Z :=
  match l with
  | [] => (-1)%Z
  | y :: rest =>
      if String.eqb y x then 0%Z
      else let k := arrayIndexOf x rest in
           if (k <? 0)%Z then (-1)%Z else (k + 1)%Z
  end.

(** [a === b] on values that are a string or [undefined]. *)
Definition eqOpt (a b : option string) : bool :=
  match a, b with
  | Some x, Some y => String.eqb x y
  | None, None => true
  | _, _ => false
  end.

(** [l[k] = v] for [k] inside the array. *)
Fixpoint setAt {A : Type} (k : nat) (v : A) (l : list A) : list A :=
  match l, k with
  | [], _ => []
  | _ :: rest, O => v :: rest
  | x :: rest, S k' => x :: setAt k' v rest
  end.

End JS.

(** ** Route objects *)

(** A route object.  [N] is the type of the [name] property: [string] while
    [createRoutes] builds the tree, [option string] once the collapser may
    have deleted it. *)
#[local] Unset Elimination Schemes.

Inductive route (N : Type) : Type :=
  mkRoute {
    name : N;
    path : string;
    component : string * string;
    chunkName : option string;
    children : option (list (route N))
  }.

#[local] Set Elimination Schemes.

Arguments mkRoute {N} _ _ _ _ _.
Arguments name {N} _.
Arguments path {N} _.
Arguments component {N} _.
Arguments chunkName {N} _.
Arguments children {N} _.

Abbreviation rawRoute := (route string).
Abbreviation cleanRoute := (route (option string)).

Definition setChildren {N : Type} (r : route N) (cs : option (list (route N)))
  : route N :=
  mkRoute (name r) (path r) (component r) (chunkName r) cs.

(** ** The sibling comparator of [createRoutes] *)

Module Orderer.

(** [_a[i] === '*' ? 2 : _a[i].indexOf(':') > -1 ? 1 : 0]. *)
Definition tokenClass (t : string) : Z :=
  if String.eqb t "*" then 2%Z
  else if (-1 <? JS.indexOf ":" t)%Z then 1%Z else 0%Z.

(** The [for] loop of the comparator, started at index [i] with the tokens
    of [_a] from [i] on in [rest].  It returns the values of [i] and [res]
    when the loop is left, or [None] when [_b[i]] is read outside [_b]
    (a [TypeError] in the source). *)
Fixpoint tokenLoop (rest _b : list string) (i : nat) (res : Z)
  : option (nat * Z) :=
  match rest with
  | [] => Some (i, res)
  | ai :: rest' =>
      if negb (res =? 0)%Z then Some (i, res)
      else match nth_error _b i with
           | None => None
           | Some bi =>
               let y := tokenClass ai in
               let z := tokenClass bi in
               let res1 := (y - z)%Z in
               let res2 :=
                 if (Z.of_nat i =? Z.of_nat (length _b) - 1)%Z && (res1 =? 0)%Z
                 then (if String.eqb ai "*" then (-1)%Z else 1%Z)
                 else res1 in
               tokenLoop rest' _b (S i) res2
           end
  end.

(** A string is truthy when it is not empty; [undefined] is falsy. *)
Definition truthy (t : option string) : bool :=
  match t with
  | Some s => negb (String.eqb s "")
  | None => false
  end.

(** The comparison of two paths that are neither empty nor ["/"]. *)
Definition compareTokens (_a _b : list string) : option Z :=
  match tokenLoop _a _b 0 0%Z with
  | None => None
  | Some (i, res) =>
      Some (if (res =? 0)%Z
            then (if JS.eqOpt (match i with
                               | O => None
                               | S k => nth_error _a k
                               end) (Some "*")
                     && truthy (nth_error _b i)
                  then 1%Z else (-1)%Z)
            else res)
  end.

(** The comparator passed to [parent.sort], on the two [path] strings. *)
Definition comparePathsOpt (a b : string) : option Z :=
  if (String.length a =? 0)%nat then Some (-1)%Z
  else if (String.length b =? 0)%nat then Some 1%Z
  else if String.eqb a "/" then
    Some (if JS.startsDynamic b then (-1)%Z else 1%Z)
  else if String.eqb b "/" then
    Some (if JS.startsDynamic a then 1%Z else (-1)%Z)
  else compareTokens (JS.split "/" a) (JS.split "/" b).

Definition comparePaths (a b : string) : Z :=
  match comparePathsOpt a b with
  | Some z => z
  | None => 0%Z
  end.

Definition compareRoutes {N : Type} (a b : route N) : Z :=
  comparePaths (path a) (path b).

End Orderer.

(** ** [Array.prototype.sort] *)

Module ArraySort.

Section Sort.
Context {A : Type} (comparefn : A -> A -> Z).

(** The inner loop of the engine's insertion sort: [sorted] holds the
    elements left of [element] from right to left; [tmp] moves one place
    right while [comparefn(tmp, element) > 0]. *)
Fixpoint insertLeft (element : A) (sorted : list A) : list A :=
  match sorted with
  | [] => [element]
  | tmp :: rest =>
      if (0 <? comparefn tmp element)%Z
      then tmp :: insertLeft element rest
      else element :: tmp :: rest
  end.

(** The outer loop: elements are taken from left to right; the sorted
    prefix is kept from right to left. *)
Definition sortRev (l : list A) : list A :=
  fold_left (fun sorted element => insertLeft element sorted) l [].

Definition sort (l : list A) : list A := rev (sortRev l).
End Sort.

End ArraySort.

(** ** [createRoutes] *)

(** The keys of a file: the path below [pagesDir], without its extension,
    split at the slashes, the leading empty string dropped. *)
Definition fileKeys (pagesDir file : string) : list string :=
  tl (JS.split "/"
        (JS.collapseSlashes (JS.stripExt (JS.replacePrefix pagesDir file)))).

(** [key.indexOf('_') === 0 ? key.replace('_', '') : key]. *)
Definition sanatizedKey (key : string) : string :=
  if (JS.indexOf "_" key =? 0)%Z then JS.replace "_" "" key else key.

(** The value of [route.name] after the two assignments of the loop body. *)
Definition nextName (routeName key : string) : string :=
  let n := if negb (String.eqb routeName "")
           then routeName ++ "-" ++ sanatizedKey key
           else sanatizedKey key in
  n ++ (if String.eqb key "_" then "all" else "").

(** The value of [route.path] after the branch taken when no sibling has
    the name: [i] is the index of [key], [len] is [keys.length]. *)
Definition nextPath (routePath key : string) (i len : nat) : string :=
  if String.eqb key "index" && (i + 1 =? len)%nat
  then routePath ++ (if (0 <? i)%nat then "" else "/")
  else
    let p := routePath ++ "/" ++
             (if String.eqb key "_" then "*"
              else if (JS.indexOf "_" key =? 0)%Z then JS.replace "_" ":" key
              else key) in
    if negb (String.eqb key "_") && (JS.indexOf "_" key =? 0)%Z
    then p ++ "?" else p.

(** [_.find(parent, { name })]: the index of the first sibling of that name
    and the sibling. *)
Fixpoint findByName (n : string) (parent : list rawRoute)
  : option (nat * rawRoute) :=
  match parent with
  | [] => None
  | c :: rest =>
      if String.eqb (name c) n then Some (O, c)
      else match findByName n rest with
           | Some (k, c') => Some (S k, c')
           | None => None
           end
  end.

(** The route being built for one file: the fields that the loop over the
    keys assigns. *)
Record pending : Type :=
  mkPending {
    p_name : string;
    p_path : string;
    p_chunkName : option string
  }.

(** [parent.push(route); parent.sort(...)]. *)
Definition pushSorted (parent : list rawRoute) (r : rawRoute) : list rawRoute :=
  ArraySort.sort Orderer.compareRoutes (parent ++ [r])%list.

(** The loop over the keys of one file followed by the push and the sort.
    [parent] is the array the cursor points to; the result is that array
    after the file has been placed in it or below it.  When a sibling with
    the name built so far exists the cursor moves to its [children], which
    are created when absent, and the sibling is updated in place. *)
Fixpoint place (src : string * string) (chunk : string)
    (keys : list string) (i len : nat) (cur : pending)
    (parent : list rawRoute) : list rawRoute :=
  match keys with
  | [] =>
      pushSorted parent
        (mkRoute (p_name cur) (p_path cur) src (p_chunkName cur) None)
  | key :: keys' =>
      let n := nextName (p_name cur) key in
      match findByName n parent with
      | Some (k, child) =>
          let below :=
            place src chunk keys' (S i) len (mkPending n "" (Some chunk))
              (match children child with
               | Some cs => cs
               | None => []
               end) in
          JS.setAt k (setChildren child (Some below)) parent
      | None =>
          place src chunk keys' (S i) len
            (mkPending n (nextPath (p_path cur) key i len) (Some chunk))
            parent
      end
  end.

(** The body of [files.forEach]. *)
Definition addFile (srcDir pagesDir : string) (routes : list rawRoute)
    (file : string) : list rawRoute :=
  let keys := fileKeys pagesDir file in
  place (srcDir, file) (JS.stripExt file) keys 0 (length keys)
    (mkPending "" "" None) routes.

(** The forest [createRoutes] holds when it calls the collapser. *)
Definition buildRoutes (files : list string) (srcDir pagesDir : string)
  : list rawRoute :=
  fold_left (addFile srcDir pagesDir) files [].

(** ** [cleanChildrenRoutes] *)

Module Collapser.

(** [/-index$/.test(route.name) || route.name === 'index']. *)
Definition isIndexName (n : string) : bool :=
  JS.endsWith "-index" n || String.eqb n "index".

(** The first [forEach]: the least position of ['index'] in the split names
    of the siblings that carry it ([-1] when there is none), and those split
    names in order. *)
Definition scanStep (acc : Z * list (list string)) (route : rawRoute)
  : Z * list (list string) :=
  let '(start, routesIndex) := acc in
  if isIndexName (name route) then
    let res := JS.split "-" (name route) in
    let s := JS.arrayIndexOf "index" res in
    ((if (start =? -1)%Z || (s <? start)%Z then s else start),
     (routesIndex ++ [res])%list)
  else acc.

Definition scanIndex (routes : list rawRoute) : Z * list (list string) :=
  fold_left scanStep routes ((-1)%Z, []).

(** The loop [for (let a = 0; a <= i; a++)], entered at [a] with [steps]
    iterations left before [a] exceeds [i]. *)
Fixpoint stripLoop (steps a i : nat) (names r paths : list string)
  : list string :=
  match steps with
  | O => paths
  | S steps' =>
      let paths1 :=
        if (a =? i)%nat then
          match nth_error paths a with
          | Some p => JS.setAt a (JS.replace "?" "" p) paths
          | None => paths
          end
        else paths in
      if (a <? i)%nat && negb (JS.eqOpt (nth_error names a) (nth_error r a))
      then paths1
      else stripLoop steps' (S a) i names r paths1
  end.

(** The body of [routesIndex.forEach]. *)
Definition stripStep (start : Z) (names : list string)
    (paths r : list string) : list string :=
  let i := (JS.arrayIndexOf "index" r - start)%Z in
  if (i <? Z.of_nat (length paths))%Z && (0 <=? i)%Z
  then stripLoop (S (Z.to_nat i)) 0 (Z.to_nat i) names r paths
  else paths.

(** The new [route.path] of a route whose path holds a ['?']. *)
Definition fixOptional (isChild : bool) (start : Z)
    (routesIndex : list (list string)) (routeName routePath : string)
  : string :=
  let names := JS.split "-" routeName in
  let paths0 := JS.split "/" routePath in
  let paths := if isChild then paths0 else tl paths0 in
  let paths' := fold_left (stripStep start names) routesIndex paths in
  (if isChild then "" else "/") ++ JS.join "/" paths'.

(** [route.path] after the first two statements of the second [forEach]. *)
Definition cleanPath (isChild : bool) (start : Z)
    (routesIndex : list (list string)) (route : rawRoute) : string :=
  let p := if isChild then JS.replace "/" "" (path route) else path route in
  if (-1 <? JS.indexOf "?" p)%Z
  then fixOptional isChild start routesIndex (name route) p
  else p.

(** [route.children.find(child => child.path === '')] is truthy. *)
Definition hasEmptyChild (cs : list rawRoute) : bool :=
  existsb (fun child => String.eqb (path child) "") cs.

(** The body of the second [forEach] for one route, [start] and
    [routesIndex] being those of its sibling list. *)
Fixpoint cleanOne (isChild : bool) (start : Z)
    (routesIndex : list (list string)) (route : rawRoute) {struct route}
  : cleanRoute :=
  match route with
  | mkRoute n p comp chunk cs =>
      let path' := cleanPath isChild start routesIndex route in
      let name' := JS.stripSuffix "-index" n in
      match cs with
      | Some l =>
          mkRoute (if hasEmptyChild l then None else Some name')
            path' comp chunk
            (Some (let '(start', routesIndex') := scanIndex l in
                   map (cleanOne true start' routesIndex') l))
      | None => mkRoute (Some name') path' comp chunk None
      end
  end.

Definition cleanChildrenRoutes (routes : list rawRoute) (isChild : bool)
  : list cleanRoute :=
  let '(start, routesIndex) := scanIndex routes in
  map (cleanOne isChild start routesIndex) routes.

End Collapser.

Definition createRoutes (files : list string) (srcDir pagesDir : string)
  : list cleanRoute :=
  Collapser.cleanChildrenRoutes (buildRoutes files srcDir pagesDir) false.

(** ** [flatRoutes] *)

Module Flattener.

Section Flat.
Context {N : Type}.

(** The body of [router.forEach] for one route.  [_path] is the variable
    of the enclosing call, which the leaf branch reassigns; [routes] is
    the array all calls push to. *)
Fixpoint flatRoute (r : route N) (_path : string) (routes : list string)
  {struct r} : string * list string :=
  match r with
  | mkRoute _ p _ _ cs =>
      if negb (JS.includes ":" p) && negb (JS.includes "*" p) then
        match cs with
        | Some l =>
            let routes1 :=
              if String.eqb _path "" && String.eqb p "/"
              then (routes ++ ["/"])%list else routes in
            (_path,
             (fix walk (l : list (route N)) (_p : string)
                       (acc : list string) {struct l} : list string :=
                match l with
                | [] => acc
                | c :: l' =>
                    let '(_p', acc') := flatRoute c _p acc in
                    walk l' _p' acc'
                end) l (_path ++ p ++ "/") routes1)
        | None =>
            let _path1 := JS.normalizeSlashes _path in
            let full :=
              (if String.eqb p "" && JS.lastIs "/" _path1
               then JS.dropLast _path1 else _path1) ++ p in
            (_path1, (routes ++ [full])%list)
        end
      else (_path, routes)
  end.

(** [flatRoutes(router, _path, routes)]. *)
Fixpoint flatRoutes (router : list (route N)) (_path : string)
    (routes : list string) : list string :=
  match router with
  | [] => routes
  | r :: rest =>
      let '(_path', routes') := flatRoute r _path routes in
      flatRoutes rest _path' routes'
  end.
End Flat.

End Flattener.


(** ** Observations on forests *)

(** The nodes of a tree, parent first, children in order. *)
Fixpoint nodesOf {N : Type} (r : route N) {struct r} : list (route N) :=
  match r with
  | mkRoute _ _ _ _ cs =>
      r :: match cs with
           | Some l => flat_map nodesOf l
           | None => []
           end
  end.

(** All nodes of a forest. *)
Definition allNodes {N : Type} (l : list (route N)) : list (route N) :=
  flat_map nodesOf l.

(** The component references held by a forest, one per node. *)
Definition componentsOf {N : Type} (l : list (route N))
  : list (string * string) :=
  map component (allNodes l).




(** The shape of a forest: names, paths and children in order, nothing
    else. *)
#[local] Unset Elimination Schemes.

Inductive shape (N : Type) : Type :=
  Shape : N -> string -> option (list (shape N)) -> shape N.

#[local] Set Elimination Schemes.

Arguments Shape {N} _ _ _.

Fixpoint shapeOf {N : Type} (r : route N) {struct r} : shape N :=
  match r with
  | mkRoute n p _ _ cs =>
      Shape n p (match cs with
                 | Some l => Some (map shapeOf l)
                 | None => None
                 end)
  end.

Definition shapesOf {N : Type} (l : list (route N)) : list (shape N) :=
  map shapeOf l.

(** ** Classes of sibling paths *)

Module Classes.

(** The first character of a token is [c]. *)
Definition headIs (c : ascii) (t : string) : bool :=
  match t with
  | String x _ => Ascii.eqb x c
  | EmptyString => false
  end.

(** The token that follows the leading slash of a path. *)
Definition firstToken (p : string) : option string :=
  match JS.split "/" p with
  | t0 :: t :: _ => if String.eqb t0 "" then Some t else None
  | _ => None
  end.

(** A path begins with a dynamic token ([:name], [:name?]) or with the
    catch-all token. *)
Definition beginsDynamic (p : string) : bool :=
  match firstToken p with
  | Some t => headIs ":" t || String.eqb t "*"
  | None => false
  end.

(** A path other than ["/"] begins with a static token. *)
Definition beginsStatic (p : string) : bool :=
  match firstToken p with
  | Some t => negb (String.eqb p "/") && negb (headIs ":" t || String.eqb t "*")
  | None => false
  end.

(** The position of a path in the order of the classes: empty path, first
    token static, the path ["/"], first token dynamic, first token the
    catch-all.  A path has no rank when it does not start with a slash or
    when its first token is static by its first character but holds a colon
    or starts with a star, so that the two tests of the comparator
    disagree on it. *)
Definition rank (p : string) : option nat :=
  if String.eqb p "" then Some 0%nat
  else if String.eqb p "/" then Some 2%nat
  else match firstToken p with
       | Some t =>
           if String.eqb t "*" then Some 4%nat
           else if headIs ":" t then Some 3%nat
           else if JS.includes ":" t || headIs "*" t then None
           else Some 1%nat
       | None => None
       end.

Definition ranked (p : string) : bool :=
  match rank p with
  | Some _ => true
  | None => false
  end.

(** All siblings of a list have a ranked path. *)
Definition allRanked {N : Type} (l : list (route N)) : bool :=
  forallb (fun r => ranked (path r)) l.

(** A key whose path token the two tests of the comparator classify alike:
    a key with the underscore prefix (a dynamic token or the catch-all), or
    a static key without a colon and without a leading star. *)
Definition plainKey (key : string) : bool :=
  headIs "_" key || (negb (JS.includes ":" key) && negb (headIs "*" key)).

(** The class the comparator gives the first token of a path of rank [k]
    (ranks 1, 3 and 4). *)
Definition rankClass (k : nat) : Z :=
  match k with
  | 1%nat => 0%Z
  | 3%nat => 1%Z
  | _ => 2%Z
  end.

End Classes.

(** A token fit to stand first in a ranked path. *)
Definition tokenOk (x : string) : Prop :=
  JS.includes "/" x = false /\
  (x = "*" \/ Classes.headIs ":" x = true \/
   (JS.includes ":" x = false /\ Classes.headIs "*" x = false)).

(** The paths the loop over plain keys can hold: the empty path, or a
    ranked path that starts with a slash. *)
Definition goodPath (p : string) : Prop :=
  p = "" \/ (Classes.ranked p = true /\ Classes.firstToken p <> None).

(** ** Predicates on forests *)

(** [Siblings P l]: the sibling list [l] and every [children] array below
    it satisfy [P]. *)
Inductive Siblings {N : Type} (P : list (route N) -> Prop)
  : list (route N) -> Prop :=
  | Siblings_intro (l : list (route N)) :
      P l ->
      (forall r cs, In r l -> children r = Some cs -> Siblings P cs) ->
      Siblings P l.

(** The siblings whose paths have a rank stand in the order of the ranks. *)
Definition rankOrdered {N : Type} (l : list (route N)) : Prop :=
  forall i j a b ka kb,
    nth_error l i = Some a -> nth_error l j = Some b ->
    Classes.rank (path a) = Some ka -> Classes.rank (path b) = Some kb ->
    (ka < kb)%nat -> (i < j)%nat.

(** Every key of every file is plain. *)
Definition plainFiles (pagesDir : string) (files : list string) : bool :=
  forallb (fun file => forallb Classes.plainKey (fileKeys pagesDir file)) files.


(** The number of children of a node whose path is empty. *)
Definition emptyChildren {N : Type} (r : route N) : nat :=
  match children r with
  | Some cs => length (filter (fun c => String.eqb (path c) "") cs)
  | None => 0%nat
  end.

(** The path of the node that renders a given component. *)
Definition pathOf {N : Type} (c : string * string) (l : list (route N))
  : option string :=
  option_map path
    (find (fun r => String.eqb (fst (component r)) (fst c)
                    && String.eqb (snd (component r)) (snd c))
       (allNodes l)).

(** ** The statements of the specification *)

Module Stated.


(** Optional disambiguation, on the files named by the specification. *)
Definition optionalWithIndexSibling : Prop :=
  pathOf ("src", "pages/posts/_page.vue")
    (createRoutes ["pages/posts/index.vue"; "pages/posts/_page.vue"]
       "src" "pages")
  = Some "/:page?".

Definition requiredWithoutIndexSibling : Prop :=
  forall p,
    pathOf ("src", "pages/posts/_page.vue")
      (createRoutes ["pages/posts/_page.vue"] "src" "pages") = Some p ->
    JS.includes "?" p = false.




(** Merge correctness, on the files named by the specification. *)
Definition mergedUsers (forest : list cleanRoute) : Prop :=
  exists users index dyn edit,
    forest = [users] /\ name users = Some "users" /\
    children users = Some [index; dyn] /\
    path index = "" /\ path dyn = ":id" /\
    children dyn = Some [edit] /\ name edit = Some "edit".

(** A name is deleted exactly when one child has the empty path. *)
Definition wrapperIffOneEmptyChild (forest : list cleanRoute) : Prop :=
  forall r, In r (allNodes forest) ->
            (name r = None <-> emptyChildren r = 1%nat).

(** The node with path ["/"] stands before the siblings that begin with a
    dynamic or catch-all token and after those that begin with a static
    token. *)
Definition rootBetween {N : Type} (l : list (route N)) : Prop :=
  forall i j a b,
    nth_error l i = Some a -> nth_error l j = Some b -> path a = "/" ->
    (Classes.beginsDynamic (path b) = true -> (i < j)%nat) /\
    (Classes.beginsStatic (path b) = true -> (j < i)%nat).

(** A root node named ["index"] ends with an empty name. *)
Definition rootIndexNameEmpty (files : list string) (srcDir pagesDir : string)
  : Prop :=
  Forall2 (fun raw out => name raw = "index" -> name out = Some "")
    (buildRoutes files srcDir pagesDir) (createRoutes files srcDir pagesDir).

(** A file whose only key is ["index"] gets the path ["/"]. *)
Definition onlyIndexIsRoot (files : list string) (srcDir pagesDir : string)
  : Prop :=
  forall file,
    In file files -> fileKeys pagesDir file = ["index"] ->
    pathOf (srcDir, file) (createRoutes files srcDir pagesDir) = Some "/".

(** The number of leaves of a forest. *)
Fixpoint leavesOf {N : Type} (r : route N) {struct r} : nat :=
  match r with
  | mkRoute _ _ _ _ cs =>
      match cs with
      | Some l => list_sum (map leavesOf l)
      | None => 1%nat
      end
  end.

(** The flattener yields one string per leaf. *)
Definition oneStringPerLeaf {N : Type} (router : list (route N)) : Prop :=
  length (Flattener.flatRoutes router "" []) = list_sum (map leavesOf router).

End Stated.

(** ** What the flattener yields *)

(** [r.path.includes(':') || r.path.includes('*')]. *)
Definition skipped {N : Type} (r : route N) : bool :=
  JS.includes ":" (path r) || JS.includes "*" (path r).

(** The leaves the flattener reaches: those below no skipped node and not
    skipped themselves. *)
Fixpoint reachedLeaves {N : Type} (r : route N) {struct r} : nat :=
  match r with
  | mkRoute _ p _ _ cs =>
      if JS.includes ":" p || JS.includes "*" p then 0%nat
      else match cs with
           | Some l => list_sum (map reachedLeaves l)
           | None => 1%nat
           end
  end.

(** A node with children and the path ["/"] that is not skipped. *)
Definition isRootBranch {N : Type} (r : route N) : bool :=
  negb (skipped r)
  && match children r with Some _ => true | None => false end
  && String.eqb (path r) "/".

Definition rootBranches {N : Type} (l : list (route N)) : nat :=
  length (filter isRootBranch l).

(** * Further notions on the forest and on strings *)

(** [DistinctNames e l]: in the sibling list [l] the names other than [e]
    are pairwise distinct, and so are, below every node of [l], the names
    other than the name of the node. *)
Inductive DistinctNames (e : string) : list rawRoute -> Prop :=
  | DistinctNames_intro (l : list rawRoute) :
      NoDup (filter (fun n => negb (String.eqb n e)) (map name l)) ->
      (forall r cs, In r l -> children r = Some cs ->
                    DistinctNames (name r) cs) ->
      DistinctNames e l.

(** A key as a directory listing gives it: not empty, without a slash. *)
Definition segment (k : string) : Prop :=
  k <> "" /\ JS.includes "/" k = false.

(** A path is empty or starts with a slash. *)
Definition rooted (p : string) : bool :=
  match p with
  | EmptyString => true
  | String c _ => Ascii.eqb c "/"
  end.

(** A string without its question marks. *)
Fixpoint withoutMarks (s : string) : string :=
  match s with
  | EmptyString => EmptyString
  | String c rest =>
      if Ascii.eqb c "?" then withoutMarks rest
      else String c (withoutMarks rest)
  end.

(** No two slashes stand side by side. *)
Fixpoint noDoubleSlash (s : string) : bool :=
  match s with
  | EmptyString => true
  | String c rest =>
      match rest with
      | String c' _ =>
          negb (Ascii.eqb c "/" && Ascii.eqb c' "/") && noDoubleSlash rest
      | EmptyString => true
      end
  end.

(** A string holds neither a colon nor a star. *)
Definition unparameterized (s : string) : bool :=
  negb (JS.includes ":" s) && negb (JS.includes "*" s).

(** * The other functions of [lib/common/utils.js]

    [printWarn], [printError], [fatalError], [createSpinner] write to the
    console; [waitFor], [timeout], [promisifyRoute], [sequence] and
    [parallel] build promises; they are outside this development.  The
    functions on strings, paths and hooks follow. *)

Module Utils.

(** [s.replace(/c/g, r)] for a one-character pattern. *)
Fixpoint replaceAll (c : ascii) (r : string) (s : string) : string :=
  match s with
  | EmptyString => EmptyString
  | String x rest =>
      if Ascii.eqb x c then r ++ replaceAll c r rest
      else String x (replaceAll c r rest)
  end.

(** [s.replace(':/', '://')]: the first occurrence only. *)
Fixpoint replaceColonSlash (s : string) : string :=
  match s with
  | EmptyString => EmptyString
  | String x rest =>
      match rest with
      | String y rest' =>
          if Ascii.eqb x ":" && Ascii.eqb y "/" then "://" ++ rest'
          else String x (replaceColonSlash rest)
      | EmptyString => String x EmptyString
      end
  end.

(** [encodeHtml]. *)
Definition encodeHtml (str : string) : string :=
  replaceAll ">" "&gt;" (replaceAll "<" "&lt;" str).

(** [urlJoin]: the arguments joined by slashes, every run of slashes made
    one slash ([/\/+/g] has the effect of [JS.collapseSlashes]), then the
    first [:/] made [://]. *)
Definition urlJoin (args : list string) : string :=
  replaceColonSlash (JS.collapseSlashes (JS.join "/" args)).

(** [isUrl]. *)
Definition isUrl (url : string) : bool :=
  String.prefix "http" url || String.prefix "//" url.

(** The platform of the process: [isWindows] is
    [/^win/.test(process.platform)], and Node's [path.sep] is a backslash
    exactly there. *)
Inductive platform : Type := Posix | Win32.

Definition isWindows (pf : platform) : bool :=
  match pf with
  | Win32 => true
  | Posix => false
  end.

Definition backslash : ascii := Ascii.ascii_of_nat 92.

(** [wp]: every backslash doubled on Windows. *)
Definition wp (pf : platform) (p : string) : string :=
  if isWindows pf
  then replaceAll backslash (String backslash (String backslash "")) p
  else p.

(** [wChunk]: every slash made an underscore on Windows. *)
Definition wChunk (pf : platform) (p : string) : string :=
  if isWindows pf then replaceAll "/" "_" p else p.

(** [sysSep = _.escapeRegExp(path.sep)]: the slash, or the backslash with
    the backslash that escapes it. *)
Definition sysSep (pf : platform) : string :=
  match pf with
  | Posix => "/"
  | Win32 => String backslash (String backslash "")
  end.

(** [normalize]. *)
Definition normalize (pf : platform) (s : string) : string :=
  replaceAll "/" (sysSep pf) s.

(** [s.indexOf('@') === 0 || s.indexOf('~') === 0]. *)
Definition isAlias (s : string) : bool :=
  (JS.indexOf "@" s =? 0)%Z || (JS.indexOf "~" s =? 0)%Z.

Section Paths.
(** Node's [path.resolve] and [path.relative]. *)
Variable resolve : list string -> string.
Variable relative : string -> string -> string.
Variable pf : platform.

(** [r]: [None] stands for the [TypeError] of a call without arguments,
    where [_.last(args)] is [undefined]. *)
Definition r (args : list string) : option string :=
  match args with
  | [] => None
  | _ :: _ =>
      let lastArg := last args "" in
      if isAlias lastArg then Some (wp pf lastArg)
      else Some (wp pf (resolve (map (normalize pf) args)))
  end.

(** [rp[0] !== '.']. *)
Definition firstIsNotDot (rp : string) : bool :=
  match rp with
  | String c _ => negb (Ascii.eqb c ".")
  | EmptyString => true
  end.

(** [relativeTo]: the first argument is [dir], the others go to [r]. *)
Definition relativeTo (args : list string) : option string :=
  match args with
  | [] => None
  | dir :: args' =>
      match r args' with
      | None => None
      | Some _path =>
          if isAlias _path then Some _path
          else
            let rp := relative dir _path in
            let rp' := if firstIsNotDot rp then "./" ++ rp else rp in
            Some (wp pf rp')
      end
  end.
End Paths.

(** ** [chainFn] *)

Section ChainFn.
(** [V]: the values other than [undefined]; [R]: the [this] value and the
    arguments after the first, which every call passes on unchanged; [S]:
    the state that the functions may change (a hook may mutate its first
    argument instead of returning a result).  A function takes the first
    argument, which may be [undefined], and returns the new state and its
    result, [None] for [undefined].  Functions that throw are not
    modelled. *)
Variables V R S : Type.

Definition jsFunction : Type := option V -> R -> S -> S * option V.

(** A value that is a function or is not one. *)
Inductive hook : Type :=
  | NotFunction (v : option V)
  | Function (f : jsFunction).

(** The function [chainFn] returns when [fn] is a function. *)
Definition chained (base : hook) (fn : jsFunction) : jsFunction :=
  fun arg0 rest s =>
    match base with
    | NotFunction _ => fn arg0 rest s
    | Function b =>
        let '(s1, baseResult0) := b arg0 rest s in
        let baseResult := match baseResult0 with
                          | Some v => Some v
                          | None => arg0
                          end in
        let '(s2, fnResult) := fn baseResult rest s1 in
        match fnResult with
        | None => (s2, baseResult)
        | Some v => (s2, Some v)
        end
    end.

(** [chainFn(base, fn)]. *)
Definition chainFn (base fn : hook) : hook :=
  match fn with
  | NotFunction _ => base
  | Function f => Function (chained base f)
  end.

(** Two hooks that no call can tell apart. *)
Definition sameHook (h h' : hook) : Prop :=
  match h, h' with
  | NotFunction v, NotFunction v' => v = v'
  | Function f, Function g => forall arg0 rest s, f arg0 rest s = g arg0 rest s
  | _, _ => False
  end.
End ChainFn.

(** ** [sequence] *)

Section Sequence.
(** A promise is taken by what it does when nothing else runs in between:
    from the state [S] at which its work starts it leaves a state and
    either the reason [E] of a rejection or the value it resolves
    with. *)
Variables S E T A : Type.

Definition promise (X : Type) : Type := S -> S * (E + X).

(** [Promise.resolve(x)]. *)
Definition resolved {X : Type} (x : X) : promise X := fun s => (s, inr x).

(** [p.then(k)] without a rejection handler. *)
Definition andThen {X Y : Type} (p : promise X) (k : X -> promise Y)
  : promise Y :=
  fun s =>
    match p s with
    | (s', inl e) => (s', inl e)
    | (s', inr x) => k x s'
    end.

(** The result of a task as the value of the chain, which starts from
    [undefined] ([None]). *)
Definition task (fn : T -> promise A) (t : T) : promise (option A) :=
  andThen (fn t) (fun a => resolved (Some a)).

(** [sequence]:
    [tasks.reduce((promise, task) => promise.then(() => fn(task)),
    Promise.resolve())]. *)
Definition sequence (tasks : list T) (fn : T -> promise A)
  : promise (option A) :=
  fold_left (fun promise t => andThen promise (fun _ => task fn t))
    tasks (resolved None).
End Sequence.

End Utils.

(** * The progress bar of [lib/builder/webpack/plugins/progress.mjs] *)

From Stdlib Require QArith.QArith_base.

Module Progress.

Definition BAR_LENGTH : Z := 25.

(** One place of the bar: the foreground block with its hue, or the
    background block. *)
Inductive cell : Type :=
  | Fg (hue : Z)
  | Bg.

(** [progress * (BAR_LENGTH / 100)], as a rational: the product is exact
    in floating point for an integer [progress]. *)
Definition barWidth (progress : Z) : QArith_base.Q :=
  QArith_base.Qmult (QArith_base.inject_Z progress)
    (QArith_base.Qdiv (QArith_base.inject_Z BAR_LENGTH)
       (QArith_base.inject_Z 100)).

(** [i < w]. *)
Definition below (i : Z) (w : QArith_base.Q) : bool :=
  match QArith_base.Qcompare (QArith_base.inject_Z i) w with
  | Lt => true
  | _ => false
  end.

(** [_.range(BAR_LENGTH)]. *)
Definition range (n : Z) : list Z := map Z.of_nat (seq 0 (Z.to_nat n)).

(** The places of the bar, before they are coloured and joined:
    [_.range(BAR_LENGTH).map(i => i < w ? fg(i) : bg)] with
    [fg(i)] of hue [i * 3 + base]. *)
Definition barCells (progress : Z) (green : bool) : list cell :=
  let w := barWidth progress in
  let base := if green then 120%Z else 50%Z in
  map (fun i => if below i w then Fg (i * 3 + base) else Bg) (range BAR_LENGTH).

Section Render.
(** [chalk.white], [chalk.grey] and [chalk.hsl(h, s, l)]. *)
Variable white grey : string -> string.
Variable hsl : Z -> Z -> Z -> string -> string.
Variable IS_WINDOWS : bool.

Definition utf8 (a b c : nat) : string :=
  String (Ascii.ascii_of_nat a)
    (String (Ascii.ascii_of_nat b) (String (Ascii.ascii_of_nat c) "")).

(** The full block, U+2588. *)
Definition fullBlock : string := utf8 226 150 136.

Definition BLOCK_CHAR : string := if IS_WINDOWS then " " else fullBlock.
Definition BLOCK_CHAR2 : string := if IS_WINDOWS then "=" else fullBlock.
Definition BAR_BEFORE : string := if IS_WINDOWS then grey "[" else "".
Definition BAR_AFTER : string := if IS_WINDOWS then grey "]" else "".

Definition renderCell (c : cell) : string :=
  match c with
  | Fg hue => hsl hue 100 50 BLOCK_CHAR2
  | Bg => white BLOCK_CHAR
  end.

(** [_renderBar(progress, color)]; [green] is [color === 'green']. *)
Definition _renderBar (progress : Z) (green : bool) : string :=
  BAR_BEFORE ++ String.concat "" (map renderCell (barCells progress green))
  ++ BAR_AFTER.
End Render.

End Progress.

(** * The sort of V8 from version 7.0 on, for short arrays

    Since version 7.0 V8 sorts with TimSort ([array-sort.tq]).  An array
    of fewer than 64 elements is a single run: [CountAndMakeRun] takes the
    longest run at the start of the array, reversed when it descends, and
    [BinaryInsertionSort] inserts the elements after it one by one.  Longer
    arrays are cut into runs that are merged; that part is not
    modelled. *)

Module TimSort.

Section Sort.
Context {A : Type} (comparefn : A -> A -> Z).

(** The loop of [CountAndMakeRun]: the run goes on while
    [comparefn(currentElement, previousElement)] is negative for a
    descending run, not negative for an ascending one.  The result is the
    rest of the run and the elements after it. *)
Fixpoint runRest (isDescending : bool) (previousElement : A) (l : list A)
  : list A * list A :=
  match l with
  | [] => ([], [])
  | currentElement :: l' =>
      let order := comparefn currentElement previousElement in
      if (if isDescending then (0 <=? order)%Z else (order <? 0)%Z)
      then ([], l)
      else let '(run, rest) := runRest isDescending currentElement l' in
           (currentElement :: run, rest)
  end.

(** [CountAndMakeRun] from the start of the array: the run, made
    ascending, and the elements after it. *)
Definition countAndMakeRun (l : list A) : list A * list A :=
  match l with
  | [] => ([], [])
  | elementHigh :: [] => ([elementHigh], [])
  | elementHigh :: elementLow :: l' =>
      let isDescending := (comparefn elementLow elementHigh <? 0)%Z in
      let '(run, rest) := runRest isDescending elementLow l' in
      let whole := elementHigh :: elementLow :: run in
      (if isDescending then rev whole else whole, rest)
  end.

(** The [while (left < right)] loop of [BinaryInsertionSort]; [fuel]
    bounds the number of iterations. *)
Fixpoint insertionPoint (fuel : nat) (pivot : A) (sorted : list A)
    (left right : nat) : nat :=
  match fuel with
  | O => left
  | S fuel' =>
      if (left <? right)%nat then
        let mid := (left + (right - left) / 2)%nat in
        match nth_error sorted mid with
        | Some m =>
            if (comparefn pivot m <? 0)%Z
            then insertionPoint fuel' pivot sorted left mid
            else insertionPoint fuel' pivot sorted (mid + 1) right
        | None => left
        end
      else left
  end.

(** One step of the outer loop: [pivot] is put at its insertion point in
    the sorted part. *)
Definition binaryInsert (sorted : list A) (pivot : A) : list A :=
  let left := insertionPoint (length sorted) pivot sorted 0 (length sorted) in
  (firstn left sorted ++ pivot :: skipn left sorted)%list.

Definition sort (l : list A) : list A :=
  let '(run, rest) := countAndMakeRun l in
  fold_left binaryInsert rest run.
End Sort.

End TimSort.

(** * The sort of the engine, as a parameter

    ECMAScript fixes the result of [Array.prototype.sort] only for a
    consistent comparator, and the comparator of [createRoutes] is none:
    it never returns 0, and it calls each of two static paths of the same
    length greater than the other.  The order of siblings is then the
    engine's choice, and engines differ.  The builder is therefore given
    here a second time with the engine's sort as a parameter; what the
    order theorems assume of that sort is [conforms] below.  The builder
    above is the instance for V8's insertion sort; both sorts of V8
    conform. *)

Module Engine.

(** [Array.prototype.sort] on an array of routes. *)
Definition sorter : Type :=
  (rawRoute -> rawRoute -> Z) -> list rawRoute -> list rawRoute.

(** The comparator tells the classes of [rho] apart on the elements of
    [l]: an element of a lower class compares below an element of a higher
    class, in both argument orders.  Nothing is asked of two elements of
    the same class. *)
Definition separates (comparefn : rawRoute -> rawRoute -> Z)
    (rho : rawRoute -> nat) (l : list rawRoute) : Prop :=
  forall a b, In a l -> In b l -> (rho a < rho b)%nat ->
              (comparefn a b < 0)%Z /\ (0 < comparefn b a)%Z.

(** The elements stand in the order of their classes. *)
Definition classOrdered (rho : rawRoute -> nat) (l : list rawRoute) : Prop :=
  forall i j a b,
    nth_error l i = Some a -> nth_error l j = Some b ->
    (rho a < rho b)%nat -> (i < j)%nat.

(** What is assumed of the engine: the sorted array holds the elements it
    held before, and classes that the comparator tells apart end up in
    order, whatever the comparator answers inside a class.  Both sorts of
    V8 modelled in this file meet it ([insertion_conforms],
    [timsort_conforms]); inside a class they return different orders
    ([engines_differ_inside_a_class]). *)
Definition conforms (sort : sorter) : Prop :=
  (forall comparefn l, Permutation (sort comparefn l) l) /\
  (forall comparefn rho l,
      separates comparefn rho l -> classOrdered rho (sort comparefn l)).

Section Builder.
Variable sort : sorter.

(** [parent.push(route); parent.sort(...)]. *)
Definition pushSorted (parent : list rawRoute) (r : rawRoute)
  : list rawRoute :=
  sort Orderer.compareRoutes (parent ++ [r])%list.

(** The loop over the keys of one file, the push and the sort. *)
Fixpoint place (src : string * string) (chunk : string)
    (keys : list string) (i len : nat) (cur : pending)
    (parent : list rawRoute) : list rawRoute :=
  match keys with
  | [] =>
      pushSorted parent
        (mkRoute (p_name cur) (p_path cur) src (p_chunkName cur) None)
  | key :: keys' =>
      let n := nextName (p_name cur) key in
      match findByName n parent with
      | Some (k, child) =>
          let below :=
            place src chunk keys' (S i) len (mkPending n "" (Some chunk))
              (match children child with
               | Some cs => cs
               | None => []
               end) in
          JS.setAt k (setChildren child (Some below)) parent
      | None =>
          place src chunk keys' (S i) len
            (mkPending n (nextPath (p_path cur) key i len) (Some chunk))
            parent
      end
  end.

(** The body of [files.forEach]. *)
Definition addFile (srcDir pagesDir : string) (routes : list rawRoute)
    (file : string) : list rawRoute :=
  let keys := fileKeys pagesDir file in
  place (srcDir, file) (JS.stripExt file) keys 0 (length keys)
    (mkPending "" "" None) routes.

(** The forest [createRoutes] holds when it calls the collapser. *)
Definition buildRoutes (files : list string) (srcDir pagesDir : string)
  : list rawRoute :=
  fold_left (addFile srcDir pagesDir) files [].

Definition createRoutes (files : list string) (srcDir pagesDir : string)
  : list cleanRoute :=
  Collapser.cleanChildrenRoutes (buildRoutes files srcDir pagesDir) false.
End Builder.

End Engine.

(** * [pagesDir] as a regular expression

    [createRoutes] builds [RegExp('^' + pagesDir)].  [fileKeys] takes the
    expression to match [pagesDir] itself at the start of the file, which
    is so when [pagesDir] holds none of the characters a regular
    expression reads as syntax. *)

Definition syntaxCharacters : list ascii :=
  ["^"; "$"; Ascii.ascii_of_nat 92; "."; "*"; "+"; "?"; "("; ")"; "[";
   "]"; "{"; "}"; "|"]%char.

Definition syntaxCharacter (c : ascii) : bool :=
  existsb (Ascii.eqb c) syntaxCharacters.

Fixpoint literalPattern (p : string) : bool :=
  match p with
  | EmptyString => true
  | String c rest => negb (syntaxCharacter c) && literalPattern rest
  end.

(** * The rule of the collapser for the marker of optional tokens

    What the two loops of [cleanChildrenRoutes] come to, stated on the
    sibling list: which siblings count as index siblings, where their
    anchor lies, and which tokens of a path lose a question mark. *)

Module Anchors.

(** [l.map((t, k) => f(k, t))]. *)
Definition mapi {A B : Type} (f : nat -> A -> B) (l : list A) : list B :=
  map (fun kt => f (fst kt) (snd kt)) (combine (seq 0 (length l)) l).

(** The position of ['index'] in a split name. *)
Definition position (r : list string) : Z := JS.arrayIndexOf "index" r.

(** The split names of the index siblings, in the order of the list. *)
Definition indexSiblings (routes : list rawRoute) : list (list string) :=
  map (fun r => JS.split "-" (name r))
    (filter (fun r => Collapser.isIndexName (name r)) routes).

(** The anchor: the least position of ['index'] among the index siblings,
    [-1] when there is none. *)
Definition least (routes : list rawRoute) : Z :=
  match map position (indexSiblings routes) with
  | [] => (-1)%Z
  | x :: xs => fold_left Z.min xs x
  end.

(** The index sibling with the split name [r] reaches token [k] of a route
    with the split name [names]: its ['index'] stands [k] places after the
    anchor, and the two names agree on the [k] parts before. *)
Definition reaches (routes : list rawRoute) (names r : list string)
    (k : nat) : bool :=
  (position r - least routes =? Z.of_nat k)%Z
  && forallb (fun a => JS.eqOpt (nth_error names a) (nth_error r a))
       (seq 0 k).

(** The number of index siblings that reach token [k]. *)
Definition reaching (routes : list rawRoute) (names : list string)
    (k : nat) : nat :=
  length (filter (fun r => reaches routes names r k) (indexSiblings routes)).

(** The tokens of a path after the pass: token [k] loses its first
    question mark once for every index sibling that reaches it. *)
Definition unmark (routes : list rawRoute) (names tokens : list string)
  : list string :=
  mapi (fun k t => Nat.iter (reaching routes names k) (JS.replace "?" "") t)
    tokens.

(** The path of a route of the sibling list [routes] after the pass. *)
Definition expectedPath (isChild : bool) (routes : list rawRoute)
    (raw : rawRoute) : string :=
  let p := if isChild then JS.replace "/" "" (path raw) else path raw in
  if JS.includes "?" p then
    (if isChild then "" else "/")
    ++ JS.join "/"
         (unmark routes (JS.split "-" (name raw))
            (if isChild then JS.split "/" p else tl (JS.split "/" p)))
  else p.

End Anchors.

(** * What one node adds to the result of the flattener *)

Module Yield.

(** A leaf that the flattener does not skip. *)
Definition reachedLeaf {N : Type} (r : route N) : bool :=
  negb (skipped r)
  && match children r with Some _ => false | None => true end.

(** The prefix a node is flattened with when it stands after the siblings
    [l] in a call with the prefix [prefix]: the first leaf that is reached
    rewrites a prefix made of slashes only to one slash. *)
Definition prefixAfter {N : Type} (l : list (route N)) (prefix : string)
  : string :=
  if existsb reachedLeaf l then JS.normalizeSlashes prefix else prefix.

(** The string of a leaf with the path [p] under the prefix [prefix]. *)
Definition composed (prefix p : string) : string :=
  let q := JS.normalizeSlashes prefix in
  (if String.eqb p "" && JS.lastIs "/" q then JS.dropLast q else q) ++ p.

(** The strings one node adds. *)
Definition yield {N : Type} (r : route N) (prefix : string) : list string :=
  if skipped r then []
  else match children r with
       | None => [composed prefix (path r)]
       | Some cs =>
           ((if String.eqb prefix "" && String.eqb (path r) "/"
             then ["/"] else [])
            ++ Flattener.flatRoutes cs (prefix ++ path r ++ "/") [])%list
       end.

End Yield.

(** * Properties *)

#[local] Arguments Ascii.eqb : simpl never.
#[local] Arguments String.eqb : simpl never.

(** ** The engine's sort *)

Section SortFacts.
Context {A : Type} (comparefn : A -> A -> Z).

Lemma insertLeft_perm (e : A) (l : list A) :
  Permutation (ArraySort.insertLeft comparefn e l) (e :: l).
Proof.
  induction l as [|tmp rest IH]; simpl.
  - apply Permutation_refl.
  - destruct (0 <? comparefn tmp e)%Z.
    + eapply Permutation_trans.
      * apply perm_skip, IH.
      * apply perm_swap.
    + apply Permutation_refl.
Qed.

Lemma sortRev_perm (l acc : list A) :
  Permutation
    (fold_left (fun sorted e => ArraySort.insertLeft comparefn e sorted) l acc)
    (l ++ acc)%list.
Proof.
  revert acc; induction l as [|x l IH]; intros acc; simpl.
  - apply Permutation_refl.
  - eapply Permutation_trans; [apply IH|].
    eapply Permutation_trans.
    + apply Permutation_app_head, insertLeft_perm.
    + apply Permutation_sym, Permutation_middle.
Qed.

Lemma sort_perm (l : list A) : Permutation (ArraySort.sort comparefn l) l.
Proof.
  unfold ArraySort.sort, ArraySort.sortRev.
  eapply Permutation_trans; [apply Permutation_sym, Permutation_rev|].
  eapply Permutation_trans; [apply sortRev_perm|].
  rewrite app_nil_r. apply Permutation_refl.
Qed.

(** Sortedness with respect to any transitive relation the comparator
    respects on the elements at hand: [R x y] reads "x may stand before
    y". *)
Variable R : A -> A -> Prop.
Variable Q : A -> Prop.
Hypothesis R_trans : forall x y z, R x y -> R y z -> R x z.
Hypothesis cmp_gt : forall x y, Q x -> Q y -> (0 < comparefn x y)%Z -> R y x.
Hypothesis cmp_le : forall x y, Q x -> Q y -> (comparefn x y <= 0)%Z -> R x y.




Lemma sorted_app (S : A -> A -> Prop) (l1 l2 : list A) :
  StronglySorted S l1 -> StronglySorted S l2 ->
  (forall x y, In x l1 -> In y l2 -> S x y) ->
  StronglySorted S (l1 ++ l2).
Proof.
  induction 1 as [|x l1 HS IH Hall]; intros H2 Hx; simpl.
  - assumption.
  - constructor.
    + apply IH; [assumption|]. intros a b Ha Hb; apply Hx; [right; exact Ha|exact Hb].
    + apply Forall_app; split; [assumption|].
      apply Forall_forall; intros y Hy. apply Hx; [left; reflexivity|assumption].
Qed.

Lemma rev_sorted (l : list A) :
  StronglySorted (fun x y => R y x) l -> StronglySorted R (rev l).
Proof.
  induction 1 as [|x l HS IH Hall]; simpl.
  - constructor.
  - apply sorted_app; [assumption|repeat constructor|].
    intros a b Ha Hb. destruct Hb as [<-|[]].
    rewrite Forall_forall in Hall. apply Hall, in_rev, Ha.
Qed.


Lemma sorted_nth (S : A -> A -> Prop) (l : list A) :
  StronglySorted S l ->
  forall i j a b,
    nth_error l i = Some a -> nth_error l j = Some b -> (i < j)%nat -> S a b.
Proof.
  induction 1 as [|x l HS IH Hall]; intros i j a b Hi Hj Hlt.
  - destruct i; discriminate.
  - destruct j as [|j]; [lia|]. simpl in Hj.
    destruct i as [|i]; simpl in Hi.
    + injection Hi as <-. rewrite Forall_forall in Hall.
      apply Hall. eapply nth_error_In; eassumption.
    + eapply IH; try eassumption. lia.
Qed.

End SortFacts.

(** ** The comparator *)

Lemma split_nonempty (sep : ascii) (s : string) : JS.split sep s <> [].
Proof.
  destruct s as [|c rest]; simpl; [discriminate|].
  destruct (Ascii.eqb c sep); [discriminate|].
  destruct (JS.split sep rest); discriminate.
Qed.

Lemma tokenLoop_total (rest _b : list string) (i : nat) (res : Z) :
  res <> 0%Z \/ (i < length _b)%nat ->
  Orderer.tokenLoop rest _b i res <> None.
Proof.
  revert i res; induction rest as [|ai rest IH]; intros i res H; simpl.
  - discriminate.
  - destruct (res =? 0)%Z eqn:Hres; simpl; [|discriminate].
    apply Z.eqb_eq in Hres.
    destruct H as [H|H]; [contradiction|].
    destruct (nth_error _b i) as [bi|] eqn:Hb.
    + apply IH.
      destruct (Z.of_nat i =? Z.of_nat (length _b) - 1)%Z eqn:Hi;
        destruct (Orderer.tokenClass ai - Orderer.tokenClass bi =? 0)%Z eqn:Hd;
        simpl.
      * left. destruct (String.eqb ai "*"); discriminate.
      * left. apply Z.eqb_neq in Hd. exact Hd.
      * right. apply Z.eqb_neq in Hi. lia.
      * left. apply Z.eqb_neq in Hd. exact Hd.
    + apply nth_error_None in Hb. lia.
Qed.

(** The comparator never reads a token outside [_b]: it returns a number
    for every pair of paths. *)
Lemma comparePathsOpt_total (a b : string) :
  Orderer.comparePathsOpt a b <> None.
Proof.
  unfold Orderer.comparePathsOpt.
  destruct (String.length a =? 0)%nat; [discriminate|].
  destruct (String.length b =? 0)%nat; [discriminate|].
  destruct (String.eqb a "/"); [discriminate|].
  destruct (String.eqb b "/"); [discriminate|].
  unfold Orderer.compareTokens.
  destruct (Orderer.tokenLoop (JS.split "/" a) (JS.split "/" b) 0 0) as [[i res]|] eqn:H.
  - discriminate.
  - exfalso. revert H. apply tokenLoop_total. right.
    pose proof (split_nonempty "/" b) as Hb.
    destruct (JS.split "/" b); [contradiction|simpl; lia].
Qed.

Lemma length_zero_eqb (s : string) :
  (String.length s =? 0)%nat = String.eqb s "".
Proof. destruct s; reflexivity. Qed.

Lemma comparePaths_empty_l (a b : string) :
  a = "" -> Orderer.comparePaths a b = (-1)%Z.
Proof. intros ->. reflexivity. Qed.

Lemma comparePaths_empty_r (a b : string) :
  a <> "" -> b = "" -> Orderer.comparePaths a b = 1%Z.
Proof.
  intros Ha ->. unfold Orderer.comparePaths, Orderer.comparePathsOpt.
  rewrite length_zero_eqb.
  destruct (String.eqb_spec a ""); [contradiction|reflexivity].
Qed.

Lemma firstToken_split (p t : string) :
  Classes.firstToken p = Some t ->
  exists p' rest, p = String "/" p' /\ JS.split "/" p' = t :: rest.
Proof.
  unfold Classes.firstToken.
  destruct p as [|c p']; simpl; [discriminate|].
  destruct (Ascii.eqb_spec c "/") as [->|Hc].
  - pose proof (split_nonempty "/" p') as Hne.
    destruct (JS.split "/" p') as [|t' rest] eqn:Hs; [contradiction|].
    simpl. intros H; injection H as <-. exists p', rest. split; reflexivity || assumption.
  - destruct (JS.split "/" p') as [|t0 [|t1 rest]]; simpl; discriminate.
Qed.

Lemma split_head (p' t : string) (rest : list string) (c : ascii) :
  JS.split "/" p' = t :: rest -> c <> "/"%char ->
  Classes.headIs c t = Classes.headIs c p'.
Proof.
  intros Hs Hc. destruct p' as [|x p'']; simpl in Hs.
  - injection Hs as <- _. reflexivity.
  - destruct (Ascii.eqb_spec x "/") as [->|Hx].
    + injection Hs as <- _. simpl.
      destruct (Ascii.eqb_spec "/"%char c); [congruence|reflexivity].
    + destruct (JS.split "/" p''); injection Hs as <- _; reflexivity.
Qed.

Lemma startsDynamic_firstToken (p t : string) :
  Classes.firstToken p = Some t ->
  JS.startsDynamic p = Classes.headIs ":" t || Classes.headIs "*" t.
Proof.
  intros H. destruct (firstToken_split _ _ H) as (p' & rest & -> & Hs).
  rewrite (split_head _ _ _ ":"%char Hs), (split_head _ _ _ "*"%char Hs)
    by discriminate.
  destruct p' as [|x p'']; reflexivity.
Qed.

Lemma headIs_star (t : string) : t = "*" -> Classes.headIs "*" t = true.
Proof. intros ->. reflexivity. Qed.

Lemma tokenClass_star : Orderer.tokenClass "*" = 2%Z.
Proof. reflexivity. Qed.

Lemma tokenClass_colon (t : string) :
  Classes.headIs ":" t = true -> Orderer.tokenClass t = 1%Z.
Proof.
  unfold Orderer.tokenClass. destruct t as [|x t']; simpl; [discriminate|].
  intros H. apply Ascii.eqb_eq in H. subst x.
  destruct t'; reflexivity.
Qed.

Lemma tokenClass_plain (t : string) :
  String.eqb t "*" = false -> JS.includes ":" t = false ->
  Orderer.tokenClass t = 0%Z.
Proof.
  unfold Orderer.tokenClass, JS.includes. intros -> H.
  apply Z.leb_gt in H.
  destruct (-1 <? JS.indexOf ":" t)%Z eqn:E; [|reflexivity].
  apply Z.ltb_lt in E. lia.
Qed.

Lemma tokenLoop_step (ai bi : string) (rest _b : list string) (i : nat) :
  nth_error _b i = Some bi ->
  Orderer.tokenLoop (ai :: rest) _b i 0%Z
  = Orderer.tokenLoop rest _b (S i)
      (if (Z.of_nat i =? Z.of_nat (length _b) - 1)%Z
          && (Orderer.tokenClass ai - Orderer.tokenClass bi =? 0)%Z
       then (if String.eqb ai "*" then (-1)%Z else 1%Z)
       else (Orderer.tokenClass ai - Orderer.tokenClass bi)%Z).
Proof. intros H. cbn [Orderer.tokenLoop]. rewrite H. reflexivity. Qed.

Lemma tokenLoop_done (rest _b : list string) (i : nat) (res : Z) :
  res <> 0%Z -> exists i', Orderer.tokenLoop rest _b i res = Some (i', res).
Proof.
  intros H. apply Z.eqb_neq in H.
  destruct rest as [|ai rest]; cbn [Orderer.tokenLoop].
  - eexists; reflexivity.
  - rewrite H. eexists; reflexivity.
Qed.

Lemma compareTokens_done (_a _b : list string) (i : nat) (res : Z) :
  Orderer.tokenLoop _a _b 0 0%Z = Some (i, res) -> res <> 0%Z ->
  Orderer.compareTokens _a _b = Some res.
Proof.
  intros H Hres. unfold Orderer.compareTokens. rewrite H.
  apply Z.eqb_neq in Hres. rewrite Hres. reflexivity.
Qed.

(** Two paths that start with a slash and whose first tokens differ in
    class are ordered by that difference. *)
Lemma compareTokens_first (ta tb : string) (ra rb : list string) :
  Orderer.tokenClass ta <> Orderer.tokenClass tb ->
  Orderer.compareTokens ("" :: ta :: ra) ("" :: tb :: rb)
  = Some (Orderer.tokenClass ta - Orderer.tokenClass tb)%Z.
Proof.
  intros Hd.
  assert (Hn : (Orderer.tokenClass ta - Orderer.tokenClass tb =? 0)%Z = false)
    by (apply Z.eqb_neq; lia).
  destruct (tokenLoop_done ra ("" :: tb :: rb) 2
              (Orderer.tokenClass ta - Orderer.tokenClass tb)%Z) as [i' Hi'];
    [lia|].
  apply (compareTokens_done _ _ i'); [|lia].
  rewrite (tokenLoop_step "" "" _ _ 0) by reflexivity.
  replace (Z.of_nat 0 =? Z.of_nat (length ("" :: tb :: rb)) - 1)%Z with false
    by (symmetry; apply Z.eqb_neq; cbn [length]; lia).
  cbn [andb].
  change (Orderer.tokenClass "" - Orderer.tokenClass "")%Z with 0%Z.
  rewrite (tokenLoop_step ta tb _ _ 1) by reflexivity.
  rewrite Hn, andb_false_r. exact Hi'.
Qed.

(** ** Ranks and the comparator *)

Lemma rank_cases (p : string) (k : nat) :
  Classes.rank p = Some k ->
  (k = 0%nat /\ p = "") \/
  (k = 2%nat /\ p = "/") \/
  ((k = 1 \/ k = 3 \/ k = 4)%nat /\ p <> "" /\ p <> "/" /\
   JS.startsDynamic p = negb (k =? 1)%nat /\
   exists t rest, JS.split "/" p = "" :: t :: rest /\
                  Orderer.tokenClass t = Classes.rankClass k).
Proof.
  unfold Classes.rank.
  destruct (String.eqb_spec p "") as [->|Hp]; [intros H; injection H as <-; auto|].
  destruct (String.eqb_spec p "/") as [->|Hq]; [intros H; injection H as <-; auto|].
  destruct (Classes.firstToken p) as [t|] eqn:Ht; [|discriminate].
  pose proof (startsDynamic_firstToken _ _ Ht) as Hsd.
  destruct (firstToken_split _ _ Ht) as (p' & rest & Ep & Hs).
  assert (Hsplit : JS.split "/" p = "" :: t :: rest).
  { rewrite Ep. cbn [JS.split]. rewrite Ascii.eqb_refl, Hs. reflexivity. }
  destruct (String.eqb_spec t "*") as [Et|Et].
  { intros H; injection H as <-. right; right.
    repeat split; auto.
    - rewrite Hsd, (headIs_star _ Et), orb_true_r. reflexivity.
    - exists t, rest. split; [assumption|]. rewrite Et. reflexivity. }
  destruct (Classes.headIs ":" t) eqn:Hc.
  { intros H; injection H as <-. right; right.
    repeat split; auto.
    exists t, rest. split; [assumption|]. apply tokenClass_colon, Hc. }
  destruct (JS.includes ":" t) eqn:Hi; [discriminate|].
  destruct (Classes.headIs "*" t) eqn:Hst; [discriminate|].
  intros H; injection H as <-. right; right.
  repeat split; auto.
  exists t, rest. split; [assumption|].
  apply tokenClass_plain; [|assumption].
  destruct (String.eqb_spec t "*"); [contradiction|reflexivity].
Qed.

Lemma comparePaths_tokens (a b : string) :
  a <> "" -> a <> "/" -> b <> "" -> b <> "/" ->
  Orderer.comparePathsOpt a b
  = Orderer.compareTokens (JS.split "/" a) (JS.split "/" b).
Proof.
  intros Ha Ha' Hb Hb'. unfold Orderer.comparePathsOpt.
  rewrite !length_zero_eqb.
  destruct (String.eqb_spec a ""); [contradiction|].
  destruct (String.eqb_spec b ""); [contradiction|].
  destruct (String.eqb_spec a "/"); [contradiction|].
  destruct (String.eqb_spec b "/"); [contradiction|].
  reflexivity.
Qed.

Lemma comparePaths_root_l (b : string) :
  b <> "" ->
  Orderer.comparePaths "/" b = if JS.startsDynamic b then (-1)%Z else 1%Z.
Proof.
  intros Hb. unfold Orderer.comparePaths, Orderer.comparePathsOpt.
  rewrite (length_zero_eqb b).
  destruct (String.eqb_spec b ""); [contradiction|]. reflexivity.
Qed.

Lemma comparePaths_root_r (a : string) :
  a <> "" -> a <> "/" ->
  Orderer.comparePaths a "/" = if JS.startsDynamic a then 1%Z else (-1)%Z.
Proof.
  intros Ha Ha'. unfold Orderer.comparePaths, Orderer.comparePathsOpt.
  rewrite length_zero_eqb.
  destruct (String.eqb_spec a ""); [contradiction|].
  destruct (String.eqb_spec a "/"); [contradiction|]. reflexivity.
Qed.

(** The comparator agrees with the ranks: a path of lower rank compares
    below a path of higher rank, in both argument orders. *)
Lemma rank_lt_compare (a b : string) (ka kb : nat) :
  Classes.rank a = Some ka -> Classes.rank b = Some kb -> (ka < kb)%nat ->
  (Orderer.comparePaths a b < 0)%Z /\ (0 < Orderer.comparePaths b a)%Z.
Proof.
  intros Ha Hb Hlt.
  destruct (rank_cases _ _ Ha) as [[-> ->]|[[-> ->]|(Ka & Na & Na' & Da & ta & ra & Sa & Ca)]];
    destruct (rank_cases _ _ Hb) as [[-> ->]|[[-> ->]|(Kb & Nb & Nb' & Db & tb & rb & Sb & Cb)]];
    try lia.
  - split; reflexivity.
  - rewrite comparePaths_empty_l, comparePaths_empty_r by auto. lia.
  - rewrite comparePaths_root_l by auto.
    rewrite comparePaths_root_r by auto. rewrite Db.
    destruct (kb =? 1)%nat eqn:E; [apply Nat.eqb_eq in E; lia|]. simpl. lia.
  - rewrite comparePaths_root_l by auto.
    rewrite comparePaths_root_r by auto. rewrite Da.
    destruct (ka =? 1)%nat eqn:E; [|apply Nat.eqb_neq in E; lia]. simpl. lia.
  - unfold Orderer.comparePaths.
    rewrite !comparePaths_tokens by auto. rewrite Sa, Sb.
    assert (Hd : Orderer.tokenClass ta <> Orderer.tokenClass tb).
    { rewrite Ca, Cb. destruct Ka as [->|[->| ->]]; destruct Kb as [->|[->| ->]];
        simpl; lia. }
    rewrite !compareTokens_first by auto.
    rewrite Ca, Cb. destruct Ka as [->|[->| ->]]; destruct Kb as [->|[->| ->]];
      simpl; lia.
Qed.

(** ** Induction on route trees *)

Lemma route_nested_ind {N : Type} (P : route N -> Prop) :
  (forall n p c ch cs,
      match cs with
      | Some l => Forall P l
      | None => True
      end -> P (mkRoute n p c ch cs)) ->
  forall r, P r.
Proof.
  intros Hnode.
  exact (fix IH (r : route N) : P r :=
           match r with
           | mkRoute n p c ch cs =>
               Hnode n p c ch cs
                 (match cs as o
                        return match o with
                               | Some l => Forall P l
                               | None => True
                               end with
                  | Some l0 =>
                      (fix go (l : list (route N)) : Forall P l :=
                         match l with
                         | [] => Forall_nil P
                         | x :: t => Forall_cons x (IH x) (go t)
                         end) l0
                  | None => I
                  end)
           end).
Qed.

Lemma forest_ind {N : Type} (P : list (route N) -> Prop) :
  P [] ->
  (forall n p c ch cs rest,
      match cs with
      | Some l => P l
      | None => True
      end -> P rest -> P (mkRoute n p c ch cs :: rest)) ->
  forall l, P l.
Proof.
  intros Hnil Hcons.
  assert (H : forall r : route N, forall rest, P rest -> P (r :: rest)).
  { induction r as [n p c ch cs IH] using route_nested_ind.
    intros rest Hrest. apply Hcons; [|assumption].
    destruct cs as [l|]; [|exact I].
    induction IH as [|x l Hx _ IHl]; [assumption|].
    apply Hx, IHl. }
  induction l as [|r rest IHl]; [assumption|]. apply H, IHl.
Qed.

(** ** The name lookup and the in-place update *)

Lemma findByName_spec (n : string) (parent : list rawRoute) (k : nat)
    (child : rawRoute) :
  findByName n parent = Some (k, child) ->
  name child = n /\
  exists l1 l2, parent = (l1 ++ child :: l2)%list /\ length l1 = k /\
                Forall (fun c => name c <> n) l1.
Proof.
  revert k; induction parent as [|c rest IH]; intros k; simpl; [discriminate|].
  destruct (String.eqb_spec (name c) n) as [E|E].
  - intros H; injection H as <- <-. split; [assumption|].
    exists [], rest. repeat split. constructor.
  - destruct (findByName n rest) as [[k' c']|] eqn:F; [|discriminate].
    intros H; injection H as <- <-.
    destruct (IH k' eq_refl) as (Hn & l1 & l2 & -> & Hl & Hall).
    split; [assumption|].
    exists (c :: l1), l2. repeat split; simpl; [congruence|].
    constructor; assumption.
Qed.

Lemma findByName_none (n : string) (parent : list rawRoute) :
  findByName n parent = None <-> Forall (fun c => name c <> n) parent.
Proof.
  induction parent as [|c rest IH]; simpl.
  - split; [constructor|reflexivity].
  - destruct (String.eqb_spec (name c) n) as [E|E].
    + split; [discriminate|]. intros H; inversion H; contradiction.
    + destruct (findByName n rest) as [[k' c']|].
      * split; [discriminate|]. intros H; inversion H; subst.
        apply IH in H3. discriminate.
      * split; [|reflexivity]. intros _. constructor; [assumption|].
        apply IH; reflexivity.
Qed.

Lemma setAt_middle {A : Type} (l1 l2 : list A) (x v : A) :
  JS.setAt (length l1) v (l1 ++ x :: l2) = (l1 ++ v :: l2)%list.
Proof. induction l1 as [|y l1 IH]; simpl; [reflexivity|]. rewrite IH; reflexivity. Qed.

Lemma allNodes_app {N : Type} (l1 l2 : list (route N)) :
  allNodes (l1 ++ l2) = (allNodes l1 ++ allNodes l2)%list.
Proof. unfold allNodes. apply flat_map_app. Qed.

Lemma allNodes_cons {N : Type} (r : route N) (l : list (route N)) :
  allNodes (r :: l)
  = (r :: match children r with
          | Some cs => allNodes cs
          | None => []
          end ++ allNodes l)%list.
Proof. destruct r as [n p c ch [cs|]]; reflexivity. Qed.

Lemma componentsOf_app {N : Type} (l1 l2 : list (route N)) :
  componentsOf (l1 ++ l2) = (componentsOf l1 ++ componentsOf l2)%list.
Proof. unfold componentsOf. rewrite allNodes_app. apply map_app. Qed.

Lemma componentsOf_cons {N : Type} (r : route N) (l : list (route N)) :
  componentsOf (r :: l)
  = (component r :: match children r with
                    | Some cs => componentsOf cs
                    | None => []
                    end ++ componentsOf l)%list.
Proof.
  unfold componentsOf. rewrite allNodes_cons. simpl. rewrite map_app.
  destruct (children r); reflexivity.
Qed.

Lemma componentsOf_perm {N : Type} (l l' : list (route N)) :
  Permutation l l' -> Permutation (componentsOf l) (componentsOf l').
Proof.
  intros H. unfold componentsOf, allNodes.
  apply Permutation_map, Permutation_flat_map, H.
Qed.

(** ** One node per file *)

Lemma pushSorted_perm (parent : list rawRoute) (r : rawRoute) :
  Permutation (pushSorted parent r) (r :: parent).
Proof.
  unfold pushSorted.
  eapply Permutation_trans; [apply sort_perm|].
  apply Permutation_sym, Permutation_cons_append.
Qed.

Lemma place_components (src : string * string) (chunk : string)
    (keys : list string) (i len : nat) (cur : pending)
    (parent : list rawRoute) :
  Permutation (componentsOf (place src chunk keys i len cur parent))
              (src :: componentsOf parent).
Proof.
  revert i cur parent; induction keys as [|key keys IH]; intros i cur parent.
  - cbn [place].
    eapply Permutation_trans; [apply componentsOf_perm, pushSorted_perm|].
    rewrite componentsOf_cons. simpl. apply Permutation_refl.
  - cbn [place].
    destruct (findByName (nextName (p_name cur) key) parent) as [[k child]|] eqn:F.
    + destruct (findByName_spec _ _ _ _ F) as (_ & l1 & l2 & -> & <- & _).
      rewrite setAt_middle.
      rewrite !componentsOf_app, !componentsOf_cons.
      destruct child as [n p c ch cs]; cbn [setChildren component children name path chunkName].
      specialize (IH (S i) (mkPending (nextName (p_name cur) key) "" (Some chunk))
                     (match cs with Some cs0 => cs0 | None => [] end)).
      set (below := place src chunk keys (S i) len _ _) in *.
      assert (E : componentsOf (match cs with Some cs0 => cs0 | None => [] end)
                  = match cs with Some cs0 => componentsOf cs0 | None => [] end)
        by (destruct cs; reflexivity).
      rewrite E in IH.
      set (C := match cs with Some cs0 => componentsOf cs0 | None => [] end) in *.
      apply Permutation_sym.
      eapply Permutation_trans; [apply Permutation_middle|].
      apply Permutation_app_head.
      eapply Permutation_trans; [apply perm_swap|]. apply perm_skip.
      change (src :: C ++ componentsOf l2)%list with ((src :: C) ++ componentsOf l2)%list.
      apply Permutation_app_tail, Permutation_sym, IH.
    + apply IH.
Qed.





Lemma buildRoutes_components (files : list string) (srcDir pagesDir : string) :
  Permutation (componentsOf (buildRoutes files srcDir pagesDir))
              (map (fun file => (srcDir, file)) files).
Proof.
  unfold buildRoutes.
  assert (H : forall routes,
             Permutation
               (componentsOf (fold_left (addFile srcDir pagesDir) files routes))
               (map (fun file => (srcDir, file)) files ++ componentsOf routes)%list).
  { induction files as [|f files IH]; intros routes; simpl.
    - apply Permutation_refl.
    - eapply Permutation_trans; [apply IH|].
      eapply Permutation_trans;
        [apply Permutation_app_head; unfold addFile; apply place_components|].
      apply Permutation_sym, Permutation_middle. }
  specialize (H []). rewrite app_nil_r in H. exact H.
Qed.

(** ** The collapser, node by node *)

Lemma cleanOne_fields (isChild : bool) (start : Z)
    (routesIndex : list (list string)) (raw : rawRoute) :
  let out := Collapser.cleanOne isChild start routesIndex raw in
  path out = Collapser.cleanPath isChild start routesIndex raw /\
  component out = component raw /\
  chunkName out = chunkName raw /\
  children out
  = match children raw with
    | Some cs => Some (Collapser.cleanChildrenRoutes cs true)
    | None => None
    end /\
  name out
  = match children raw with
    | Some cs =>
        if Collapser.hasEmptyChild cs then None
        else Some (JS.stripSuffix "-index" (name raw))
    | None => Some (JS.stripSuffix "-index" (name raw))
    end.
Proof.
  destruct raw as [n p c ch [cs|]]; cbn [Collapser.cleanOne]; repeat split.
Qed.

Lemma hasEmptyChild_count (raw : rawRoute) (cs : list rawRoute) :
  children raw = Some cs ->
  Collapser.hasEmptyChild cs = (1 <=? emptyChildren raw)%nat.
Proof.
  intros E. unfold emptyChildren. rewrite E. unfold Collapser.hasEmptyChild.
  clear E. induction cs as [|c cs IH]; simpl; [reflexivity|].
  destruct (String.eqb (path c) ""); simpl; [reflexivity|]. apply IH.
Qed.

(** A relation that [cleanOne] establishes between a route and its image
    holds between every node of a forest and the node the collapser makes
    of it, in the order of [allNodes]. *)
Lemma clean_nodes (R : rawRoute -> cleanRoute -> Prop) :
  (forall isChild start routesIndex raw,
      R raw (Collapser.cleanOne isChild start routesIndex raw)) ->
  forall routes isChild,
    Forall2 R (allNodes routes)
      (allNodes (Collapser.cleanChildrenRoutes routes isChild)).
Proof.
  intros HR routes.
  assert (H : forall isChild start routesIndex,
             Forall2 R (allNodes routes)
               (allNodes (map (Collapser.cleanOne isChild start routesIndex) routes))).
  { induction routes as [|n p c ch cs rest IHcs IHrest] using forest_ind;
      intros isChild start routesIndex.
    - constructor.
    - cbn [map]. rewrite !allNodes_cons.
      constructor; [apply HR|].
      apply Forall2_app; [|apply IHrest].
      destruct (cleanOne_fields isChild start routesIndex (mkRoute n p c ch cs))
        as (_ & _ & _ & Hch & _).
      cbv zeta in Hch. rewrite Hch. cbn [children].
      destruct cs as [l|]; [|constructor].
      unfold Collapser.cleanChildrenRoutes.
      destruct (Collapser.scanIndex l) as [s idx]. apply IHcs. }
  intros isChild. unfold Collapser.cleanChildrenRoutes.
  destruct (Collapser.scanIndex routes) as [s idx]. apply H.
Qed.

Lemma clean_components (routes : list rawRoute) (isChild : bool) :
  componentsOf (Collapser.cleanChildrenRoutes routes isChild)
  = componentsOf routes.
Proof.
  unfold componentsOf.
  pose proof (clean_nodes (fun raw out => component out = component raw)
                (fun b s i raw => proj1 (proj2 (cleanOne_fields b s i raw)))
                routes isChild) as H.
  induction H as [|x y l l' Hxy _ IH]; simpl; [reflexivity|].
  rewrite Hxy, IH. reflexivity.
Qed.

Lemma createRoutes_components (files : list string) (srcDir pagesDir : string) :
  Permutation (componentsOf (createRoutes files srcDir pagesDir))
              (map (fun file => (srcDir, file)) files).
Proof.
  unfold createRoutes. rewrite clean_components. apply buildRoutes_components.
Qed.

(** ** Invariants of every sibling list of the forest under construction *)

Section SiblingInvariant.
Variable P : list rawRoute -> Prop.
Variable G : string -> Prop.
Variable K : string -> Prop.
Hypothesis P_nil : P [].
Hypothesis P_paths : forall l l', map path l = map path l' -> P l -> P l'.
Hypothesis P_push :
  forall parent r, P parent -> G (path r) -> P (pushSorted parent r).
Hypothesis G_nil : G "".
Hypothesis G_next :
  forall p key i len, K key -> G p -> G (nextPath p key i len).

Lemma Siblings_nil : Siblings P [].
Proof. constructor; [assumption|]. intros r cs []. Qed.

Lemma Siblings_children (l : list rawRoute) (r : rawRoute)
    (cs : list rawRoute) :
  Siblings P l -> In r l -> children r = Some cs -> Siblings P cs.
Proof. intros H; inversion H; subst; eauto. Qed.

Lemma Siblings_head (l : list rawRoute) : Siblings P l -> P l.
Proof. intros H; inversion H; assumption. Qed.

Lemma place_siblings (src : string * string) (chunk : string)
    (keys : list string) (i len : nat) (cur : pending)
    (parent : list rawRoute) :
  Forall K keys -> G (p_path cur) -> Siblings P parent ->
  Siblings P (place src chunk keys i len cur parent).
Proof.
  revert i cur parent; induction keys as [|key keys IH];
    intros i cur parent HK HG HS.
  - cbn [place]. constructor.
    + apply P_push; [apply Siblings_head, HS|exact HG].
    + intros r cs Hin Hcs.
      apply (Permutation_in _ (pushSorted_perm _ _)) in Hin.
      destruct Hin as [<-|Hin]; [discriminate|].
      eapply Siblings_children; eassumption.
  - cbn [place]. inversion HK as [|? ? Hkey Hkeys]; subst.
    destruct (findByName (nextName (p_name cur) key) parent) as [[k child]|] eqn:F.
    + destruct (findByName_spec _ _ _ _ F) as (_ & l1 & l2 & -> & <- & _).
      rewrite setAt_middle.
      inversion HS as [? HP Hch]; subst.
      constructor.
      * eapply P_paths; [|exact HP].
        rewrite !map_app. cbn [map]. destruct child; reflexivity.
      * intros r cs Hin Hcs.
        apply in_app_or in Hin. destruct Hin as [Hin|[<-|Hin]].
        -- apply (Hch r cs); [apply in_or_app; left; assumption|assumption].
        -- destruct child as [n p c ch cs0]; cbn [setChildren children] in Hcs.
           injection Hcs as <-. apply IH; [exact Hkeys|exact G_nil|].
           destruct cs0 as [cs0|]; [|apply Siblings_nil].
           apply (Hch (mkRoute n p c ch (Some cs0)) cs0);
             [apply in_or_app; right; left; reflexivity|reflexivity].
        -- apply (Hch r cs); [apply in_or_app; right; right; assumption|assumption].
    + apply IH; [exact Hkeys|apply G_next; assumption|exact HS].
Qed.

Lemma buildRoutes_siblings (files : list string) (srcDir pagesDir : string) :
  Forall (fun file => Forall K (fileKeys pagesDir file)) files ->
  Siblings P (buildRoutes files srcDir pagesDir).
Proof.
  unfold buildRoutes. generalize (@nil rawRoute) Siblings_nil.
  induction files as [|f fs IH]; intros routes HS HK; simpl; [assumption|].
  inversion HK; subst.
  apply IH; [|assumption]. unfold addFile.
  apply place_siblings; [assumption|exact G_nil|exact HS].
Qed.
End SiblingInvariant.


(** ** Suffixes of names, and ranks of paths that begin with a token *)

Lemma length_append (s t : string) :
  String.length (s ++ t) = (String.length s + String.length t)%nat.
Proof. induction s as [|c s IH]; simpl; [reflexivity|]. rewrite IH; reflexivity. Qed.

Lemma append_assoc (s t u : string) : (s ++ t) ++ u = s ++ (t ++ u).
Proof. induction s as [|c s IH]; simpl; [reflexivity|]. rewrite IH; reflexivity. Qed.

Lemma append_nil_r (s : string) : s ++ "" = s.
Proof. induction s as [|c s IH]; simpl; [reflexivity|]. rewrite IH; reflexivity. Qed.

Lemma stripSuffix_app (base suf : string) :
  suf <> "" -> JS.stripSuffix suf (base ++ suf) = base.
Proof.
  intros Hs. induction base as [|c base IH].
  - cbn [append]. destruct suf as [|x suf]; [contradiction|].
    cbn [JS.stripSuffix]. rewrite String.eqb_refl. reflexivity.
  - cbn [append JS.stripSuffix].
    destruct (String.eqb_spec (String c (base ++ suf)) suf) as [E|E].
    + exfalso. apply (f_equal String.length) in E.
      cbn [String.length] in E. rewrite length_append in E. lia.
    + rewrite IH. reflexivity.
Qed.

Lemma ranked_dynamic (p : string) :
  Classes.ranked p = true -> Classes.beginsDynamic p = true ->
  Classes.rank p = Some 3%nat \/ Classes.rank p = Some 4%nat.
Proof.
  unfold Classes.ranked, Classes.beginsDynamic, Classes.rank. intros H1 H2.
  destruct (String.eqb_spec p "") as [E|_]; [subst p; vm_compute in H2; discriminate H2|].
  destruct (String.eqb_spec p "/") as [E|_]; [subst p; vm_compute in H2; discriminate H2|].
  destruct (Classes.firstToken p) as [t|]; [|discriminate H2].
  destruct (String.eqb t "*"); [auto|].
  destruct (Classes.headIs ":" t); [auto|discriminate H2].
Qed.

Lemma ranked_static (p : string) :
  Classes.ranked p = true -> Classes.beginsStatic p = true ->
  Classes.rank p = Some 1%nat.
Proof.
  unfold Classes.ranked, Classes.beginsStatic, Classes.rank. intros H1 H2.
  destruct (String.eqb_spec p "") as [E|_]; [subst p; vm_compute in H2; discriminate H2|].
  destruct (Classes.firstToken p) as [t|]; [|discriminate H2].
  destruct (String.eqb p "/"); [discriminate H2|].
  destruct (String.eqb t "*"); [rewrite orb_true_r in H2; discriminate H2|].
  destruct (Classes.headIs ":" t); [discriminate H2|].
  destruct (JS.includes ":" t || Classes.headIs "*" t);
    [discriminate H1|reflexivity].
Qed.

(** ** The flattener *)

Section FlatFacts.
Context {N : Type}.

Lemma flatRoute_skipped (r : route N) (_path : string) (routes : list string) :
  skipped r = true -> Flattener.flatRoute r _path routes = (_path, routes).
Proof.
  destruct r as [n p c ch cs]. unfold skipped. cbn [path Flattener.flatRoute].
  intros H. rewrite <- negb_orb, H. reflexivity.
Qed.

Lemma flatRoute_branch (n : N) (p : string) (c : string * string)
    (ch : option string) (l : list (route N)) (_path : string)
    (routes : list string) :
  JS.includes ":" p || JS.includes "*" p = false ->
  Flattener.flatRoute (mkRoute n p c ch (Some l)) _path routes
  = (_path,
     Flattener.flatRoutes l (_path ++ p ++ "/")
       (if String.eqb _path "" && String.eqb p "/"
        then (routes ++ ["/"])%list else routes)).
Proof.
  intros H. cbn [Flattener.flatRoute]. rewrite <- negb_orb, H. reflexivity.
Qed.

Lemma flatRoute_leaf (n : N) (p : string) (c : string * string)
    (ch : option string) (_path : string) (routes : list string) :
  JS.includes ":" p || JS.includes "*" p = false ->
  Flattener.flatRoute (mkRoute n p c ch None) _path routes
  = (JS.normalizeSlashes _path,
     app routes
      [(if String.eqb p "" && JS.lastIs "/" (JS.normalizeSlashes _path)
        then JS.dropLast (JS.normalizeSlashes _path)
        else JS.normalizeSlashes _path) ++ p]).
Proof.
  intros H. cbn [Flattener.flatRoute]. rewrite <- negb_orb, H. reflexivity.
Qed.

Lemma normalizeSlashes_empty (s : string) :
  String.eqb (JS.normalizeSlashes s) "" = String.eqb s "".
Proof.
  unfold JS.normalizeSlashes. destruct (JS.allSlashes s) eqn:E; [|reflexivity].
  destruct s; [discriminate E|reflexivity].
Qed.

Lemma append_slash_nonempty (s p : string) :
  String.eqb (s ++ p ++ "/") "" = false.
Proof.
  destruct s; simpl; [|reflexivity]. destruct p; reflexivity.
Qed.

Let extra (_path : string) (k : nat) : nat :=
  if String.eqb _path "" then k else 0%nat.

Lemma flatRoute_count (r : route N) :
  forall _path routes,
    String.eqb (fst (Flattener.flatRoute r _path routes)) ""
    = String.eqb _path "" /\
    length (snd (Flattener.flatRoute r _path routes))
    = (length routes + reachedLeaves r
       + extra _path (if isRootBranch r then 1 else 0))%nat.
Proof.
  induction r as [n p c ch cs IH] using route_nested_ind.
  intros _path routes. unfold isRootBranch, skipped, extra.
  cbn [path children reachedLeaves].
  destruct (JS.includes ":" p || JS.includes "*" p) eqn:Hs.
  - rewrite flatRoute_skipped by exact Hs. cbn [fst snd negb andb].
    split; [reflexivity|]. destruct (String.eqb _path ""); lia.
  - cbn [negb andb]. destruct cs as [l|].
    + rewrite flatRoute_branch by exact Hs. cbn [fst snd].
      split; [reflexivity|].
      assert (G : forall _p acc,
                 String.eqb _p "" = false ->
                 length (Flattener.flatRoutes l _p acc)
                 = (length acc + list_sum (map reachedLeaves l))%nat).
      { clear - IH. induction IH as [|x l Hx _ IHl]; intros _p acc Hp.
        - simpl. lia.
        - cbn [Flattener.flatRoutes map list_sum].
          destruct (Hx _p acc) as [H1 H2].
          destruct (Flattener.flatRoute x _p acc) as [_p' acc'].
          cbn [fst snd] in H1, H2.
          rewrite IHl by (rewrite H1; exact Hp).
          rewrite H2. unfold extra. rewrite Hp. simpl list_sum. lia. }
      rewrite G by apply append_slash_nonempty.
      destruct (String.eqb _path ""); destruct (String.eqb p "/");
        cbn [andb]; rewrite ?length_app; simpl; lia.
    + rewrite flatRoute_leaf by exact Hs. cbn [fst snd].
      split; [apply normalizeSlashes_empty|].
      rewrite length_app. destruct (String.eqb _path ""); simpl; lia.
Qed.

Lemma flatRoutes_count (router : list (route N)) (_path : string)
    (routes : list string) :
  length (Flattener.flatRoutes router _path routes)
  = (length routes + list_sum (map reachedLeaves router)
     + extra _path (rootBranches router))%nat.
Proof.
  revert _path routes; induction router as [|r rest IH]; intros _path routes.
  - unfold extra, rootBranches. simpl. destruct (String.eqb _path ""); lia.
  - cbn [Flattener.flatRoutes map list_sum].
    destruct (flatRoute_count r _path routes) as [H1 H2].
    destruct (Flattener.flatRoute r _path routes) as [_p' acc'].
    cbn [fst snd] in H1, H2. rewrite IH, H2.
    unfold extra, rootBranches. rewrite H1. cbn [filter].
    simpl list_sum.
    destruct (String.eqb _path ""); destruct (isRootBranch r); simpl; lia.
Qed.
End FlatFacts.

(** ** One key of the loop of [createRoutes] *)

Lemma place_not_found (src : string * string) (chunk key : string)
    (keys : list string) (i len : nat) (cur : pending)
    (parent : list rawRoute) :
  Forall (fun c => name c <> nextName (p_name cur) key) parent ->
  place src chunk (key :: keys) i len cur parent
  = place src chunk keys (S i) len
      (mkPending (nextName (p_name cur) key)
         (nextPath (p_path cur) key i len) (Some chunk))
      parent.
Proof.
  intros Hn. cbn [place].
  rewrite (proj2 (findByName_none _ parent) Hn). reflexivity.
Qed.

(** ** The comparator on two token lists, in full *)

Lemma nth_error_nth_default (l : list string) (m : nat) :
  (m < length l)%nat -> nth_error l m = Some (nth m l "").
Proof. intros H. apply nth_error_nth'. exact H. Qed.

(** The loop passes the positions where the classes agree, as long as the
    last token of [_b] is not reached. *)
Lemma tokenLoop_ties (k : nat) :
  forall (rest _b : list string) (i : nat),
    (k <= length rest)%nat -> (i + k < length _b)%nat ->
    (forall m, (m < k)%nat ->
               Orderer.tokenClass (nth m rest "")
               = Orderer.tokenClass (nth (i + m) _b "")) ->
    Orderer.tokenLoop rest _b i 0%Z
    = Orderer.tokenLoop (skipn k rest) _b (i + k) 0%Z.
Proof.
  induction k as [|k IH]; intros rest _b i Hk Hi Hcl.
  - rewrite Nat.add_0_r. reflexivity.
  - destruct rest as [|a rest]; [simpl in Hk; lia|].
    rewrite (tokenLoop_step a (nth i _b "")) by (apply nth_error_nth_default; lia).
    replace (Z.of_nat i =? Z.of_nat (length _b) - 1)%Z with false
      by (symmetry; apply Z.eqb_neq; lia).
    cbn [andb].
    pose proof (Hcl 0%nat ltac:(lia)) as H0. rewrite Nat.add_0_r in H0.
    cbn [nth] in H0. rewrite H0, Z.sub_diag.
    cbn [skipn]. replace (i + S k)%nat with (S i + k)%nat by lia.
    apply IH; [simpl in Hk; lia|lia|].
    intros m Hm. specialize (Hcl (S m) ltac:(lia)). cbn [nth] in Hcl.
    rewrite Hcl. f_equal. f_equal. lia.
Qed.

Lemma skipn_nth_cons (l : list string) (k : nat) :
  (k < length l)%nat -> skipn k l = nth k l "" :: skipn (S k) l.
Proof.
  revert k; induction l as [|x l IH]; intros k Hk; [simpl in Hk; lia|].
  destruct k as [|k]; [reflexivity|].
  cbn [skipn nth]. rewrite IH by (simpl in Hk; lia). reflexivity.
Qed.


(** When the classes agree up to the last token of [_b], that position
    decides: [_a] goes first only when its token there is the catch-all. *)
Lemma compareTokens_prefix (_a _b : list string) :
  (0 < length _b)%nat -> (length _b <= length _a)%nat ->
  (forall m, (m < length _b)%nat ->
             Orderer.tokenClass (nth m _a "") = Orderer.tokenClass (nth m _b "")) ->
  Orderer.compareTokens _a _b
  = Some (if String.eqb (nth (length _b - 1) _a "") "*" then (-1)%Z else 1%Z).
Proof.
  intros H0 Hlen Hcl.
  set (k := (length _b - 1)%nat).
  set (res := if String.eqb (nth k _a "") "*" then (-1)%Z else 1%Z).
  assert (Hres : res <> 0%Z) by (unfold res; destruct (String.eqb _ _); lia).
  destruct (tokenLoop_done (skipn (S k) _a) _b (S k) res Hres) as [i' Hi'].
  apply (compareTokens_done _ _ i'); [|exact Hres].
  rewrite (tokenLoop_ties k _a _b 0)
    by (unfold k; try lia; intros m Hm; apply Hcl; lia).
  rewrite (skipn_nth_cons _a k) by (unfold k; lia). cbn [Nat.add].
  rewrite (tokenLoop_step _ (nth k _b ""))
    by (apply nth_error_nth_default; unfold k; lia).
  replace (Z.of_nat k =? Z.of_nat (length _b) - 1)%Z with true
    by (symmetry; apply Z.eqb_eq; unfold k; lia).
  rewrite (Hcl k) by (unfold k; lia). rewrite Z.sub_diag.
  cbn [Z.eqb andb]. exact Hi'.
Qed.


(** ** Paths built from plain keys have a rank *)

Lemma includes_cons (c x : ascii) (s : string) :
  JS.includes c (String x s) = Ascii.eqb x c || JS.includes c s.
Proof.
  unfold JS.includes. cbn [JS.indexOf].
  destruct (Ascii.eqb x c); [reflexivity|]. cbn [orb].
  destruct (JS.indexOf c s <? 0)%Z eqn:E.
  - apply Z.ltb_lt in E. symmetry. apply Z.leb_gt. lia.
  - apply Z.ltb_ge in E.
    transitivity true; [apply Z.leb_le; lia|symmetry; apply Z.leb_le; lia].
Qed.

Lemma includes_nil (c : ascii) : JS.includes c "" = false.
Proof. reflexivity. Qed.

Lemma includes_append (c : ascii) (s t : string) :
  JS.includes c (s ++ t) = JS.includes c s || JS.includes c t.
Proof.
  induction s as [|x s IH]; [reflexivity|].
  cbn [append]. rewrite !includes_cons, IH, orb_assoc. reflexivity.
Qed.

Lemma split_cons_sep (s : string) :
  JS.split "/" (String "/" s) = "" :: JS.split "/" s.
Proof. reflexivity. Qed.

Lemma split_plain (t : string) :
  JS.includes "/" t = false -> JS.split "/" t = [t].
Proof.
  induction t as [|x t IH]; [reflexivity|].
  rewrite includes_cons. intros H. apply orb_false_iff in H as [Hx Ht].
  cbn [JS.split]. rewrite Hx, (IH Ht). reflexivity.
Qed.

Lemma split_no_sep (s t : string) :
  In t (JS.split "/" s) -> JS.includes "/" t = false.
Proof.
  revert t; induction s as [|x s IH]; intros t; cbn [JS.split].
  - intros [<-|[]]. reflexivity.
  - destruct (Ascii.eqb x "/") eqn:Hx.
    + intros [<-|H]; [reflexivity|apply IH, H].
    + pose proof (split_nonempty "/" s) as Hne.
      destruct (JS.split "/" s) as [|t0 ts]; [contradiction|].
      intros [<-|H].
      * rewrite includes_cons, Hx. apply IH. left; reflexivity.
      * apply IH. right; exact H.
Qed.

Lemma firstToken_append (p t x : string) :
  Classes.firstToken p = Some t ->
  Classes.firstToken (p ++ String "/" x) = Some t.
Proof.
  intros H. destruct (firstToken_split _ _ H) as (p' & rest & -> & Hs).
  unfold Classes.firstToken. cbn [append]. rewrite split_cons_sep.
  assert (G : exists rest', JS.split "/" (p' ++ String "/" x) = t :: rest').
  { clear H. revert t rest Hs. induction p' as [|c p' IH]; intros t rest Hs.
    - cbn [JS.split] in Hs. injection Hs as <- _.
      cbn [append]. rewrite split_cons_sep. eexists; reflexivity.
    - cbn [append JS.split] in *. destruct (Ascii.eqb c "/").
      + injection Hs as <- _. eexists; reflexivity.
      + pose proof (split_nonempty "/" p') as Hne.
        destruct (JS.split "/" p') as [|t0 ts] eqn:E; [contradiction|].
        injection Hs as <- _.
        destruct (IH t0 ts eq_refl) as [rest' ->]. eexists; reflexivity. }
  destruct G as [rest' ->]. reflexivity.
Qed.

Lemma rank_of_token (x : string) :
  tokenOk x ->
  Classes.ranked (String "/" x) = true /\
  Classes.firstToken (String "/" x) = Some x.
Proof.
  intros [Hs Hx].
  assert (Hf : Classes.firstToken (String "/" x) = Some x).
  { unfold Classes.firstToken. rewrite split_cons_sep, (split_plain _ Hs).
    reflexivity. }
  split; [|exact Hf]. unfold Classes.ranked, Classes.rank. rewrite Hf.
  change (String.eqb (String "/" x) "") with false. cbv iota.
  destruct (String.eqb (String "/" x) "/"); [reflexivity|].
  destruct (String.eqb_spec x "*") as [E|E]; [reflexivity|].
  destruct Hx as [Hx|[Hx|[Hx1 Hx2]]]; [contradiction| |].
  - rewrite Hx. reflexivity.
  - destruct (Classes.headIs ":" x); [reflexivity|].
    rewrite Hx1, Hx2. reflexivity.
Qed.

Lemma goodPath_append (p x : string) :
  p <> "" -> goodPath p -> goodPath (p ++ String "/" x).
Proof.
  intros Hp [E|[Hr Hf]]; [contradiction|]. right.
  destruct (Classes.firstToken p) as [t|] eqn:Ht; [|contradiction].
  pose proof (firstToken_append p t x Ht) as Ht'.
  split; [|rewrite Ht'; discriminate].
  unfold Classes.ranked, Classes.rank in *. rewrite Ht'.
  destruct p as [|c p]; [contradiction|].
  assert (E1 : String.eqb (String c p ++ String "/" x) "" = false) by reflexivity.
  assert (E2 : String.eqb (String c p ++ String "/" x) "/" = false).
  { apply String.eqb_neq. intros E. apply (f_equal String.length) in E.
    rewrite length_append in E. simpl in E. lia. }
  rewrite E1, E2.
  change (String.eqb (String c p) "") with false in Hr. cbv iota in Hr.
  destruct (String.eqb_spec (String c p) "/") as [E|E].
  - rewrite E in Ht. injection Ht as <-. reflexivity.
  - rewrite Ht in Hr. exact Hr.
Qed.

Lemma headIs_indexOf (c : ascii) (key : string) :
  (JS.indexOf c key =? 0)%Z = Classes.headIs c key.
Proof.
  destruct key as [|x key]; [reflexivity|]. cbn [JS.indexOf Classes.headIs].
  destruct (Ascii.eqb x c); [reflexivity|].
  destruct (JS.indexOf c key <? 0)%Z eqn:E; [reflexivity|].
  apply Z.ltb_ge in E. apply Z.eqb_neq. lia.
Qed.

Lemma nextPath_good (p key : string) (i len : nat) :
  JS.includes "/" key = false -> Classes.plainKey key = true ->
  goodPath p -> goodPath (nextPath p key i len).
Proof.
  intros Hs Hk Hp.
  assert (Hx : nextPath p key i len = p \/
               exists x, nextPath p key i len = p ++ String "/" x /\ tokenOk x).
  { unfold nextPath.
    destruct (String.eqb key "index" && (i + 1 =? len)%nat).
    - destruct (0 <? i)%nat.
      + left. apply append_nil_r.
      + right. exists "". split; [reflexivity|].
        split; [reflexivity|]. right; right. split; reflexivity.
    - right. rewrite headIs_indexOf.
      destruct (String.eqb_spec key "_") as [->|Hne].
      + exists "*". split; [reflexivity|]. split; [reflexivity|]. left; reflexivity.
      + cbn [negb andb].
        destruct key as [|c key']; [|destruct (Ascii.eqb_spec c "_") as [->|Hc]].
        * exists "". split; [reflexivity|].
          split; [reflexivity|]. right; right. split; reflexivity.
        * exists (String ":" key' ++ "?").
          cbn [Classes.headIs JS.replace]. rewrite Ascii.eqb_refl.
          split; [cbn [append]; rewrite !append_assoc; reflexivity|].
          split; [|right; left; reflexivity].
          rewrite includes_cons in Hs. apply orb_false_iff in Hs as [_ Hs].
          cbn [append]. rewrite includes_cons, includes_append, Hs. reflexivity.
        * exists (String c key').
          assert (Hh : Classes.headIs "_" (String c key') = false).
          { cbn [Classes.headIs]. destruct (Ascii.eqb_spec c "_"); congruence. }
          rewrite Hh. split; [reflexivity|]. split; [exact Hs|].
          right; right. unfold Classes.plainKey in Hk. rewrite Hh in Hk.
          cbn [orb] in Hk. apply andb_true_iff in Hk as [H1 H2].
          apply negb_true_iff in H1, H2. split; assumption. }
  destruct Hx as [->|(x & -> & Hx)]; [exact Hp|].
  destruct (String.eqb_spec p "") as [->|Hne].
  - right. cbn [append]. destruct (rank_of_token x Hx) as [H1 H2].
    split; [exact H1|rewrite H2; discriminate].
  - apply goodPath_append; assumption.
Qed.

Lemma goodPath_ranked (p : string) : goodPath p -> Classes.ranked p = true.
Proof. intros [->|[H _]]; [reflexivity|exact H]. Qed.

(** ** Rank order in every sibling list of the forest *)

Lemma Siblings_impl {N : Type} (P Q : list (route N) -> Prop)
    (l : list (route N)) :
  (forall l', P l' -> Q l') -> Siblings P l -> Siblings Q l.
Proof.
  intros HPQ. induction 1 as [l HP _ IH].
  constructor; [apply HPQ, HP|exact IH].
Qed.

Lemma allRanked_paths {N : Type} (l : list (route N)) :
  Classes.allRanked l = forallb Classes.ranked (map path l).
Proof.
  unfold Classes.allRanked. induction l as [|x l IH]; simpl; [reflexivity|].
  rewrite IH. reflexivity.
Qed.

Lemma rankOrdered_paths {N : Type} (l l' : list (route N)) :
  map path l = map path l' -> rankOrdered l -> rankOrdered l'.
Proof.
  intros E H i j a b ka kb Hi Hj Ha Hb.
  assert (Hi' : nth_error (map path l) i = Some (path a))
    by (rewrite E; apply map_nth_error, Hi).
  assert (Hj' : nth_error (map path l) j = Some (path b))
    by (rewrite E; apply map_nth_error, Hj).
  rewrite nth_error_map in Hi', Hj'.
  destruct (nth_error l i) as [a'|] eqn:Ea; [|discriminate].
  destruct (nth_error l j) as [b'|] eqn:Eb; [|discriminate].
  injection Hi' as Hpa. injection Hj' as Hpb.
  apply (H i j a' b' ka kb Ea Eb); congruence.
Qed.

Lemma allRanked_perm {N : Type} (l l' : list (route N)) :
  Permutation l l' -> Classes.allRanked l = true -> Classes.allRanked l' = true.
Proof.
  intros Hp H. unfold Classes.allRanked in *.
  apply forallb_forall. intros x Hx.
  apply (proj1 (forallb_forall _ _) H).
  apply (Permutation_in _ (Permutation_sym Hp) Hx).
Qed.

Lemma plainFiles_keys (pagesDir : string) (files : list string) :
  plainFiles pagesDir files = true ->
  Forall (fun file =>
            Forall (fun key => JS.includes "/" key = false
                               /\ Classes.plainKey key = true)
              (fileKeys pagesDir file)) files.
Proof.
  intros H. apply Forall_forall. intros f Hf.
  apply Forall_forall. intros key Hkey. split.
  - unfold fileKeys in Hkey.
    apply (split_no_sep
             (JS.collapseSlashes (JS.stripExt (JS.replacePrefix pagesDir f)))).
    destruct (JS.split "/" _) as [|t ts]; [destruct Hkey|right; exact Hkey].
  - unfold plainFiles in H.
    pose proof (proj1 (forallb_forall _ _) H f Hf) as Hk.
    exact (proj1 (forallb_forall _ _) Hk key Hkey).
Qed.

Lemma rankOrdered_rootBetween {N : Type} (l : list (route N)) :
  Classes.allRanked l = true -> rankOrdered l -> Stated.rootBetween l.
Proof.
  intros HR HO i j a b Hi Hj Ha.
  assert (Rb : Classes.ranked (path b) = true).
  { apply nth_error_In in Hj. exact (proj1 (forallb_forall _ _) HR b Hj). }
  assert (Ra : Classes.rank (path a) = Some 2%nat) by (rewrite Ha; reflexivity).
  split; intros Hb.
  - destruct (ranked_dynamic _ Rb Hb) as [Kb|Kb];
      apply (HO i j a b _ _ Hi Hj Ra Kb); lia.
  - pose proof (ranked_static _ Rb Hb) as Kb.
    apply (HO j i b a _ _ Hj Hi Kb Ra); lia.
Qed.

(** ** The collapser on a sibling list without index names *)

Lemma concat_cons2 (sep x y : string) (l : list string) :
  String.concat sep (x :: y :: l) = x ++ sep ++ String.concat sep (y :: l).
Proof. reflexivity. Qed.

Lemma join_split (q : string) : JS.join "/" (JS.split "/" q) = q.
Proof.
  unfold JS.join. induction q as [|c q IH]; [reflexivity|].
  cbn [JS.split]. pose proof (split_nonempty "/" q) as Hne.
  destruct (Ascii.eqb_spec c "/") as [->|Hc].
  - destruct (JS.split "/" q) as [|t ts]; [contradiction|].
    rewrite concat_cons2, IH. reflexivity.
  - destruct (JS.split "/" q) as [|t ts]; [contradiction|].
    destruct ts as [|t' ts].
    + cbn [String.concat] in *. rewrite IH. reflexivity.
    + rewrite concat_cons2 in *. rewrite <- IH. reflexivity.
Qed.

Lemma scanIndex_no_index (routes : list rawRoute) :
  Forall (fun r => Collapser.isIndexName (name r) = false) routes ->
  Collapser.scanIndex routes = ((-1)%Z, []).
Proof.
  intros H. unfold Collapser.scanIndex.
  generalize ((-1)%Z, @nil (list string)).
  induction H as [|r routes Hr _ IH]; intros acc; simpl; [reflexivity|].
  replace (Collapser.scanStep acc r) with acc; [apply IH|].
  unfold Collapser.scanStep. destruct acc as [start idx].
  rewrite Hr. reflexivity.
Qed.

Lemma cleanPath_no_index (raw : rawRoute) (start : Z) (q : string) :
  path raw = String "/" q ->
  Collapser.cleanPath false start [] raw = path raw.
Proof.
  intros E. unfold Collapser.cleanPath. rewrite E.
  destruct (-1 <? JS.indexOf "?" (String "/" q))%Z; [|reflexivity].
  unfold Collapser.fixOptional. rewrite split_cons_sep.
  cbn [tl fold_left]. rewrite join_split. reflexivity.
Qed.

Lemma clean_root_no_index (routes : list rawRoute) :
  Forall (fun r => Collapser.isIndexName (name r) = false) routes ->
  Forall2 (fun raw out => forall q, path raw = String "/" q ->
                                    path out = path raw)
    routes (Collapser.cleanChildrenRoutes routes false).
Proof.
  intros H. unfold Collapser.cleanChildrenRoutes.
  rewrite (scanIndex_no_index routes H). clear H.
  induction routes as [|r routes IH]; cbn [map]; constructor; [|exact IH].
  intros q E.
  destruct (cleanOne_fields false (-1) [] r) as (Hp & _).
  cbv zeta in Hp. rewrite Hp. apply (cleanPath_no_index r _ q E).
Qed.

(** ** What the collapser keeps of every node *)


(** * The order of siblings on every conforming engine *)


(** The builder above is the builder of module [Engine] run with V8's
    insertion sort. *)
Lemma place_insertion (src : string * string) (chunk : string)
    (keys : list string) (i len : nat) (cur : pending)
    (parent : list rawRoute) :
  Engine.place (@ArraySort.sort rawRoute) src chunk keys i len cur parent
  = place src chunk keys i len cur parent.
Proof.
  revert i cur parent; induction keys as [|key keys IH]; intros i cur parent.
  - reflexivity.
  - cbn [Engine.place place].
    destruct (findByName (nextName (p_name cur) key) parent) as [[k child]|].
    + rewrite IH. reflexivity.
    + apply IH.
Qed.

Lemma buildRoutes_insertion (files : list string) (srcDir pagesDir : string) :
  Engine.buildRoutes (@ArraySort.sort rawRoute) files srcDir pagesDir
  = buildRoutes files srcDir pagesDir.
Proof.
  unfold Engine.buildRoutes, buildRoutes. generalize (@nil rawRoute).
  induction files as [|f fs IH]; intros routes; [reflexivity|].
  cbn [fold_left]. unfold Engine.addFile at 2, addFile at 2.
  rewrite place_insertion. apply IH.
Qed.

Section EngineFacts.
Variable sort : Engine.sorter.
Hypothesis sort_conforms : Engine.conforms sort.

Lemma engine_pushSorted_perm (parent : list rawRoute) (r : rawRoute) :
  Permutation (Engine.pushSorted sort parent r) (r :: parent).
Proof.
  unfold Engine.pushSorted.
  eapply Permutation_trans; [apply (proj1 sort_conforms)|].
  apply Permutation_sym, Permutation_cons_append.
Qed.

Let rankKey (r : rawRoute) : nat :=
  match Classes.rank (path r) with
  | Some k => k
  | None => 0%nat
  end.


(** On ranked paths the comparator tells the ranks apart. *)
Lemma ranks_separated (l : list rawRoute) :
  Classes.allRanked l = true ->
  Engine.separates Orderer.compareRoutes rankKey l.
Proof.
  intros HR a b Ha Hb Hlt. unfold rankKey in Hlt.
  pose proof (proj1 (forallb_forall _ _) HR a Ha) as Qa.
  pose proof (proj1 (forallb_forall _ _) HR b Hb) as Qb.
  unfold Classes.ranked in Qa, Qb.
  destruct (Classes.rank (path a)) as [ka|] eqn:Ea; [|discriminate].
  destruct (Classes.rank (path b)) as [kb|] eqn:Eb; [|discriminate].
  exact (rank_lt_compare _ _ _ _ Ea Eb Hlt).
Qed.


Lemma engine_rank_order (l : list rawRoute) :
  Classes.allRanked l = true ->
  rankOrdered (sort Orderer.compareRoutes l).
Proof.
  intros HR i j a b ka kb Hi Hj Ha Hb Hlt.
  apply (proj2 sort_conforms Orderer.compareRoutes rankKey l
           (ranks_separated l HR) i j a b Hi Hj).
  unfold rankKey. rewrite Ha, Hb. exact Hlt.
Qed.


Lemma engine_pushSorted_ranked (parent : list rawRoute) (r : rawRoute) :
  Classes.allRanked parent = true -> Classes.ranked (path r) = true ->
  Classes.allRanked (Engine.pushSorted sort parent r) = true /\
  rankOrdered (Engine.pushSorted sort parent r).
Proof.
  intros Hp Hr.
  assert (H : Classes.allRanked (parent ++ [r])%list = true).
  { unfold Classes.allRanked in *. rewrite forallb_app, Hp. simpl.
    rewrite Hr. reflexivity. }
  split.
  - unfold Engine.pushSorted.
    apply (allRanked_perm _ _
             (Permutation_sym (proj1 sort_conforms _ _)) H).
  - apply engine_rank_order, H.
Qed.

(** Invariants of every sibling list, as for the builder above. *)
Section EngineInvariant.
Variable P : list rawRoute -> Prop.
Variable G : string -> Prop.
Variable K : string -> Prop.
Hypothesis P_nil : P [].
Hypothesis P_paths : forall l l', map path l = map path l' -> P l -> P l'.
Hypothesis P_push :
  forall parent r, P parent -> G (path r) -> P (Engine.pushSorted sort parent r).
Hypothesis G_nil : G "".
Hypothesis G_next :
  forall p key i len, K key -> G p -> G (nextPath p key i len).

Lemma engine_place_siblings (src : string * string) (chunk : string)
    (keys : list string) (i len : nat) (cur : pending)
    (parent : list rawRoute) :
  Forall K keys -> G (p_path cur) -> Siblings P parent ->
  Siblings P (Engine.place sort src chunk keys i len cur parent).
Proof.
  revert i cur parent; induction keys as [|key keys IH];
    intros i cur parent HK HG HS.
  - cbn [Engine.place]. constructor.
    + apply P_push; [inversion HS; assumption|exact HG].
    + intros r cs Hin Hcs.
      apply (Permutation_in _ (engine_pushSorted_perm _ _)) in Hin.
      destruct Hin as [<-|Hin]; [discriminate|].
      inversion HS; subst; eauto.
  - cbn [Engine.place]. inversion HK as [|? ? Hkey Hkeys]; subst.
    destruct (findByName (nextName (p_name cur) key) parent) as [[k child]|] eqn:F.
    + destruct (findByName_spec _ _ _ _ F) as (_ & l1 & l2 & -> & <- & _).
      rewrite setAt_middle.
      inversion HS as [? HP Hch]; subst.
      constructor.
      * eapply P_paths; [|exact HP].
        rewrite !map_app. cbn [map]. destruct child; reflexivity.
      * intros r cs Hin Hcs.
        apply in_app_or in Hin. destruct Hin as [Hin|[<-|Hin]].
        -- apply (Hch r cs); [apply in_or_app; left; assumption|assumption].
        -- destruct child as [n p c ch cs0]; cbn [setChildren children] in Hcs.
           injection Hcs as <-. apply IH; [exact Hkeys|exact G_nil|].
           destruct cs0 as [cs0|].
           ++ apply (Hch (mkRoute n p c ch (Some cs0)) cs0);
                [apply in_or_app; right; left; reflexivity|reflexivity].
           ++ constructor; [exact P_nil|]. intros r' cs' [].
        -- apply (Hch r cs); [apply in_or_app; right; right; assumption|assumption].
    + apply IH; [exact Hkeys|apply G_next; assumption|exact HS].
Qed.

Lemma engine_buildRoutes_siblings (files : list string)
    (srcDir pagesDir : string) :
  Forall (fun file => Forall K (fileKeys pagesDir file)) files ->
  Siblings P (Engine.buildRoutes sort files srcDir pagesDir).
Proof.
  unfold Engine.buildRoutes.
  assert (H0 : Siblings P []) by (constructor; [exact P_nil|intros r cs []]).
  revert H0. generalize (@nil rawRoute).
  induction files as [|f fs IH]; intros routes HS HK; simpl; [assumption|].
  inversion HK; subst.
  apply IH; [|assumption]. unfold Engine.addFile.
  apply engine_place_siblings; [assumption|exact G_nil|exact HS].
Qed.
End EngineInvariant.

Lemma engine_buildRoutes_rankOrdered (files : list string)
    (srcDir pagesDir : string) :
  plainFiles pagesDir files = true ->
  Siblings (fun l => Classes.allRanked l = true /\ rankOrdered l)
    (Engine.buildRoutes sort files srcDir pagesDir).
Proof.
  intros H.
  apply (engine_buildRoutes_siblings
           (fun l => Classes.allRanked l = true /\ rankOrdered l)
           goodPath
           (fun key => JS.includes "/" key = false
                       /\ Classes.plainKey key = true)).
  - split; [reflexivity|]. intros i j a b ka kb Hi. destruct i; discriminate.
  - intros l l' E [H1 H2]. split.
    + rewrite allRanked_paths, <- E, <- allRanked_paths. exact H1.
    + exact (rankOrdered_paths l l' E H2).
  - intros parent r [H1 _] Hg.
    apply engine_pushSorted_ranked; [exact H1|apply goodPath_ranked, Hg].
  - left; reflexivity.
  - intros p key i len [Hs Hk] Hp. apply nextPath_good; assumption.
  - apply plainFiles_keys, H.
Qed.

End EngineFacts.

(** * The collapser, loop by loop *)

Lemma endsWith_app (s suf : string) : JS.endsWith suf (s ++ suf) = true.
Proof.
  induction s as [|c s IH]; cbn [append].
  - destruct suf; cbn [JS.endsWith]; rewrite String.eqb_refl; reflexivity.
  - cbn [JS.endsWith]. destruct (String.eqb (String c (s ++ suf)) suf);
      [reflexivity|exact IH].
Qed.

Lemma endsWith_inv (suf s : string) :
  JS.endsWith suf s = true -> exists base, s = base ++ suf.
Proof.
  induction s as [|c s IH].
  - cbn [JS.endsWith]. destruct (String.eqb_spec "" suf) as [<-|]; [|discriminate].
    intros _. exists "". reflexivity.
  - cbn [JS.endsWith].
    destruct (String.eqb_spec (String c s) suf) as [<-|].
    + intros _. exists "". reflexivity.
    + intros H. destruct (IH H) as [base ->]. exists (String c base). reflexivity.
Qed.

(** The siblings that count as index siblings: the name is [index] or ends
    in [-index]. *)
Lemma isIndexName_iff (n : string) :
  Collapser.isIndexName n = true <->
  n = "index" \/ exists base, n = base ++ "-index".
Proof.
  unfold Collapser.isIndexName. rewrite orb_true_iff. split.
  - intros [H|H].
    + right. apply endsWith_inv, H.
    + left. apply String.eqb_eq, H.
  - intros [->|[base ->]].
    + right. reflexivity.
    + left. apply endsWith_app.
Qed.

Lemma split_app_sep (sep : ascii) (s t : string) :
  JS.split sep (s ++ String sep t) = (JS.split sep s ++ JS.split sep t)%list.
Proof.
  induction s as [|c s IH]; cbn [append JS.split].
  - rewrite Ascii.eqb_refl. reflexivity.
  - destruct (Ascii.eqb c sep).
    + rewrite IH. reflexivity.
    + rewrite IH. pose proof (split_nonempty sep s) as Hne.
      destruct (JS.split sep s) as [|t0 ts]; [contradiction|reflexivity].
Qed.

Lemma arrayIndexOf_in (x : string) (l : list string) :
  In x l -> (0 <= JS.arrayIndexOf x l)%Z.
Proof.
  induction l as [|y l IH]; [intros []|].
  intros H. cbn [JS.arrayIndexOf].
  destruct (String.eqb_spec y x) as [E|E]; [lia|].
  destruct H as [H|H]; [contradiction|]. specialize (IH H).
  destruct (Z.ltb_spec (JS.arrayIndexOf x l) 0); lia.
Qed.

Lemma position_index_name (n : string) :
  Collapser.isIndexName n = true ->
  (0 <= Anchors.position (JS.split "-" n))%Z.
Proof.
  intros H. apply isIndexName_iff in H. unfold Anchors.position.
  apply arrayIndexOf_in. destruct H as [->|[base ->]].
  - left. reflexivity.
  - change (base ++ "-index") with (base ++ String "-" "index").
    rewrite split_app_sep. apply in_or_app. right. left. reflexivity.
Qed.

(** The least element of a list of positions, [-1] for the empty list. *)
Lemma least_snoc (xs : list Z) (x s : Z) :
  fold_left Z.min (xs ++ [s])%list x = Z.min (fold_left Z.min xs x) s.
Proof. rewrite fold_left_app. reflexivity. Qed.

Lemma least_nonneg (xs : list Z) (x : Z) :
  (0 <= x)%Z -> Forall (fun y => 0 <= y)%Z xs ->
  (0 <= fold_left Z.min xs x)%Z.
Proof.
  revert x; induction xs as [|y xs IH]; intros x Hx Hxs; [exact Hx|].
  inversion Hxs; subst. cbn [fold_left]. apply IH; [lia|assumption].
Qed.

Lemma scanIndex_from (routes : list rawRoute) (idx0 : list (list string)) :
  Forall (fun r => 0 <= Anchors.position r)%Z idx0 ->
  fold_left Collapser.scanStep routes
    (match map Anchors.position idx0 with
     | [] => (-1)%Z
     | x :: xs => fold_left Z.min xs x
     end, idx0)
  = (match map Anchors.position (idx0 ++ Anchors.indexSiblings routes) with
     | [] => (-1)%Z
     | x :: xs => fold_left Z.min xs x
     end, (idx0 ++ Anchors.indexSiblings routes)%list).
Proof.
  revert idx0; induction routes as [|r routes IH]; intros idx0 H0.
  - unfold Anchors.indexSiblings. cbn [filter map fold_left].
    rewrite app_nil_r. reflexivity.
  - cbn [fold_left]. unfold Collapser.scanStep at 2.
    unfold Anchors.indexSiblings. cbn [filter].
    destruct (Collapser.isIndexName (name r)) eqn:Hr.
    + cbn [map].
      pose proof (position_index_name _ Hr) as Hs.
      fold (Anchors.position (JS.split "-" (name r))).
      set (s := Anchors.position (JS.split "-" (name r))) in *.
      set (res := JS.split "-" (name r)) in *.
      assert (E : (if (match map Anchors.position idx0 with
                       | [] => (-1)%Z
                       | x :: xs => fold_left Z.min xs x
                       end =? -1)%Z
                      || (s <? match map Anchors.position idx0 with
                               | [] => (-1)%Z
                               | x :: xs => fold_left Z.min xs x
                               end)%Z
                   then s
                   else match map Anchors.position idx0 with
                        | [] => (-1)%Z
                        | x :: xs => fold_left Z.min xs x
                        end)
                  = match map Anchors.position (idx0 ++ [res]) with
                    | [] => (-1)%Z
                    | x :: xs => fold_left Z.min xs x
                    end).
      { rewrite map_app. cbn [map]. fold s.
        destruct (map Anchors.position idx0) as [|x xs] eqn:Em.
        - reflexivity.
        - cbn [app]. rewrite least_snoc.
          assert (Hm : (0 <= fold_left Z.min xs x)%Z).
          { assert (Hall : Forall (fun y => 0 <= y)%Z (x :: xs)).
            { rewrite <- Em. apply Forall_map. exact H0. }
            inversion Hall; subst. apply least_nonneg; assumption. }
          destruct (Z.eqb_spec (fold_left Z.min xs x) (-1)); [lia|].
          cbn [orb].
          destruct (Z.ltb_spec s (fold_left Z.min xs x)); lia. }
      rewrite E.
      rewrite (IH (idx0 ++ [res])%list).
      * rewrite <- app_assoc. reflexivity.
      * apply Forall_app. split; [exact H0|]. constructor; [exact Hs|constructor].
    + apply IH, H0.
Qed.

(** The first loop: the index siblings and their anchor. *)
Lemma scanIndex_anchor (routes : list rawRoute) :
  Collapser.scanIndex routes
  = (Anchors.least routes, Anchors.indexSiblings routes).
Proof.
  unfold Collapser.scanIndex, Anchors.least.
  exact (scanIndex_from routes [] (Forall_nil _)).
Qed.

Lemma nth_error_setAt {A : Type} (l : list A) (i k : nat) (v : A) :
  nth_error (JS.setAt i v l) k
  = if (k =? i)%nat then option_map (fun _ => v) (nth_error l k)
    else nth_error l k.
Proof.
  revert i k; induction l as [|x l IH]; intros i k.
  - destruct i; cbn [JS.setAt]; rewrite nth_error_nil;
      destruct (k =? _)%nat; reflexivity.
  - destruct i as [|i]; destruct k as [|k]; cbn [JS.setAt nth_error];
      try reflexivity.
    rewrite IH. reflexivity.
Qed.

Lemma nth_error_mapi_from {A B : Type} (f : nat -> A -> B) (l : list A)
    (s k : nat) :
  nth_error (map (fun kt => f (fst kt) (snd kt)) (combine (seq s (length l)) l)) k
  = option_map (f (s + k)%nat) (nth_error l k).
Proof.
  revert s k; induction l as [|x l IH]; intros s k.
  - destruct k; reflexivity.
  - cbn [length seq combine map]. destruct k as [|k]; cbn [nth_error fst snd].
    + rewrite Nat.add_0_r. reflexivity.
    + rewrite IH. replace (S s + k)%nat with (s + S k)%nat by lia. reflexivity.
Qed.

Lemma nth_error_mapi {A B : Type} (f : nat -> A -> B) (l : list A) (k : nat) :
  nth_error (Anchors.mapi f l) k = option_map (f k) (nth_error l k).
Proof. unfold Anchors.mapi. apply (nth_error_mapi_from f l 0 k). Qed.

Section TokenLoop.
Variable names r : list string.

Let agree (a : nat) : bool := JS.eqOpt (nth_error names a) (nth_error r a).

(** The inner loop: token [i] loses its first question mark when the two
    names agree on every part from [a] up to [i]; no other token
    changes. *)
Lemma stripLoop_tokens (steps : nat) :
  forall (a i : nat) (paths : list string) (k : nat),
    (steps + a = S i)%nat -> (a <= i)%nat ->
    nth_error (Collapser.stripLoop steps a i names r paths) k
    = option_map
        (fun t => if (k =? i)%nat && forallb agree (seq a (i - a))
                  then JS.replace "?" "" t else t)
        (nth_error paths k).
Proof.
  induction steps as [|steps IH]; intros a i paths k Hs Hle; [lia|].
  cbn [Collapser.stripLoop].
  destruct (Nat.eqb_spec a i) as [->|Hai].
  - rewrite Nat.ltb_irrefl. cbn [andb].
    assert (steps = 0%nat) by lia. subst steps. cbn [Collapser.stripLoop].
    rewrite Nat.sub_diag. cbn [seq forallb]. rewrite andb_true_r.
    destruct (nth_error paths i) as [p|] eqn:Ep.
    + rewrite nth_error_setAt.
      destruct (Nat.eqb_spec k i) as [->|Hk].
      * rewrite Ep. reflexivity.
      * destruct (nth_error paths k); reflexivity.
    + destruct (Nat.eqb_spec k i) as [->|Hk].
      * rewrite Ep. reflexivity.
      * destruct (nth_error paths k); reflexivity.
  - assert (Hlt : (a < i)%nat) by lia.
    replace (a <? i)%nat with true by (symmetry; apply Nat.ltb_lt; exact Hlt).
    cbn [andb]. fold (agree a).
    replace (i - a)%nat with (S (i - S a)) by lia. cbn [seq forallb].
    destruct (agree a); cbn [negb andb].
    + rewrite IH by lia. reflexivity.
    + rewrite andb_false_r. destruct (nth_error paths k); reflexivity.
Qed.

(** The body of [routesIndex.forEach] for the index sibling [r]. *)
Lemma stripStep_tokens (start : Z) (paths : list string) (k : nat) :
  nth_error (Collapser.stripStep start names paths r) k
  = option_map
      (fun t => if (Anchors.position r - start =? Z.of_nat k)%Z
                   && forallb agree (seq 0 k)
                then JS.replace "?" "" t else t)
      (nth_error paths k).
Proof.
  unfold Collapser.stripStep. fold (Anchors.position r).
  set (i := (Anchors.position r - start)%Z).
  destruct (nth_error paths k) as [t|] eqn:Ek.
  - assert (Hk : (k < length paths)%nat)
      by (apply nth_error_Some; rewrite Ek; discriminate).
    destruct (Z.ltb_spec i (Z.of_nat (length paths)));
      destruct (Z.leb_spec 0 i); cbn [andb option_map].
    + rewrite stripLoop_tokens by lia. rewrite Ek. cbn [option_map].
      rewrite Nat.sub_0_r.
      destruct (Nat.eqb_spec k (Z.to_nat i)) as [->|Hne].
      * rewrite Z2Nat.id by lia. rewrite Z.eqb_refl. reflexivity.
      * replace (i =? Z.of_nat k)%Z with false
          by (symmetry; apply Z.eqb_neq; lia).
        reflexivity.
    + rewrite Ek. replace (i =? Z.of_nat k)%Z with false
        by (symmetry; apply Z.eqb_neq; lia). reflexivity.
    + rewrite Ek. replace (i =? Z.of_nat k)%Z with false
        by (symmetry; apply Z.eqb_neq; lia). reflexivity.
    + rewrite Ek. replace (i =? Z.of_nat k)%Z with false
        by (symmetry; apply Z.eqb_neq; lia). reflexivity.
  - cbn [option_map].
    destruct ((i <? Z.of_nat (length paths))%Z && (0 <=? i)%Z); [|exact Ek].
    rewrite stripLoop_tokens by lia. rewrite Ek. reflexivity.
Qed.
End TokenLoop.

(** The loop over the index siblings: every token loses its first question
    mark once for each index sibling that reaches it. *)
Lemma stripSteps_tokens (start : Z) (names : list string)
    (routesIndex : list (list string)) :
  forall (paths : list string) (k : nat),
    nth_error (fold_left (Collapser.stripStep start names) routesIndex paths) k
    = option_map
        (Nat.iter
           (length
              (filter
                 (fun r =>
                    (Anchors.position r - start =? Z.of_nat k)%Z
                    && forallb (fun a => JS.eqOpt (nth_error names a)
                                           (nth_error r a)) (seq 0 k))
                 routesIndex))
           (JS.replace "?" ""))
        (nth_error paths k).
Proof.
  induction routesIndex as [|r idx IH]; intros paths k.
  - cbn [fold_left filter length Nat.iter].
    destruct (nth_error paths k); reflexivity.
  - cbn [fold_left filter]. rewrite IH, stripStep_tokens.
    destruct (nth_error paths k) as [t|]; [|reflexivity].
    cbn [option_map]. f_equal.
    destruct ((Anchors.position r - start =? Z.of_nat k)%Z
              && forallb (fun a => JS.eqOpt (nth_error names a) (nth_error r a))
                   (seq 0 k)).
    + cbn [length]. rewrite Nat.iter_succ_r. reflexivity.
    + reflexivity.
Qed.

Lemma stripSteps_unmark (routes : list rawRoute) (names paths : list string) :
  fold_left (Collapser.stripStep (Anchors.least routes) names)
    (Anchors.indexSiblings routes) paths
  = Anchors.unmark routes names paths.
Proof.
  apply nth_error_ext. intros k.
  rewrite stripSteps_tokens. unfold Anchors.unmark.
  rewrite nth_error_mapi. reflexivity.
Qed.

Lemma includes_indexOf (c : ascii) (s : string) :
  (-1 <? JS.indexOf c s)%Z = JS.includes c s.
Proof.
  unfold JS.includes.
  destruct (Z.ltb_spec (-1) (JS.indexOf c s));
    destruct (Z.leb_spec 0 (JS.indexOf c s)); try reflexivity; lia.
Qed.

(** The path the second loop assigns. *)
Lemma cleanPath_expected (isChild : bool) (routes : list rawRoute)
    (raw : rawRoute) :
  Collapser.cleanPath isChild (Anchors.least routes)
    (Anchors.indexSiblings routes) raw
  = Anchors.expectedPath isChild routes raw.
Proof.
  unfold Collapser.cleanPath, Anchors.expectedPath.
  rewrite includes_indexOf.
  destruct (JS.includes "?" (if isChild then JS.replace "/" "" (path raw)
                             else path raw)); [|reflexivity].
  unfold Collapser.fixOptional. rewrite stripSteps_unmark. reflexivity.
Qed.

(** The pass over one sibling list, field by field. *)
Lemma clean_siblings (routes : list rawRoute) (isChild : bool) :
  Forall2
    (fun raw out =>
       path out = Anchors.expectedPath isChild routes raw /\
       name out = (if (1 <=? emptyChildren raw)%nat then None
                   else Some (JS.stripSuffix "-index" (name raw))) /\
       component out = component raw /\
       chunkName out = chunkName raw /\
       children out
       = option_map (fun cs => Collapser.cleanChildrenRoutes cs true)
           (children raw))
    routes (Collapser.cleanChildrenRoutes routes isChild).
Proof.
  replace (Collapser.cleanChildrenRoutes routes isChild)
    with (map (Collapser.cleanOne isChild (Anchors.least routes)
                 (Anchors.indexSiblings routes)) routes)
    by (unfold Collapser.cleanChildrenRoutes; rewrite scanIndex_anchor;
        reflexivity).
  generalize routes at 1 3 4 as ctx. intros ctx.
  induction routes as [|raw rest IH]; cbn [map]; [constructor|].
  constructor; [|exact IH].
  destruct (cleanOne_fields isChild (Anchors.least ctx)
              (Anchors.indexSiblings ctx) raw) as (Hp & Hc & Hk & Hch & Hn).
  cbv zeta in Hp, Hc, Hk, Hch, Hn.
  repeat split.
  - rewrite Hp. apply cleanPath_expected.
  - rewrite Hn. destruct (children raw) as [cs|] eqn:E.
    + rewrite (hasEmptyChild_count raw cs E). reflexivity.
    + unfold emptyChildren. rewrite E. reflexivity.
  - exact Hc.
  - exact Hk.
  - rewrite Hch. destruct (children raw); reflexivity.
Qed.

(** The paths after the pass depend on the names and paths of the
    siblings only. *)
Lemma indexSiblings_names (routes : list rawRoute) :
  Anchors.indexSiblings routes
  = map (JS.split "-") (filter Collapser.isIndexName (map name routes)).
Proof.
  unfold Anchors.indexSiblings.
  induction routes as [|r routes IH]; [reflexivity|].
  cbn [map filter]. destruct (Collapser.isIndexName (name r)); cbn [map];
    rewrite IH; reflexivity.
Qed.

Lemma expectedPath_names (isChild : bool) (routes routes' : list rawRoute)
    (raw raw' : rawRoute) :
  map name routes = map name routes' ->
  name raw = name raw' -> path raw = path raw' ->
  Anchors.expectedPath isChild routes raw
  = Anchors.expectedPath isChild routes' raw'.
Proof.
  intros E En Ep.
  assert (Ei : Anchors.indexSiblings routes = Anchors.indexSiblings routes')
    by (rewrite !indexSiblings_names, E; reflexivity).
  assert (El : Anchors.least routes = Anchors.least routes')
    by (unfold Anchors.least; rewrite Ei; reflexivity).
  assert (Eu : forall names tokens,
             Anchors.unmark routes names tokens
             = Anchors.unmark routes' names tokens).
  { intros names tokens. apply nth_error_ext. intros k.
    unfold Anchors.unmark. rewrite !nth_error_mapi.
    unfold Anchors.reaching, Anchors.reaches. rewrite Ei, El. reflexivity. }
  unfold Anchors.expectedPath. rewrite En, Ep, Eu. reflexivity.
Qed.

Lemma clean_paths (routes : list rawRoute) (isChild : bool) :
  map path (Collapser.cleanChildrenRoutes routes isChild)
  = map (Anchors.expectedPath isChild routes) routes.
Proof.
  assert (G : forall (f : rawRoute -> string) (l : list rawRoute)
                     (l' : list cleanRoute),
             Forall2 (fun raw out => path out = f raw) l l' ->
             map path l' = map f l).
  { intros f l l' HF. induction HF as [|x y l l' Hxy _ IH]; [reflexivity|].
    cbn [map]. rewrite Hxy, IH. reflexivity. }
  apply G. eapply Forall2_impl; [|apply clean_siblings].
  intros a b Hab. exact (proj1 Hab).
Qed.

Lemma expectedPaths_names (isChild : bool) (ctx ctx' : list rawRoute) :
  map name ctx = map name ctx' ->
  forall routes routes' : list rawRoute,
    map name routes = map name routes' ->
    map path routes = map path routes' ->
    map (Anchors.expectedPath isChild ctx) routes
    = map (Anchors.expectedPath isChild ctx') routes'.
Proof.
  intros E. induction routes as [|r routes IH]; intros [|r' routes'] En Ep;
    try discriminate; [reflexivity|].
  cbn [map] in *. injection En as En1 En2. injection Ep as Ep1 Ep2.
  rewrite (expectedPath_names isChild ctx ctx' r r' E En1 Ep1).
  rewrite (IH routes' En2 Ep2). reflexivity.
Qed.

(** * The flattener, node by node *)

Section FlatYield.
Context {N : Type}.

Lemma flatRoute_accumulates (r : route N) :
  forall _path routes,
    fst (Flattener.flatRoute r _path routes)
    = fst (Flattener.flatRoute r _path []) /\
    snd (Flattener.flatRoute r _path routes)
    = (routes ++ snd (Flattener.flatRoute r _path []))%list.
Proof.
  induction r as [n p c ch cs IH] using route_nested_ind.
  intros _path routes.
  destruct (JS.includes ":" p || JS.includes "*" p) eqn:Hs.
  - rewrite !flatRoute_skipped by exact Hs. cbn [fst snd].
    rewrite app_nil_r. split; reflexivity.
  - destruct cs as [l|].
    + rewrite !flatRoute_branch by exact Hs. cbn [fst snd].
      split; [reflexivity|].
      assert (G : forall _p acc,
                 Flattener.flatRoutes l _p acc
                 = (acc ++ Flattener.flatRoutes l _p [])%list).
      { clear - IH. induction IH as [|x l Hx _ IHl]; intros _p acc.
        - cbn [Flattener.flatRoutes]. rewrite app_nil_r. reflexivity.
        - cbn [Flattener.flatRoutes].
          destruct (Hx _p acc) as [H1 H2].
          destruct (Flattener.flatRoute x _p acc) as [_p1 acc1].
          destruct (Flattener.flatRoute x _p []) as [_p0 acc0].
          cbn [fst snd] in H1, H2. subst _p1 acc1.
          rewrite (IHl _p0 (acc ++ acc0)%list), (IHl _p0 acc0).
          rewrite app_assoc. reflexivity. }
      rewrite G.
      rewrite (G _ (if String.eqb _path "" && String.eqb p "/"
                    then ([] ++ ["/"])%list else [])).
      destruct (String.eqb _path "" && String.eqb p "/");
        rewrite ?app_nil_l, ?app_assoc; reflexivity.
    + rewrite !flatRoute_leaf by exact Hs. cbn [fst snd].
      split; reflexivity.
Qed.

Lemma flatRoutes_accumulates (l : list (route N)) :
  forall _path routes,
    Flattener.flatRoutes l _path routes
    = (routes ++ Flattener.flatRoutes l _path [])%list.
Proof.
  induction l as [|x l IHl]; intros _p acc.
  - cbn [Flattener.flatRoutes]. rewrite app_nil_r. reflexivity.
  - cbn [Flattener.flatRoutes].
    destruct (flatRoute_accumulates x _p acc) as [H1 H2].
    destruct (Flattener.flatRoute x _p acc) as [_p1 acc1].
    destruct (Flattener.flatRoute x _p []) as [_p0 acc0].
    cbn [fst snd] in H1, H2. subst _p1 acc1.
    rewrite (IHl _p0 (acc ++ acc0)%list), (IHl _p0 acc0).
    rewrite app_assoc. reflexivity.
Qed.

Lemma normalizeSlashes_idem (s : string) :
  JS.normalizeSlashes (JS.normalizeSlashes s) = JS.normalizeSlashes s.
Proof.
  unfold JS.normalizeSlashes. destruct (JS.allSlashes s) eqn:E.
  - reflexivity.
  - rewrite E. reflexivity.
Qed.

(** One node: the prefix it leaves to the next sibling and the strings it
    adds. *)
Lemma flatRoute_yield (r : route N) (prefix : string) (routes : list string) :
  Flattener.flatRoute r prefix routes
  = (if Yield.reachedLeaf r then JS.normalizeSlashes prefix else prefix,
     (routes ++ Yield.yield r prefix)%list).
Proof.
  unfold Yield.reachedLeaf, Yield.yield.
  destruct (skipped r) eqn:Hs.
  - rewrite flatRoute_skipped by exact Hs. cbn [negb andb].
    rewrite app_nil_r. reflexivity.
  - destruct r as [n p c ch [cs|]]; unfold skipped in Hs; cbn [path] in Hs;
      cbn [negb andb children path].
    + rewrite flatRoute_branch by exact Hs.
      rewrite flatRoutes_accumulates.
      destruct (String.eqb prefix "" && String.eqb p "/");
        rewrite <- ?app_assoc; reflexivity.
    + rewrite flatRoute_leaf by exact Hs. reflexivity.
Qed.

Lemma flatRoutes_snoc (l : list (route N)) :
  forall (r : route N) (prefix : string) (routes : list string),
    Flattener.flatRoutes (l ++ [r]) prefix routes
    = (Flattener.flatRoutes l prefix routes
       ++ Yield.yield r (Yield.prefixAfter l prefix))%list.
Proof.
  induction l as [|x l IH]; intros r prefix routes.
  - cbn [app Flattener.flatRoutes]. rewrite flatRoute_yield. reflexivity.
  - cbn [app Flattener.flatRoutes]. rewrite (flatRoute_yield x).
    rewrite IH. f_equal. f_equal.
    unfold Yield.prefixAfter. cbn [existsb].
    destruct (Yield.reachedLeaf x); cbn [orb]; [|reflexivity].
    rewrite normalizeSlashes_idem.
    destruct (existsb Yield.reachedLeaf l); reflexivity.
Qed.
End FlatYield.

(** * The sort of V8 from version 7.0 on conforms *)

Section TimSortFacts.
Context {A : Type} (comparefn : A -> A -> Z).

Lemma runRest_app (d : bool) (l : list A) :
  forall prev run rest,
    TimSort.runRest comparefn d prev l = (run, rest) -> l = (run ++ rest)%list.
Proof.
  induction l as [|c l IH]; intros prev run rest H; cbn [TimSort.runRest] in H.
  - injection H as <- <-. reflexivity.
  - destruct (if d then (0 <=? comparefn c prev)%Z
              else (comparefn c prev <? 0)%Z).
    + injection H as <- <-. reflexivity.
    + destruct (TimSort.runRest comparefn d c l) as [run' rest'] eqn:E.
      injection H as <- <-. cbn [app]. rewrite (IH c run' rest' E). reflexivity.
Qed.

Lemma countAndMakeRun_perm (l : list A) :
  Permutation (fst (TimSort.countAndMakeRun comparefn l)
               ++ snd (TimSort.countAndMakeRun comparefn l))%list l.
Proof.
  destruct l as [|h [|lo l']]; cbn [TimSort.countAndMakeRun fst snd app];
    try apply Permutation_refl.
  destruct (TimSort.runRest comparefn (comparefn lo h <? 0)%Z lo l')
    as [run rest] eqn:E.
  rewrite (runRest_app _ _ _ _ _ E). cbn [fst snd].
  change (h :: lo :: run ++ rest)%list with ((h :: lo :: run) ++ rest)%list.
  apply Permutation_app_tail.
  destruct (comparefn lo h <? 0)%Z; [|apply Permutation_refl].
  apply Permutation_sym, Permutation_rev.
Qed.

Lemma binaryInsert_perm (sorted : list A) (pivot : A) :
  Permutation (TimSort.binaryInsert comparefn sorted pivot) (pivot :: sorted).
Proof.
  unfold TimSort.binaryInsert.
  set (left := TimSort.insertionPoint comparefn _ _ _ _ _).
  eapply Permutation_trans; [apply Permutation_sym, Permutation_middle|].
  rewrite firstn_skipn. apply Permutation_refl.
Qed.

Lemma binaryInserts_perm (rest : list A) :
  forall run,
    Permutation (fold_left (TimSort.binaryInsert comparefn) rest run)
                (run ++ rest)%list.
Proof.
  induction rest as [|x rest IH]; intros run; cbn [fold_left].
  - rewrite app_nil_r. apply Permutation_refl.
  - eapply Permutation_trans; [apply IH|].
    eapply Permutation_trans;
      [apply Permutation_app_tail, binaryInsert_perm|].
    cbn [app]. apply Permutation_middle.
Qed.

Lemma timsort_perm (l : list A) : Permutation (TimSort.sort comparefn l) l.
Proof.
  unfold TimSort.sort. pose proof (countAndMakeRun_perm l) as H.
  destruct (TimSort.countAndMakeRun comparefn l) as [run rest].
  cbn [fst snd] in H.
  eapply Permutation_trans; [apply binaryInserts_perm|exact H].
Qed.

(** The classes of [rho], which the comparator tells apart on the elements
    that satisfy [Q]. *)
Variable rho : A -> nat.
Variable Q : A -> Prop.
Hypothesis separated :
  forall a b, Q a -> Q b -> (rho a < rho b)%nat ->
              (comparefn a b < 0)%Z /\ (0 < comparefn b a)%Z.

Let ordered (l : list A) : Prop :=
  forall i j a b,
    nth_error l i = Some a -> nth_error l j = Some b -> (i < j)%nat ->
    (rho a <= rho b)%nat.

Lemma negative_le (a b : A) :
  Q a -> Q b -> (comparefn a b < 0)%Z -> (rho a <= rho b)%nat.
Proof.
  intros Qa Qb H. destruct (Nat.le_gt_cases (rho a) (rho b)) as [|Hgt];
    [assumption|].
  destruct (separated b a Qb Qa Hgt) as [_ H2]. lia.
Qed.

Lemma nonnegative_ge (a b : A) :
  Q a -> Q b -> (0 <= comparefn a b)%Z -> (rho b <= rho a)%nat.
Proof.
  intros Qa Qb H. destruct (Nat.le_gt_cases (rho b) (rho a)) as [|Hgt];
    [assumption|].
  destruct (separated a b Qa Qb Hgt) as [H1 _]. lia.
Qed.

Lemma runRest_sorted (d : bool) (l : list A) :
  forall prev run rest,
    Q prev -> Forall Q l ->
    TimSort.runRest comparefn d prev l = (run, rest) ->
    StronglySorted
      (fun x y => if d then (rho y <= rho x)%nat else (rho x <= rho y)%nat)
      (prev :: run).
Proof.
  induction l as [|c l IH]; intros prev run rest Qp Ql H;
    cbn [TimSort.runRest] in H.
  - injection H as <- <-. repeat constructor.
  - inversion Ql as [|? ? Qc Ql']; subst.
    destruct d.
    + destruct (Z.leb_spec 0 (comparefn c prev)).
      * injection H as <- <-. repeat constructor.
      * destruct (TimSort.runRest comparefn true c l) as [run' rest'] eqn:E.
        injection H as <- <-.
        pose proof (IH c run' rest' Qc Ql' E) as HS.
        constructor; [exact HS|].
        pose proof (negative_le c prev Qc Qp ltac:(lia)) as Hcp.
        inversion HS as [|? ? _ Hall]; subst.
        constructor; [exact Hcp|].
        eapply Forall_impl; [|exact Hall]. cbn. intros y Hy. lia.
    + destruct (Z.ltb_spec (comparefn c prev) 0).
      * injection H as <- <-. repeat constructor.
      * destruct (TimSort.runRest comparefn false c l) as [run' rest'] eqn:E.
        injection H as <- <-.
        pose proof (IH c run' rest' Qc Ql' E) as HS.
        constructor; [exact HS|].
        pose proof (nonnegative_ge c prev Qc Qp ltac:(lia)) as Hcp.
        inversion HS as [|? ? _ Hall]; subst.
        constructor; [exact Hcp|].
        eapply Forall_impl; [|exact Hall]. cbn. intros y Hy. lia.
Qed.

Lemma countAndMakeRun_ordered (l : list A) :
  Forall Q l -> ordered (fst (TimSort.countAndMakeRun comparefn l)).
Proof.
  intros Ql.
  destruct l as [|h [|lo l']]; cbn [TimSort.countAndMakeRun fst].
  - intros i j a b Hi. destruct i; discriminate.
  - intros i j a b Hi Hj Hlt. destruct j as [|[|j]]; [lia| |]; discriminate.
  - inversion Ql as [|? ? Qh Ql1]; subst.
    inversion Ql1 as [|? ? Qlo Ql2]; subst.
    destruct (TimSort.runRest comparefn (comparefn lo h <? 0)%Z lo l')
      as [run rest] eqn:E.
    cbn [fst].
    pose proof (runRest_sorted _ l' lo run rest Qlo Ql2 E) as HS.
    destruct (Z.ltb_spec (comparefn lo h) 0) as [Hd|Hd].
    + pose proof (negative_le lo h Qlo Qh Hd) as Hlh.
      assert (HS' : StronglySorted (fun x y => (rho y <= rho x)%nat)
                      (h :: lo :: run)).
      { constructor; [exact HS|].
        inversion HS as [|? ? _ Hall]; subst.
        constructor; [exact Hlh|].
        eapply Forall_impl; [|exact Hall]. cbn. intros y Hy. lia. }
      apply (rev_sorted (fun x y => (rho x <= rho y)%nat)) in HS'.
      intros i j a b Hi Hj Hlt.
      exact (sorted_nth _ _ HS' i j a b Hi Hj Hlt).
    + pose proof (nonnegative_ge lo h Qlo Qh ltac:(lia)) as Hlh.
      assert (HS' : StronglySorted (fun x y => (rho x <= rho y)%nat)
                      (h :: lo :: run)).
      { constructor; [exact HS|].
        inversion HS as [|? ? _ Hall]; subst.
        constructor; [exact Hlh|].
        eapply Forall_impl; [|exact Hall]. cbn. intros y Hy. lia. }
      intros i j a b Hi Hj Hlt.
      exact (sorted_nth _ _ HS' i j a b Hi Hj Hlt).
Qed.

(** The binary search ends at a place with no element of a higher class
    before it and no element of a lower class from it on. *)
Lemma insertionPoint_place (pivot : A) (sorted : list A) :
  Q pivot -> Forall Q sorted -> ordered sorted ->
  forall fuel left right,
    (left <= right)%nat -> (right <= length sorted)%nat ->
    (right - left <= fuel)%nat ->
    (forall k x, (k < left)%nat -> nth_error sorted k = Some x ->
                 (rho x <= rho pivot)%nat) ->
    (forall k x, (right <= k)%nat -> nth_error sorted k = Some x ->
                 (rho pivot <= rho x)%nat) ->
    let p := TimSort.insertionPoint comparefn fuel pivot sorted left right in
    (p <= length sorted)%nat /\
    (forall k x, (k < p)%nat -> nth_error sorted k = Some x ->
                 (rho x <= rho pivot)%nat) /\
    (forall k x, (p <= k)%nat -> nth_error sorted k = Some x ->
                 (rho pivot <= rho x)%nat).
Proof.
  intros Qp Qs Hord.
  induction fuel as [|fuel IH]; intros left right Hlr Hrl Hf Hlo Hhi;
    cbn [TimSort.insertionPoint].
  - assert (left = right) by lia. subst right.
    cbv zeta. split; [lia|]. split; assumption.
  - destruct (Nat.ltb_spec left right) as [Hlt|Hge].
    + set (mid := (left + (right - left) / 2)%nat).
      assert (Hmid : (left <= mid < right)%nat).
      { unfold mid. split; [lia|].
        assert ((right - left) / 2 < right - left)%nat
          by (apply Nat.div_lt; lia).
        lia. }
      destruct (nth_error sorted mid) as [m|] eqn:Em.
      * assert (Qm : Q m).
        { apply nth_error_In in Em.
          exact (proj1 (Forall_forall _ _) Qs m Em). }
        destruct (Z.ltb_spec (comparefn pivot m) 0) as [Hc|Hc].
        -- apply IH; try lia; [exact Hlo|].
           intros k x Hk Hx.
           pose proof (negative_le pivot m Qp Qm Hc) as Hpm.
           destruct (Nat.eq_dec k mid) as [->|Hne].
           ++ rewrite Em in Hx. injection Hx as <-. exact Hpm.
           ++ pose proof (Hord mid k m x Em Hx ltac:(lia)). lia.
        -- apply IH; try lia; [|exact Hhi].
           intros k x Hk Hx.
           pose proof (nonnegative_ge pivot m Qp Qm ltac:(lia)) as Hmp.
           destruct (Nat.eq_dec k mid) as [->|Hne].
           ++ rewrite Em in Hx. injection Hx as <-. exact Hmp.
           ++ pose proof (Hord k mid x m Hx Em ltac:(lia)). lia.
      * apply nth_error_None in Em. lia.
    + assert (left = right) by lia. subst right.
      cbv zeta. split; [lia|]. split; assumption.
Qed.

Lemma binaryInsert_ordered (sorted : list A) (pivot : A) :
  Q pivot -> Forall Q sorted -> ordered sorted ->
  ordered (TimSort.binaryInsert comparefn sorted pivot).
Proof.
  intros Qp Qs Hord. unfold TimSort.binaryInsert.
  assert (H0 : forall k x, (k < 0)%nat -> nth_error sorted k = Some x ->
                           (rho x <= rho pivot)%nat) by (intros; lia).
  assert (H1 : forall k x, (length sorted <= k)%nat ->
                           nth_error sorted k = Some x ->
                           (rho pivot <= rho x)%nat).
  { intros k x Hk Hx. apply nth_error_None in Hk. congruence. }
  destruct (insertionPoint_place pivot sorted Qp Qs Hord
              (length sorted) 0 (length sorted)
              ltac:(lia) ltac:(lia) ltac:(lia) H0 H1)
    as (Hp & Hlo & Hhi).
  cbv zeta in Hp, Hlo, Hhi.
  set (p := TimSort.insertionPoint comparefn (length sorted) pivot sorted 0
              (length sorted)) in *.
  assert (Hlen : length (firstn p sorted) = p)
    by (rewrite length_firstn; lia).
  assert (Hnth : forall i,
             nth_error (firstn p sorted ++ pivot :: skipn p sorted) i
             = if (i <? p)%nat then nth_error sorted i
               else if (i =? p)%nat then Some pivot
                    else nth_error sorted (i - 1)).
  { intros i. destruct (Nat.ltb_spec i p) as [Hi|Hi].
    - rewrite nth_error_app1 by lia. rewrite nth_error_firstn.
      replace (i <? p)%nat with true by (symmetry; apply Nat.ltb_lt; exact Hi).
      reflexivity.
    - rewrite nth_error_app2 by lia. rewrite Hlen.
      destruct (Nat.eqb_spec i p) as [->|Hne].
      + rewrite Nat.sub_diag. reflexivity.
      + replace (i - p)%nat with (S (i - p - 1)) by lia.
        cbn [nth_error]. rewrite nth_error_skipn. f_equal. lia. }
  intros i j a b Hi Hj Hlt. rewrite Hnth in Hi, Hj.
  destruct (Nat.ltb_spec i p) as [Hip|Hip];
    destruct (Nat.ltb_spec j p) as [Hjp|Hjp]; try lia.
  - exact (Hord i j a b Hi Hj Hlt).
  - destruct (Nat.eqb_spec j p) as [->|Hne].
    + injection Hj as <-. exact (Hlo i a Hip Hi).
    + exact (Hord i (j - 1)%nat a b Hi Hj ltac:(lia)).
  - destruct (Nat.eqb_spec i p) as [->|Hne].
    + injection Hi as <-.
      destruct (Nat.eqb_spec j p) as [->|Hne']; [lia|].
      exact (Hhi (j - 1)%nat b ltac:(lia) Hj).
    + destruct (Nat.eqb_spec j p) as [->|Hne']; [lia|].
      exact (Hord (i - 1)%nat (j - 1)%nat a b Hi Hj ltac:(lia)).
Qed.

Lemma binaryInserts_ordered (rest : list A) :
  forall run,
    Forall Q rest -> Forall Q run -> ordered run ->
    ordered (fold_left (TimSort.binaryInsert comparefn) rest run).
Proof.
  induction rest as [|x rest IH]; intros run Qr Qrun Hord; cbn [fold_left].
  - exact Hord.
  - inversion Qr as [|? ? Qx Qrest]; subst.
    apply IH; [exact Qrest| |apply binaryInsert_ordered; assumption].
    eapply Permutation_Forall;
      [apply Permutation_sym, binaryInsert_perm|].
    constructor; assumption.
Qed.

Lemma timsort_ordered (l : list A) :
  Forall Q l ->
  forall i j a b,
    nth_error (TimSort.sort comparefn l) i = Some a ->
    nth_error (TimSort.sort comparefn l) j = Some b ->
    (rho a < rho b)%nat -> (i < j)%nat.
Proof.
  intros Ql.
  assert (Hord : ordered (TimSort.sort comparefn l)).
  { unfold TimSort.sort.
    pose proof (countAndMakeRun_perm l) as Hperm.
    pose proof (countAndMakeRun_ordered l Ql) as Hrun.
    destruct (TimSort.countAndMakeRun comparefn l) as [run rest].
    cbn [fst snd] in *.
    assert (Qall : Forall Q (run ++ rest)%list)
      by (eapply Permutation_Forall; [apply Permutation_sym, Hperm|exact Ql]).
    apply Forall_app in Qall as [Qrun Qrest].
    apply binaryInserts_ordered; assumption. }
  intros i j a b Hi Hj Hlt.
  destruct (Nat.lt_trichotomy i j) as [H|[H|H]]; [exact H| |].
  - subst j. rewrite Hi in Hj. injection Hj as <-. lia.
  - pose proof (Hord j i b a Hj Hi H). lia.
Qed.
End TimSortFacts.

Lemma timsort_conforms : Engine.conforms (@TimSort.sort rawRoute).
Proof.
  split.
  - intros comparefn l. apply timsort_perm.
  - intros comparefn rho l Hsep i j a b Hi Hj Hlt.
    apply (timsort_ordered comparefn rho (fun x => In x l) Hsep l)
      with (a := a) (b := b); try assumption.
    apply Forall_forall. intros x Hx. exact Hx.
Qed.

(** Inside a class the two sorts of V8 differ: three static paths of one
    token each keep their order in the one and are reversed by the
    other. *)
Lemma engines_differ_inside_a_class :
  let l := [mkRoute "a" "/a" ("src", "pages/a.vue") (Some "pages/a") None;
            mkRoute "b" "/b" ("src", "pages/b.vue") (Some "pages/b") None;
            mkRoute "c" "/c" ("src", "pages/c.vue") (Some "pages/c") None] in
  map path (TimSort.sort Orderer.compareRoutes l) = ["/a"; "/b"; "/c"] /\
  map path (ArraySort.sort Orderer.compareRoutes l) = ["/c"; "/b"; "/a"].
Proof. split; vm_compute; reflexivity. Qed.

(** * The statements of the specification, settled *)

(** ** Determinism (C1) *)




(** ** Optional disambiguation (C2) *)

(** C2, as stated, fails in both halves: with the index sibling the path
    of [posts/_page] is [/posts/:page?], not [/:page?], and without an index
    sibling the path still holds the optional marker. *)
Lemma optional_disambiguation_fails :
  ~ Stated.optionalWithIndexSibling /\ ~ Stated.requiredWithoutIndexSibling.
Proof.
  split.
  - unfold Stated.optionalWithIndexSibling. vm_compute. discriminate.
  - intros H. specialize (H "/posts/:page?" eq_refl). vm_compute in H. discriminate H.
Qed.

(** C2 (amended): the builder emits every dynamic key as the optional
    pattern [/:name?]; for the files [posts/index] and [posts/_page] the
    route of [posts/_page] keeps the path [/posts/:page?], and for the file
    [posts/_page] alone it has the same optional path.  The collapser
    removes a marker only through the index siblings of the route, the
    siblings whose name is [index] or ends in [-index]: the token at
    position [k] of a path loses its first question mark once for every
    index sibling whose [index] part stands [k] places after the least
    such position among the siblings and whose name agrees with the name of
    the route on the [k] parts before it; every other token stays as it was
    built.  So when [posts.vue] is also present the child's path becomes the
    required [:page], and in a root sibling list without any index name the
    collapser leaves every path that starts with a slash as it was
    built. *)
Theorem dynamic_key_optional_unless_anchored :
  (forall (routePath rest : string) (i len : nat),
      rest <> "" ->
      nextPath routePath (String "_" rest) i len
      = routePath ++ "/:" ++ rest ++ "?") /\
  (forall routes : list rawRoute,
      Forall (fun r => Collapser.isIndexName (name r) = false) routes ->
      Forall2 (fun raw out => forall q, path raw = String "/" q ->
                                        path out = path raw)
        routes (Collapser.cleanChildrenRoutes routes false)) /\
  pathOf ("src", "pages/posts/_page.vue")
    (createRoutes ["pages/posts/index.vue"; "pages/posts/_page.vue"]
       "src" "pages") = Some "/posts/:page?" /\
  pathOf ("src", "pages/posts/_page.vue")
    (createRoutes ["pages/posts/_page.vue"] "src" "pages")
  = Some "/posts/:page?" /\
  pathOf ("src", "pages/posts/_page.vue")
    (createRoutes
       ["pages/posts.vue"; "pages/posts/index.vue"; "pages/posts/_page.vue"]
       "src" "pages") = Some ":page" /\
  (forall n : string,
      Collapser.isIndexName n = true <->
      n = "index" \/ exists base, n = base ++ "-index") /\
  (forall routes : list rawRoute,
      Collapser.scanIndex routes
      = (Anchors.least routes, Anchors.indexSiblings routes)) /\
  (forall (routes : list rawRoute) (isChild : bool),
      Forall2
        (fun raw out => path out = Anchors.expectedPath isChild routes raw)
        routes (Collapser.cleanChildrenRoutes routes isChild)) /\
  (forall (routes : list rawRoute) (names tokens : list string),
      length (Anchors.unmark routes names tokens) = length tokens /\
      forall (k : nat) (t : string),
        nth_error tokens k = Some t ->
        nth_error (Anchors.unmark routes names tokens) k
        = Some (if (Anchors.reaching routes names k =? 0)%nat then t
                else Nat.iter (Anchors.reaching routes names k - 1)
                       (JS.replace "?" "") (JS.replace "?" "" t))).
Proof.
  split; [|split; [exact clean_root_no_index|]].
  { intros routePath rest i len Hrest. unfold nextPath.
    assert (E1 : String.eqb (String "_" rest) "index" = false) by reflexivity.
    assert (E2 : String.eqb (String "_" rest) "_" = false).
    { destruct rest; [contradiction|reflexivity]. }
    rewrite E1, E2. cbn [andb negb JS.indexOf JS.replace].
    change (Ascii.eqb "_" "_") with true. cbn [Z.eqb andb].
    rewrite !append_assoc. reflexivity. }
  split; [vm_compute; reflexivity|].
  split; [vm_compute; reflexivity|].
  split; [vm_compute; reflexivity|].
  split; [exact isIndexName_iff|].
  split; [exact scanIndex_anchor|].
  split.
  { intros routes isChild.
    eapply Forall2_impl; [|apply clean_siblings].
    intros a b Hab. exact (proj1 Hab). }
  intros routes names tokens. split.
  - unfold Anchors.unmark, Anchors.mapi.
    rewrite length_map, length_combine, length_seq. apply Nat.min_id.
  - intros k t Hk. unfold Anchors.unmark. rewrite nth_error_mapi, Hk.
    cbn [option_map]. f_equal.
    destruct (Anchors.reaching routes names k) as [|m]; [reflexivity|].
    cbn [Nat.eqb]. rewrite Nat.iter_succ_r.
    replace (S m - 1)%nat with m by lia. reflexivity.
Qed.

Lemma dynamic_key_optional_unless_anchored_witness :
  "page" <> "" /\
  nextPath "/posts" "_page" 1 2 = "/posts" ++ "/:" ++ "page" ++ "?".
Proof.
  split; [discriminate|].
  apply (proj1 dynamic_key_optional_unless_anchored "/posts" "page" 1%nat 2%nat).
  discriminate.
Defined.

(** ** Precedence of siblings (C3) *)




(** ** Merge correctness (C4) *)

(** C4, as stated, fails: without a file [users.vue] no node named
    [users] with two children exists; the forest has two root nodes. *)
Lemma merged_users_fails :
  ~ Stated.mergedUsers
      (createRoutes
         ["pages/users/index.vue"; "pages/users/_id.vue";
          "pages/users/_id/edit.vue"] "src" "pages").
Proof.
  intros (users & index & dyn & edit & H & _).
  vm_compute in H. discriminate H.
Qed.

(** C4 (amended): for the files [users/index], [users/_id] and
    [users/_id/edit] the forest has two root nodes, [users] with path
    [/users] and no children, and [users-id] with path [/users/:id?] and the
    single child [users-id-edit] with path [edit]; in general the component
    references of the forest are the input files, each exactly as often as
    it occurs in the input, so no file is represented by two nodes. *)
Theorem users_forest_and_one_node_per_file :
  shapesOf
    (createRoutes
       ["pages/users/index.vue"; "pages/users/_id.vue";
        "pages/users/_id/edit.vue"] "src" "pages")
  = [ Shape (Some "users") "/users" None;
      Shape (Some "users-id") "/users/:id?"
        (Some [Shape (Some "users-id-edit") "edit" None]) ]
  /\
  forall files srcDir pagesDir,
    Permutation (componentsOf (createRoutes files srcDir pagesDir))
                (map (fun file => (srcDir, file)) files).
Proof.
  split; [vm_compute; reflexivity|].
  exact createRoutes_components.
Qed.

(** ** Wrapper collapse (C5) *)

(** C5, as stated, fails: with [users.vue], [users.js] and
    [users/index.vue] the node of [users.vue] has two children with the
    empty path and its name is deleted, with either sort of V8 (the two
    children stand in one order or the other). *)
Lemma wrapper_iff_one_empty_child_fails :
  ~ Stated.wrapperIffOneEmptyChild
      (createRoutes
         ["pages/users.vue"; "pages/users.js"; "pages/users/index.vue"]
         "src" "pages") /\
  ~ Stated.wrapperIffOneEmptyChild
      (Engine.createRoutes (@TimSort.sort rawRoute)
         ["pages/users.vue"; "pages/users.js"; "pages/users/index.vue"]
         "src" "pages").
Proof.
  split; intros H.
  - specialize (H (mkRoute None "/users" ("src", "pages/users.vue")
                     (Some "pages/users")
                     (Some [mkRoute (Some "users") "" ("src", "pages/users.js")
                              (Some "pages/users") None;
                            mkRoute (Some "users") ""
                              ("src", "pages/users/index.vue")
                              (Some "pages/users/index") None]))).
    assert (Hin : In (mkRoute None "/users" ("src", "pages/users.vue")
                     (Some "pages/users")
                     (Some [mkRoute (Some "users") "" ("src", "pages/users.js")
                              (Some "pages/users") None;
                            mkRoute (Some "users") ""
                              ("src", "pages/users/index.vue")
                              (Some "pages/users/index") None]))
                   (allNodes (createRoutes
           ["pages/users.vue"; "pages/users.js"; "pages/users/index.vue"]
           "src" "pages"))).
    { vm_compute. left. reflexivity. }
    destruct (H Hin) as [H1 _]. specialize (H1 eq_refl).
    vm_compute in H1. discriminate H1.
  - specialize (H (mkRoute None "/users" ("src", "pages/users.vue")
                     (Some "pages/users")
                     (Some [mkRoute (Some "users") ""
                              ("src", "pages/users/index.vue")
                              (Some "pages/users/index") None;
                            mkRoute (Some "users") "" ("src", "pages/users.js")
                              (Some "pages/users") None]))).
    assert (Hin : In (mkRoute None "/users" ("src", "pages/users.vue")
                     (Some "pages/users")
                     (Some [mkRoute (Some "users") ""
                              ("src", "pages/users/index.vue")
                              (Some "pages/users/index") None;
                            mkRoute (Some "users") "" ("src", "pages/users.js")
                              (Some "pages/users") None]))
                   (allNodes (Engine.createRoutes (@TimSort.sort rawRoute)
           ["pages/users.vue"; "pages/users.js"; "pages/users/index.vue"]
           "src" "pages"))).
    { vm_compute. left. reflexivity. }
    destruct (H Hin) as [H1 _]. specialize (H1 eq_refl).
    vm_compute in H1. discriminate H1.
Qed.

(** C5 (amended): after the collapser a node's name has been deleted if
    and only if, when the node was visited, at least one of its children
    had the empty path; deleting the name changes nothing else: the node
    the pass returns has the component and the chunk name of the node it
    was given, the path the pass gives a node of that name and path among
    siblings of those names, whether or not the node has children, and for
    children the former children, each collapsed in turn, in the same
    order. *)
Theorem wrapper_iff_some_empty_child
    (routes : list rawRoute) (isChild : bool) :
  Forall2
    (fun raw out =>
       (name out = None <-> (1 <= emptyChildren raw)%nat) /\
       children out
       = option_map (fun cs => Collapser.cleanChildrenRoutes cs true)
           (children raw) /\
       option_map componentsOf (children out)
       = option_map componentsOf (children raw))
    (allNodes routes)
    (allNodes (Collapser.cleanChildrenRoutes routes isChild))
  /\
  Forall2
    (fun raw out =>
       out = mkRoute
               (if (1 <=? emptyChildren raw)%nat then None
                else Some (JS.stripSuffix "-index" (name raw)))
               (Anchors.expectedPath isChild routes (setChildren raw None))
               (component raw) (chunkName raw)
               (option_map (fun cs => Collapser.cleanChildrenRoutes cs true)
                  (children raw)))
    routes (Collapser.cleanChildrenRoutes routes isChild)
  /\
  (forall routes' : list rawRoute,
      map name routes = map name routes' ->
      map path routes = map path routes' ->
      map path (Collapser.cleanChildrenRoutes routes isChild)
      = map path (Collapser.cleanChildrenRoutes routes' isChild)).
Proof.
  split; [|split].
  - apply clean_nodes. intros b start routesIndex raw.
    destruct (cleanOne_fields b start routesIndex raw)
      as (_ & _ & _ & Hc & Hn).
    cbv zeta in Hc, Hn.
    split; [|split].
    + rewrite Hn. destruct (children raw) as [cs|] eqn:E.
      * rewrite (hasEmptyChild_count raw cs E).
        destruct (Nat.leb_spec 1 (emptyChildren raw)); split; intros; try lia;
          congruence.
      * unfold emptyChildren. rewrite E. split; [discriminate|lia].
    + rewrite Hc. destruct (children raw); reflexivity.
    + rewrite Hc. destruct (children raw) as [cs|]; [|reflexivity].
      cbn [option_map]. rewrite clean_components. reflexivity.
  - eapply Forall2_impl; [|apply clean_siblings].
    intros raw out (Hp & Hn & Hc & Hk & Hch).
    destruct out as [n p c ch cs]. cbn [name path component chunkName children] in *.
    subst n p c ch cs. destruct raw; reflexivity.
  - intros routes' En Ep. rewrite !clean_paths.
    apply (expectedPaths_names isChild routes routes' En routes routes' En Ep).
Qed.

Lemma wrapper_iff_some_empty_child_witness :
  map name
    (allNodes (createRoutes ["pages/users.vue"; "pages/users/index.vue"]
                 "src" "pages"))
  = [None; Some "users"] /\
  map path
    (allNodes (createRoutes ["pages/users.vue"; "pages/users/index.vue"]
                 "src" "pages"))
  = ["/users"; ""] /\
  map name (buildRoutes ["pages/users.vue"; "pages/users/index.vue"]
              "src" "pages")
  = map name [mkRoute "users" "/users" ("src", "pages/users.vue")
                (Some "pages/users") None] /\
  map path (buildRoutes ["pages/users.vue"; "pages/users/index.vue"]
              "src" "pages")
  = map path [mkRoute "users" "/users" ("src", "pages/users.vue")
                (Some "pages/users") None] /\
  map path (createRoutes ["pages/users.vue"; "pages/users/index.vue"]
              "src" "pages")
  = map path
      (Collapser.cleanChildrenRoutes
         [mkRoute "users" "/users" ("src", "pages/users.vue")
            (Some "pages/users") None] false).
Proof.
  split; [vm_compute; reflexivity|].
  split; [vm_compute; reflexivity|].
  split; [vm_compute; reflexivity|].
  split; [vm_compute; reflexivity|].
  apply (proj2 (proj2 (wrapper_iff_some_empty_child
                         (buildRoutes ["pages/users.vue"; "pages/users/index.vue"]
                            "src" "pages") false))); vm_compute; reflexivity.
Defined.

(** ** The path of the root among its siblings (C6) *)

(** C6: the comparator means to place the node ["/"] after the static
    siblings and before the dynamic ones (its comment reads
    [Order: /static, /index, /:dynamic]) and does so on tokens that its
    two tests classify alike.  It tests a first token against ["/"] by
    its first character and against any other path by a colon anywhere in
    it.  The directory [a:b] is static by the first test and dynamic by
    the second, so the verdicts on [/a:b/e], ["/"] and [/:c?] go round in a
    circle, and after [index.vue], [_c.vue] and [a:b/e.vue] the node ["/"]
    stands before the static sibling [/a:b/e], with either sort of V8. *)
Theorem root_before_static_directory_with_colon :
  let files := ["pages/index.vue"; "pages/_c.vue"; "pages/a:b/e.vue"] in
  let byInsertion := buildRoutes files "src" "pages" in
  let byTimSort :=
    Engine.buildRoutes (@TimSort.sort rawRoute) files "src" "pages" in
  map path byInsertion = ["/"; "/:c?"; "/a:b/e"] /\
  map path byTimSort = ["/"; "/:c?"; "/a:b/e"] /\
  Classes.beginsStatic "/a:b/e" = true /\
  ~ Stated.rootBetween byInsertion /\
  ~ Stated.rootBetween byTimSort /\
  JS.startsDynamic "/a:b/e" = false /\
  Orderer.tokenClass "a:b" = 1%Z /\
  Orderer.comparePaths "/a:b/e" "/" = (-1)%Z /\
  Orderer.comparePaths "/" "/a:b/e" = 1%Z /\
  Orderer.comparePaths "/" "/:c?" = (-1)%Z /\
  Orderer.comparePaths "/:c?" "/" = 1%Z /\
  Orderer.comparePaths "/:c?" "/a:b/e" = (-1)%Z /\
  Orderer.comparePaths "/a:b/e" "/:c?" = 1%Z.
Proof.
  cbv zeta.
  split; [vm_compute; reflexivity|].
  split; [vm_compute; reflexivity|].
  split; [vm_compute; reflexivity|].
  split.
  { intros H.
    destruct (H 0%nat 2%nat
                (mkRoute "index" "/" ("src", "pages/index.vue")
                   (Some "pages/index") None)
                (mkRoute "a:b-e" "/a:b/e" ("src", "pages/a:b/e.vue")
                   (Some "pages/a:b/e") None)
                eq_refl eq_refl eq_refl) as [_ Hs].
    specialize (Hs eq_refl). lia. }
  split; [|repeat split; vm_compute; reflexivity].
  intros H.
  destruct (H 0%nat 2%nat
              (mkRoute "index" "/" ("src", "pages/index.vue")
                 (Some "pages/index") None)
              (mkRoute "a:b-e" "/a:b/e" ("src", "pages/a:b/e.vue")
                 (Some "pages/a:b/e") None)
              eq_refl eq_refl eq_refl) as [_ Hs].
  specialize (Hs eq_refl). lia.
Qed.

(** ** The index suffix of names (C7) *)

(** C7, as stated, fails: the root node of [index.vue] keeps the name
    [index]. *)
Lemma root_index_name_empty_fails :
  ~ Stated.rootIndexNameEmpty ["pages/index.vue"] "src" "pages".
Proof.
  intros H. unfold Stated.rootIndexNameEmpty in H.
  vm_compute in H. inversion H as [|x y l l' Hxy Hrest]; subst.
  specialize (Hxy eq_refl). discriminate Hxy.
Qed.

(** C7 (amended): after the collapser every node whose built name ends in
    [-index] has that suffix stripped from its name, and a node whose whole
    built name is [index] keeps the name [index]; in both cases the name is
    deleted instead when a child of the node had the empty path. *)
Theorem index_suffix_stripped (routes : list rawRoute) (isChild : bool) :
  Forall2
    (fun raw out =>
       (forall base,
           name raw = base ++ "-index" ->
           name out = if (1 <=? emptyChildren raw)%nat then None
                      else Some base) /\
       (name raw = "index" ->
        name out = if (1 <=? emptyChildren raw)%nat then None
                   else Some "index"))
    (allNodes routes)
    (allNodes (Collapser.cleanChildrenRoutes routes isChild)).
Proof.
  apply clean_nodes. intros b start routesIndex raw.
  destruct (cleanOne_fields b start routesIndex raw) as (_ & _ & _ & _ & Hn).
  cbv zeta in Hn.
  assert (E : name (Collapser.cleanOne b start routesIndex raw)
              = if (1 <=? emptyChildren raw)%nat then None
                else Some (JS.stripSuffix "-index" (name raw))).
  { rewrite Hn. destruct (children raw) as [cs|] eqn:Ec.
    - rewrite (hasEmptyChild_count raw cs Ec). reflexivity.
    - unfold emptyChildren. rewrite Ec. reflexivity. }
  split.
  - intros base Hb. rewrite E, Hb, stripSuffix_app by discriminate. reflexivity.
  - intros Hb. rewrite E, Hb. reflexivity.
Qed.

Lemma index_suffix_stripped_witness :
  map name
    (allNodes (createRoutes ["pages/index.vue"; "pages/users/index.vue"]
                 "src" "pages"))
  = [Some "users"; Some "index"] /\
  Forall2
    (fun raw out =>
       (forall base,
           name raw = base ++ "-index" ->
           name out = if (1 <=? emptyChildren raw)%nat then None
                      else Some base) /\
       (name raw = "index" ->
        name out = if (1 <=? emptyChildren raw)%nat then None
                   else Some "index"))
    (allNodes (buildRoutes ["pages/index.vue"; "pages/users/index.vue"]
                 "src" "pages"))
    (allNodes (createRoutes ["pages/index.vue"; "pages/users/index.vue"]
                 "src" "pages")).
Proof.
  split; [vm_compute; reflexivity|].
  apply (index_suffix_stripped
           (buildRoutes ["pages/index.vue"; "pages/users/index.vue"]
              "src" "pages") false).
Defined.

(** ** The trailing index segment (C8) *)

(** C8, as stated, fails: of the two files [index.vue] and [index.js],
    whose only key is [index], the second is merged below the first and
    its route has the empty path, not ["/"]. *)
Lemma only_index_is_root_fails :
  ~ Stated.onlyIndexIsRoot ["pages/index.vue"; "pages/index.js"] "src" "pages".
Proof.
  intros H.
  specialize (H "pages/index.js" (or_intror (or_introl eq_refl)) eq_refl).
  vm_compute in H. discriminate H.
Qed.

(** C8 (amended): when no sibling at the cursor already has the name built
    for the file, a final [index] key adds no text to the path: as the only
    key it gives the route the path ["/"], and after earlier keys the route
    keeps the path built so far; an [index] key that is not the last one,
    with no sibling of the name built so far, adds the static text
    [/index] and the loop goes on. *)
Theorem trailing_index_adds_no_text
    (src : string * string) (chunk : string) (parent : list rawRoute) :
  (Forall (fun c => name c <> "index") parent ->
   place src chunk ["index"] 0 1 (mkPending "" "" None) parent
   = pushSorted parent (mkRoute "index" "/" src (Some chunk) None))
  /\
  (forall (cur : pending) (i : nat),
      (0 < i)%nat ->
      Forall (fun c => name c <> nextName (p_name cur) "index") parent ->
      place src chunk ["index"] i (S i) cur parent
      = pushSorted parent
          (mkRoute (nextName (p_name cur) "index") (p_path cur) src
             (Some chunk) None))
  /\
  (forall (cur : pending) (i len : nat) (key : string) (keys : list string),
      len = (i + 2 + length keys)%nat ->
      Forall (fun c => name c <> nextName (p_name cur) "index") parent ->
      place src chunk ("index" :: key :: keys) i len cur parent
      = place src chunk (key :: keys) (S i) len
          (mkPending (nextName (p_name cur) "index")
             (p_path cur ++ "/index") (Some chunk))
          parent).
Proof.
  split; [|split].
  - intros Hn. rewrite place_not_found by exact Hn. reflexivity.
  - intros cur i Hi Hn. rewrite place_not_found by exact Hn.
    cbn [place]. unfold nextPath. change (String.eqb "index" "index") with true.
    replace (i + 1 =? S i)%nat with true by (symmetry; apply Nat.eqb_eq; lia).
    replace (0 <? i)%nat with true by (symmetry; apply Nat.ltb_lt; lia).
    cbn [andb]. rewrite append_nil_r. reflexivity.
  - intros cur i len key keys Hlen Hn.
    rewrite place_not_found by exact Hn.
    unfold nextPath at 1. change (String.eqb "index" "index") with true.
    replace (i + 1 =? len)%nat with false by (symmetry; apply Nat.eqb_neq; lia).
    reflexivity.
Qed.

Lemma trailing_index_adds_no_text_witness :
  Forall (fun c : rawRoute => name c <> "index")
    (buildRoutes ["pages/about.vue"] "src" "pages") /\
  place ("src", "pages/index.vue") "pages/index" ["index"] 0 1
    (mkPending "" "" None) (buildRoutes ["pages/about.vue"] "src" "pages")
  = pushSorted (buildRoutes ["pages/about.vue"] "src" "pages")
      (mkRoute "index" "/" ("src", "pages/index.vue") (Some "pages/index") None).
Proof.
  assert (H : Forall (fun c : rawRoute => name c <> "index")
                (buildRoutes ["pages/about.vue"] "src" "pages")).
  { vm_compute. constructor; [discriminate|constructor]. }
  split; [exact H|].
  apply (proj1 (trailing_index_adds_no_text ("src", "pages/index.vue")
                  "pages/index" (buildRoutes ["pages/about.vue"] "src" "pages"))).
  exact H.
Defined.

(** ** The flattener (C9) *)

(** C9, as stated, fails: the flattener itself tests the path for [:] and
    [*]; a single leaf with the path [/:id] yields no string. *)
Lemma one_string_per_leaf_fails :
  ~ Stated.oneStringPerLeaf
      [mkRoute (Some "id") "/:id" ("src", "pages/_id.vue") (Some "pages/_id") None].
Proof. unfold Stated.oneStringPerLeaf. vm_compute. discriminate. Qed.

(** C9 (amended): [flatRoutes] itself skips every node whose path holds
    [:] or [*], with all nodes below it.  Every other node adds its
    strings after those of the siblings before it: a leaf adds one string,
    the prefix of the call followed by its path, where a prefix made of
    slashes only counts as one slash and loses its final slash before an
    empty path; a node with children adds, in a call with the empty prefix
    and when its path is ["/"], the string ["/"], and then what its
    children add in a call with the prefix followed by its path and a
    slash.  The prefix of a call is the one it was given, made one slash
    when it holds slashes only as soon as a leaf has been reached among the
    siblings before.  So the result holds one string for each leaf that is
    neither skipped nor below a skipped node and, in a call started from
    the empty prefix, the string ["/"] once more for each top-level node
    that has children and the path ["/"]. *)
Theorem flattener_skips_parameterized {N : Type} :
  (forall (r : route N) (_path : string) (routes : list string),
      skipped r = true -> Flattener.flatRoute r _path routes = (_path, routes))
  /\
  (forall (router : list (route N)),
      length (Flattener.flatRoutes router "" [])
      = (list_sum (map reachedLeaves router) + rootBranches router)%nat)
  /\
  (forall (prefix : string) (routes : list string),
      Flattener.flatRoutes (@nil (route N)) prefix routes = routes)
  /\
  (forall (l : list (route N)) (r : route N) (prefix : string)
          (routes : list string),
      Flattener.flatRoutes (l ++ [r]) prefix routes
      = (Flattener.flatRoutes l prefix routes
         ++ Yield.yield r (Yield.prefixAfter l prefix))%list)
  /\
  (forall (l : list (route N)), Yield.prefixAfter l "" = "")
  /\
  (forall prefix p : string,
      JS.allSlashes prefix = false -> p <> "" ->
      Yield.composed prefix p = prefix ++ p)
  /\
  (forall prefix : string,
      JS.allSlashes (prefix ++ "/") = false ->
      Yield.composed (prefix ++ "/") "" = prefix).
Proof.
  split; [apply flatRoute_skipped|].
  split; [intros router; rewrite flatRoutes_count; reflexivity|].
  split; [reflexivity|].
  split; [intros l r prefix routes; apply flatRoutes_snoc|].
  split.
  { intros l. unfold Yield.prefixAfter.
    destruct (existsb Yield.reachedLeaf l); reflexivity. }
  split.
  - intros prefix p Hs Hp. unfold Yield.composed, JS.normalizeSlashes.
    rewrite Hs. destruct (String.eqb_spec p ""); [contradiction|reflexivity].
  - intros prefix Hs. unfold Yield.composed, JS.normalizeSlashes.
    rewrite Hs. change (String.eqb "" "") with true. cbn [andb].
    assert (H : forall q, JS.lastIs "/" (q ++ "/") = true
                          /\ JS.dropLast (q ++ "/") = q).
    { induction q as [|c q [IH1 IH2]]; [split; reflexivity|].
      cbn [append JS.lastIs JS.dropLast].
      destruct (q ++ "/") eqn:E.
      - destruct q; discriminate E.
      - rewrite IH1, IH2. split; reflexivity. }
    destruct (H prefix) as [H1 H2]. rewrite H1, H2. apply append_nil_r.
Qed.

Lemma flattener_skips_parameterized_witness :
  skipped (mkRoute (Some "id") "/:id" ("src", "pages/_id.vue")
             (Some "pages/_id") None) = true /\
  Flattener.flatRoute
    (mkRoute (Some "id") "/:id" ("src", "pages/_id.vue") (Some "pages/_id") None)
    "" [] = ("", []).
Proof.
  split; [reflexivity|].
  apply (proj1 flattener_skips_parameterized). reflexivity.
Defined.

(** ** Empty paths (C10) *)



(** * Further properties of the code *)

(** ** The comparator *)

Lemma tokenClass_range (t : string) :
  (0 <= Orderer.tokenClass t <= 2)%Z.
Proof.
  unfold Orderer.tokenClass.
  destruct (String.eqb t "*"); [lia|].
  destruct (-1 <? JS.indexOf ":" t)%Z; lia.
Qed.

Lemma tokenLoop_range (rest _b : list string) :
  forall (i : nat) (res : Z) (i' : nat) (res' : Z),
    (-2 <= res <= 2)%Z ->
    Orderer.tokenLoop rest _b i res = Some (i', res') ->
    (-2 <= res' <= 2)%Z.
Proof.
  induction rest as [|ai rest IH]; intros i res i' res' Hr H;
    cbn [Orderer.tokenLoop] in H.
  - injection H as _ <-. exact Hr.
  - destruct (negb (res =? 0)%Z); [injection H as _ <-; exact Hr|].
    destruct (nth_error _b i) as [bi|]; [|discriminate H].
    apply IH in H; [exact H|].
    pose proof (tokenClass_range ai). pose proof (tokenClass_range bi).
    destruct ((Z.of_nat i =? Z.of_nat (length _b) - 1)%Z
              && (Orderer.tokenClass ai - Orderer.tokenClass bi =? 0)%Z);
      [destruct (String.eqb ai "*"); lia|lia].
Qed.

(** X1: the comparator of [createRoutes] returns a number for every two
    paths: it never reads a token of the second path that is not there.
    The number is 1, 2, -1 or -2, never 0: no two siblings compare as
    equal. *)
Theorem comparator_defined_never_zero (a b : string) :
  exists z, Orderer.comparePathsOpt a b = Some z
            /\ z <> 0%Z /\ (-2 <= z <= 2)%Z.
Proof.
  unfold Orderer.comparePathsOpt.
  destruct (String.length a =? 0)%nat; [exists (-1)%Z; repeat split; lia|].
  destruct (String.length b =? 0)%nat; [exists 1%Z; repeat split; lia|].
  destruct (String.eqb a "/");
    [destruct (JS.startsDynamic b); eexists; repeat split; lia|].
  destruct (String.eqb b "/");
    [destruct (JS.startsDynamic a); eexists; repeat split; lia|].
  unfold Orderer.compareTokens.
  destruct (Orderer.tokenLoop (JS.split "/" a) (JS.split "/" b) 0 0)
    as [[i res]|] eqn:H.
  - apply tokenLoop_range in H; [|lia].
    destruct (res =? 0)%Z eqn:E.
    + match goal with
      | |- context [if ?c then 1%Z else (-1)%Z] => destruct c
      end; eexists; repeat split; lia.
    + apply Z.eqb_neq in E. exists res. repeat split; lia.
  - exfalso. revert H. apply tokenLoop_total. right.
    pose proof (split_nonempty "/" b) as Hb.
    destruct (JS.split "/" b); [contradiction|simpl; lia].
Qed.

Lemma tokenClass_star_iff (t : string) :
  Orderer.tokenClass t = 2%Z <-> t = "*".
Proof.
  unfold Orderer.tokenClass. destruct (String.eqb_spec t "*") as [E|E].
  - split; auto.
  - destruct (-1 <? JS.indexOf ":" t)%Z; split; intros H;
      try discriminate H; contradiction.
Qed.

(** X2: the comparator is not antisymmetric.  Two paths other than the
    empty path and ["/"] that have the same number of tokens and tokens of
    the same class at every position get the same answer in both argument
    orders: each is greater than the other (1), or, when the last token is
    the catch-all, each is smaller than the other (-1). *)
Theorem comparator_same_answer_both_orders (a b : string) :
  a <> "" -> a <> "/" -> b <> "" -> b <> "/" ->
  length (JS.split "/" a) = length (JS.split "/" b) ->
  (forall m, (m < length (JS.split "/" a))%nat ->
             Orderer.tokenClass (nth m (JS.split "/" a) "")
             = Orderer.tokenClass (nth m (JS.split "/" b) "")) ->
  Orderer.comparePaths a b = Orderer.comparePaths b a /\
  Orderer.comparePaths a b
  = if String.eqb (nth (length (JS.split "/" a) - 1) (JS.split "/" a) "") "*"
    then (-1)%Z else 1%Z.
Proof.
  intros Ha Ha' Hb Hb' Hlen Hcl.
  set (_a := JS.split "/" a) in *. set (_b := JS.split "/" b) in *.
  assert (Hpos : (0 < length _a)%nat).
  { pose proof (split_nonempty "/" a) as Hne. fold _a in Hne.
    destruct _a; [contradiction|simpl; lia]. }
  unfold Orderer.comparePaths.
  rewrite !comparePaths_tokens by assumption. fold _a _b.
  rewrite (compareTokens_prefix _a _b)
    by (try lia; intros m Hm; apply Hcl; lia).
  rewrite (compareTokens_prefix _b _a)
    by (try lia; intros m Hm; symmetry; apply Hcl; lia).
  rewrite <- Hlen. split; [|reflexivity].
  specialize (Hcl (length _a - 1)%nat ltac:(lia)).
  destruct (String.eqb_spec (nth (length _a - 1) _a "") "*") as [E|E];
    destruct (String.eqb_spec (nth (length _a - 1) _b "") "*") as [E'|E'];
    try reflexivity; exfalso.
  - apply E'. apply tokenClass_star_iff. rewrite <- Hcl.
    apply tokenClass_star_iff, E.
  - apply E. apply tokenClass_star_iff. rewrite Hcl.
    apply tokenClass_star_iff, E'.
Qed.

Lemma comparator_same_answer_both_orders_witness :
  Orderer.comparePaths "/about" "/users" = 1%Z /\
  Orderer.comparePaths "/about" "/users" = Orderer.comparePaths "/users" "/about".
Proof.
  split; [reflexivity|].
  assert (Hcl : forall m, (m < length (JS.split "/" "/about"))%nat ->
                 Orderer.tokenClass (nth m (JS.split "/" "/about") "")
                 = Orderer.tokenClass (nth m (JS.split "/" "/users") "")).
  { intros m Hm. destruct m as [|[|m]]; reflexivity. }
  apply (proj1 (comparator_same_answer_both_orders "/about" "/users"
                  ltac:(discriminate) ltac:(discriminate)
                  ltac:(discriminate) ltac:(discriminate) eq_refl Hcl)).
Defined.

(** ** Names of siblings *)

Lemma filter_perm {A : Type} (f : A -> bool) (l l' : list A) :
  Permutation l l' -> Permutation (filter f l) (filter f l').
Proof.
  induction 1 as [|x l l' _ IH|x y l|l l' l'' _ IH1 _ IH2]; simpl.
  - constructor.
  - destruct (f x); [constructor|]; exact IH.
  - destruct (f x); destruct (f y); try apply Permutation_refl.
    apply perm_swap.
  - eapply Permutation_trans; eassumption.
Qed.

Lemma DistinctNames_nil (e : string) : DistinctNames e [].
Proof. constructor; [constructor|]. intros r cs []. Qed.

Lemma map_name_setChildren (l1 l2 : list rawRoute) (child : rawRoute)
    (cs : option (list rawRoute)) :
  map name (l1 ++ setChildren child cs :: l2)
  = map name (l1 ++ child :: l2).
Proof. rewrite !map_app. destruct child; reflexivity. Qed.

Lemma place_distinct (src : string * string) (chunk : string)
    (keys : list string) :
  forall (i len : nat) (cur : pending) (e : string) (parent : list rawRoute),
    DistinctNames e parent ->
    p_name cur = e \/ Forall (fun c => name c <> p_name cur) parent ->
    DistinctNames e (place src chunk keys i len cur parent).
Proof.
  induction keys as [|key keys IH]; intros i len cur e parent HD Hn.
  - cbn [place]. inversion HD as [? Hnd Hch]; subst.
    constructor.
    + eapply Permutation_NoDup.
      * apply Permutation_sym, filter_perm, Permutation_map, pushSorted_perm.
      * cbn [map name filter].
        destruct (String.eqb_spec (p_name cur) e) as [E|E]; cbn [negb];
          [exact Hnd|].
        constructor; [|exact Hnd].
        intros Hin. apply filter_In in Hin as [Hin _].
        apply in_map_iff in Hin as (c & Hc & Hin).
        destruct Hn as [Hn|Hn]; [contradiction|].
        rewrite Forall_forall in Hn. exact (Hn c Hin Hc).
    + intros r cs Hin Hcs.
      apply (Permutation_in _ (pushSorted_perm _ _)) in Hin.
      destruct Hin as [<-|Hin]; [discriminate|]. exact (Hch r cs Hin Hcs).
  - cbn [place].
    destruct (findByName (nextName (p_name cur) key) parent) as [[k child]|] eqn:F.
    + destruct (findByName_spec _ _ _ _ F) as (Hname & l1 & l2 & -> & <- & _).
      rewrite setAt_middle.
      inversion HD as [? Hnd Hch]; subst.
      constructor.
      * rewrite map_name_setChildren. exact Hnd.
      * intros r cs Hin Hcs.
        apply in_app_or in Hin. destruct Hin as [Hin|[<-|Hin]].
        -- apply (Hch r cs); [apply in_or_app; left; assumption|assumption].
        -- destruct child as [n p c ch cs0];
             cbn [setChildren children name] in *.
           injection Hcs as <-.
           apply IH; [|left; cbn [p_name]; exact (eq_sym Hname)].
           destruct cs0 as [cs0|]; [|apply DistinctNames_nil].
           apply (Hch (mkRoute n p c ch (Some cs0)) cs0);
             [apply in_or_app; right; left; reflexivity|reflexivity].
        -- apply (Hch r cs); [apply in_or_app; right; right; assumption|assumption].
    + apply IH; [exact HD|]. right. cbn [p_name].
      apply findByName_none, F.
Qed.

(** X3: in the forest [createRoutes] builds, before the collapser, no two
    root nodes share a non-empty name, and below every node no two children
    share a name other than the name of that node (a file whose whole name
    an existing node already has is pushed below it under the same
    name). *)
Theorem built_names_distinct (files : list string) (srcDir pagesDir : string) :
  DistinctNames "" (buildRoutes files srcDir pagesDir).
Proof.
  unfold buildRoutes. generalize (@nil rawRoute) (DistinctNames_nil "").
  induction files as [|f fs IH]; intros routes HD; simpl; [exact HD|].
  apply IH. unfold addFile. apply place_distinct; [exact HD|left; reflexivity].
Qed.

(** ** The path text under the collapser *)

Lemma withoutMarks_app (s t : string) :
  withoutMarks (s ++ t) = withoutMarks s ++ withoutMarks t.
Proof.
  induction s as [|c s IH]; [reflexivity|]. cbn [append withoutMarks].
  destruct (Ascii.eqb c "?"); [exact IH|]. cbn [append]. rewrite IH. reflexivity.
Qed.

Lemma withoutMarks_replace (t : string) :
  withoutMarks (JS.replace "?" "" t) = withoutMarks t.
Proof.
  induction t as [|c t IH]; [reflexivity|]. cbn [JS.replace withoutMarks].
  destruct (Ascii.eqb c "?") eqn:E; [reflexivity|].
  cbn [withoutMarks]. rewrite E, IH. reflexivity.
Qed.

Lemma withoutMarks_join (l : list string) :
  withoutMarks (JS.join "/" l) = JS.join "/" (map withoutMarks l).
Proof.
  unfold JS.join. induction l as [|x l IH]; [reflexivity|].
  destruct l as [|y l]; [reflexivity|].
  rewrite concat_cons2. cbn [map]. rewrite concat_cons2.
  rewrite !withoutMarks_app. cbn [map] in IH. rewrite IH. reflexivity.
Qed.

Lemma map_setAt_same {A B : Type} (f : A -> B) (l : list A) (a : nat)
    (p q : A) :
  nth_error l a = Some p -> f q = f p -> map f (JS.setAt a q l) = map f l.
Proof.
  revert a; induction l as [|x l IH]; intros a Hn Hf;
    [destruct a; discriminate Hn|].
  destruct a as [|a]; cbn [JS.setAt map nth_error] in *.
  - injection Hn as ->. rewrite Hf. reflexivity.
  - rewrite (IH a Hn Hf). reflexivity.
Qed.

Lemma stripLoop_marks (steps : nat) :
  forall (a i : nat) (names r paths : list string),
    map withoutMarks (Collapser.stripLoop steps a i names r paths)
    = map withoutMarks paths.
Proof.
  induction steps as [|steps IH]; intros a i names r paths; [reflexivity|].
  cbn [Collapser.stripLoop].
  assert (E : map withoutMarks
                (if (a =? i)%nat
                 then match nth_error paths a with
                      | Some p => JS.setAt a (JS.replace "?" "" p) paths
                      | None => paths
                      end
                 else paths)
              = map withoutMarks paths).
  { destruct (a =? i)%nat; [|reflexivity].
    destruct (nth_error paths a) as [p|] eqn:Hn; [|reflexivity].
    apply (map_setAt_same _ _ _ p); [exact Hn|apply withoutMarks_replace]. }
  destruct ((a <? i)%nat && negb (JS.eqOpt (nth_error names a) (nth_error r a)));
    [exact E|].
  rewrite IH. exact E.
Qed.

Lemma stripSteps_marks (start : Z) (names : list string)
    (routesIndex : list (list string)) :
  forall paths,
    map withoutMarks
      (fold_left (Collapser.stripStep start names) routesIndex paths)
    = map withoutMarks paths.
Proof.
  induction routesIndex as [|r idx IH]; intros paths; [reflexivity|].
  cbn [fold_left]. rewrite IH. unfold Collapser.stripStep.
  destruct ((JS.arrayIndexOf "index" r - start <? Z.of_nat (length paths))%Z
            && (0 <=? JS.arrayIndexOf "index" r - start)%Z);
    [apply stripLoop_marks|reflexivity].
Qed.

Lemma cleanPath_marks (isChild : bool) (start : Z)
    (routesIndex : list (list string)) (raw : rawRoute) :
  (isChild = false -> path raw = "" \/ exists q, path raw = String "/" q) ->
  withoutMarks (Collapser.cleanPath isChild start routesIndex raw)
  = withoutMarks (if isChild then JS.replace "/" "" (path raw) else path raw).
Proof.
  intros Hroot. unfold Collapser.cleanPath.
  set (p := if isChild then JS.replace "/" "" (path raw) else path raw).
  destruct (-1 <? JS.indexOf "?" p)%Z eqn:Hq; [|reflexivity].
  unfold Collapser.fixOptional. rewrite withoutMarks_app, withoutMarks_join.
  rewrite stripSteps_marks, <- withoutMarks_join, <- withoutMarks_app.
  f_equal. destruct isChild.
  - cbn [append]. apply join_split.
  - subst p. destruct (Hroot eq_refl) as [E|[q E]]; rewrite E in *.
    + discriminate Hq.
    + rewrite split_cons_sep. cbn [tl]. rewrite join_split. reflexivity.
Qed.

(** X4: the collapser changes no text of a path but question marks and,
    for children, the first slash: without its question marks, the new path
    of a child is its old path with the first slash removed, and the new
    path of a root node whose old path is empty or starts with a slash is
    its old path. *)
Theorem collapser_keeps_path_text (routes : list rawRoute) :
  Forall2 (fun raw out =>
             withoutMarks (path out)
             = withoutMarks (JS.replace "/" "" (path raw)))
    routes (Collapser.cleanChildrenRoutes routes true)
  /\
  (Forall (fun raw => path raw = "" \/ exists q, path raw = String "/" q)
     routes ->
   Forall2 (fun raw out => withoutMarks (path out) = withoutMarks (path raw))
     routes (Collapser.cleanChildrenRoutes routes false)).
Proof.
  unfold Collapser.cleanChildrenRoutes.
  destruct (Collapser.scanIndex routes) as [start idx].
  split.
  - induction routes as [|r routes IH]; cbn [map]; constructor; [|exact IH].
    destruct (cleanOne_fields true start idx r) as (Hp & _).
    cbv zeta in Hp. rewrite Hp.
    apply (cleanPath_marks true). discriminate.
  - intros H. induction H as [|r routes Hr _ IH]; cbn [map]; constructor;
      [|exact IH].
    destruct (cleanOne_fields false start idx r) as (Hp & _).
    cbv zeta in Hp. rewrite Hp.
    apply (cleanPath_marks false). intros _. exact Hr.
Qed.

Lemma collapser_keeps_path_text_witness :
  Forall (fun raw : rawRoute => path raw = "" \/ exists q, path raw = String "/" q)
    (buildRoutes ["pages/index.vue"; "pages/users/_id.vue"] "src" "pages") /\
  Forall2 (fun raw out => withoutMarks (path out) = withoutMarks (path raw))
    (buildRoutes ["pages/index.vue"; "pages/users/_id.vue"] "src" "pages")
    (createRoutes ["pages/index.vue"; "pages/users/_id.vue"] "src" "pages").
Proof.
  assert (H : Forall (fun raw : rawRoute =>
                        path raw = "" \/ exists q, path raw = String "/" q)
                (buildRoutes ["pages/index.vue"; "pages/users/_id.vue"]
                   "src" "pages")).
  { vm_compute. repeat (apply Forall_cons; [right; eexists; reflexivity|]).
    apply Forall_nil. }
  split; [exact H|].
  exact (proj2 (collapser_keeps_path_text
                  (buildRoutes ["pages/index.vue"; "pages/users/_id.vue"]
                     "src" "pages")) H).
Defined.

(** ** The paths the builder assigns *)

Lemma rooted_append (p x : string) :
  rooted p = true -> rooted (p ++ String "/" x) = true.
Proof. destruct p as [|c p]; intros H; [reflexivity|exact H]. Qed.

Lemma nextPath_rooted (p key : string) (i len : nat) :
  rooted p = true -> rooted (nextPath p key i len) = true.
Proof.
  intros H. unfold nextPath.
  destruct (String.eqb key "index" && (i + 1 =? len)%nat).
  - destruct (0 <? i)%nat; [rewrite append_nil_r; exact H|].
    apply rooted_append, H.
  - destruct (negb (String.eqb key "_") && (JS.indexOf "_" key =? 0)%Z);
      [rewrite append_assoc|]; apply rooted_append, H.
Qed.

(** X5: every path [createRoutes] assigns while it builds the forest is
    empty or starts with a slash, in every sibling list: the collapser,
    which drops the first token of a root path that holds a question mark,
    never drops text there. *)
Theorem built_paths_rooted (files : list string) (srcDir pagesDir : string) :
  Siblings (fun l => forallb (fun r => rooted (path r)) l = true)
    (buildRoutes files srcDir pagesDir).
Proof.
  apply (buildRoutes_siblings
           (fun l => forallb (fun r => rooted (path r)) l = true)
           (fun p => rooted p = true) (fun _ => True)).
  - reflexivity.
  - intros l l' E H.
    assert (F : forall l0 : list rawRoute,
               forallb (fun r => rooted (path r)) l0
               = forallb rooted (map path l0)).
    { induction l0 as [|x l0 IH]; simpl; [reflexivity|]. rewrite IH. reflexivity. }
    rewrite F, <- E, <- F. exact H.
  - intros parent r Hp Hr. apply forallb_forall. intros x Hx.
    apply (Permutation_in _ (pushSorted_perm _ _)) in Hx.
    destruct Hx as [<-|Hx]; [exact Hr|].
    exact (proj1 (forallb_forall _ _) Hp x Hx).
  - reflexivity.
  - intros p key i len _ H. apply nextPath_rooted, H.
  - apply Forall_forall. intros f _. apply Forall_forall. intros k _. exact I.
Qed.

(** ** What the flattener yields *)

Lemma unparameterized_app (s t : string) :
  unparameterized (s ++ t) = unparameterized s && unparameterized t.
Proof.
  unfold unparameterized. rewrite !includes_append.
  destruct (JS.includes ":" s), (JS.includes ":" t),
    (JS.includes "*" s), (JS.includes "*" t); reflexivity.
Qed.

Lemma includes_dropLast (c : ascii) (s : string) :
  JS.includes c s = false -> JS.includes c (JS.dropLast s) = false.
Proof.
  induction s as [|x s IH]; [reflexivity|].
  rewrite includes_cons. intros H. apply orb_false_iff in H as [Hx Hs].
  cbn [JS.dropLast]. destruct s as [|y s]; [reflexivity|].
  rewrite includes_cons, Hx. exact (IH Hs).
Qed.

Lemma unparameterized_dropLast (s : string) :
  unparameterized s = true -> unparameterized (JS.dropLast s) = true.
Proof.
  unfold unparameterized. intros H. apply andb_true_iff in H as [H1 H2].
  apply negb_true_iff in H1, H2.
  rewrite (includes_dropLast _ _ H1), (includes_dropLast _ _ H2). reflexivity.
Qed.

Lemma unparameterized_normalize (s : string) :
  unparameterized s = true -> unparameterized (JS.normalizeSlashes s) = true.
Proof.
  unfold JS.normalizeSlashes. destruct (JS.allSlashes s); [reflexivity|auto].
Qed.

Section FlatMore.
Context {N : Type}.

Lemma flatRoute_unparameterized (r : route N) :
  forall _path routes,
    unparameterized _path = true ->
    forallb unparameterized routes = true ->
    unparameterized (fst (Flattener.flatRoute r _path routes)) = true /\
    forallb unparameterized (snd (Flattener.flatRoute r _path routes)) = true.
Proof.
  induction r as [n p c ch cs IH] using route_nested_ind.
  intros _path routes Hp Hr.
  destruct (JS.includes ":" p || JS.includes "*" p) eqn:Hs.
  - rewrite flatRoute_skipped by exact Hs. split; assumption.
  - assert (Hu : unparameterized p = true).
    { unfold unparameterized. rewrite <- negb_orb, Hs. reflexivity. }
    destruct cs as [l|].
    + rewrite flatRoute_branch by exact Hs. cbn [fst snd].
      split; [exact Hp|].
      assert (G : forall _p acc,
                 unparameterized _p = true ->
                 forallb unparameterized acc = true ->
                 forallb unparameterized (Flattener.flatRoutes l _p acc) = true).
      { clear - IH. induction IH as [|x l Hx _ IHl]; intros _p acc H1 H2.
        - exact H2.
        - cbn [Flattener.flatRoutes].
          destruct (Hx _p acc H1 H2) as [H3 H4].
          destruct (Flattener.flatRoute x _p acc) as [_p' acc'].
          apply IHl; assumption. }
      apply G.
      * rewrite !unparameterized_app, Hp, Hu. reflexivity.
      * destruct (String.eqb _path "" && String.eqb p "/"); [|exact Hr].
        rewrite forallb_app, Hr. reflexivity.
    + rewrite flatRoute_leaf by exact Hs. cbn [fst snd].
      pose proof (unparameterized_normalize _ Hp) as Hn.
      split; [exact Hn|].
      rewrite forallb_app, Hr. cbn [forallb andb].
      rewrite unparameterized_app, Hu, !andb_true_r.
      destruct (String.eqb p "" && JS.lastIs "/" (JS.normalizeSlashes _path));
        [apply unparameterized_dropLast|]; exact Hn.
Qed.

End FlatMore.

(** X6: [flatRoutes], called with the empty prefix, yields no string that
    holds a colon or a star, whatever the forest: dynamic and catch-all
    routes never reach the list of static routes. *)
Theorem flattener_yields_static_paths {N : Type} (router : list (route N)) :
  forallb unparameterized (Flattener.flatRoutes router "" []) = true.
Proof.
  assert (G : forall (l : list (route N)) _p acc,
             unparameterized _p = true ->
             forallb unparameterized acc = true ->
             forallb unparameterized (Flattener.flatRoutes l _p acc) = true).
  { induction l as [|x l IHl]; intros _p acc H1 H2.
    - exact H2.
    - cbn [Flattener.flatRoutes].
      destruct (flatRoute_unparameterized x _p acc H1 H2) as [H3 H4].
      destruct (Flattener.flatRoute x _p acc) as [_p' acc'].
      apply IHl; assumption. }
  apply G; reflexivity.
Qed.

(** X7: [flatRoutes] only appends to the array it is given: the result for
    an array [routes] is [routes] followed by the result for the empty
    array, for every forest and prefix. *)
Theorem flattener_appends {N : Type} (router : list (route N))
    (_path : string) (routes : list string) :
  Flattener.flatRoutes router _path routes
  = (routes ++ Flattener.flatRoutes router _path [])%list.
Proof.
  revert _path routes; induction router as [|x l IHl]; intros _p acc.
  - cbn [Flattener.flatRoutes]. rewrite app_nil_r. reflexivity.
  - cbn [Flattener.flatRoutes].
    destruct (flatRoute_accumulates x _p acc) as [H1 H2].
    destruct (Flattener.flatRoute x _p acc) as [_p1 acc1].
    destruct (Flattener.flatRoute x _p []) as [_p0 acc0].
    cbn [fst snd] in H1, H2. subst _p1 acc1.
    rewrite (IHl _p0 (acc ++ acc0)%list), (IHl _p0 acc0).
    rewrite app_assoc. reflexivity.
Qed.

(** ** The keys of a file *)

Lemma replacePrefix_app (pre s : string) : JS.replacePrefix pre (pre ++ s) = s.
Proof.
  unfold JS.replacePrefix.
  assert (H : JS.stripPrefix pre (pre ++ s) = Some s).
  { induction pre as [|c pre IH]; cbn [append JS.stripPrefix].
    - destruct s; reflexivity.
    - rewrite Ascii.eqb_refl. exact IH. }
  rewrite H. reflexivity.
Qed.

Lemma endsWith_vue_js (s : string) : JS.endsWith ".vue" (s ++ ".js") = false.
Proof.
  induction s as [|c s IH]; [reflexivity|].
  cbn [append JS.endsWith].
  destruct (String.eqb_spec (String c (s ++ ".js")) ".vue") as [E|_];
    [|exact IH].
  exfalso. injection E as _ E.
  destruct s as [|c1 [|c2 s]]; try discriminate E.
  apply (f_equal String.length) in E. cbn [append String.length] in E.
  rewrite length_append in E. simpl in E. lia.
Qed.

Lemma stripExt_vue (s : string) : JS.stripExt (s ++ ".vue") = s.
Proof.
  unfold JS.stripExt. rewrite endsWith_app.
  apply stripSuffix_app. discriminate.
Qed.

Lemma stripExt_js (s : string) : JS.stripExt (s ++ ".js") = s.
Proof.
  unfold JS.stripExt. rewrite endsWith_vue_js.
  apply stripSuffix_app. discriminate.
Qed.

Lemma collapseSlashes_fix (s : string) :
  noDoubleSlash s = true -> JS.collapseSlashes s = s.
Proof.
  induction s as [|c s IH]; [reflexivity|].
  cbn [noDoubleSlash JS.collapseSlashes].
  destruct s as [|c' s]; [reflexivity|].
  intros H. apply andb_true_iff in H as [H1 H2].
  apply negb_true_iff in H1. rewrite H1, (IH H2). reflexivity.
Qed.

Lemma noDoubleSlash_plain (k t : string) :
  JS.includes "/" k = false ->
  noDoubleSlash (k ++ t) = noDoubleSlash t.
Proof.
  induction k as [|c k IH]; [reflexivity|].
  rewrite includes_cons. intros H. apply orb_false_iff in H as [Hc Hk].
  cbn [append noDoubleSlash]. rewrite <- (IH Hk).
  destruct (k ++ t) as [|c' u]; [destruct t; reflexivity || discriminate|].
  rewrite Hc. reflexivity.
Qed.

Lemma noDoubleSlash_head (c : ascii) (u : string) :
  Ascii.eqb c "/" = false ->
  noDoubleSlash (String "/" (String c u)) = noDoubleSlash (String c u).
Proof.
  intros Hc.
  change (noDoubleSlash (String "/" (String c u)))
    with (negb (Ascii.eqb "/" "/" && Ascii.eqb c "/")
          && noDoubleSlash (String c u)).
  rewrite Hc, andb_false_r. reflexivity.
Qed.

Lemma noDoubleSlash_segment (k t : string) :
  segment k ->
  noDoubleSlash (String "/" (k ++ t)) = noDoubleSlash t.
Proof.
  intros [Hk Hs]. destruct k as [|c k]; [contradiction|].
  pose proof Hs as Hs0.
  rewrite includes_cons in Hs. apply orb_false_iff in Hs as [Hc _].
  cbn [append]. rewrite noDoubleSlash_head by exact Hc.
  exact (noDoubleSlash_plain (String c k) t Hs0).
Qed.

Lemma split_segment (k t : string) :
  segment k ->
  JS.split "/" (k ++ String "/" t) = k :: JS.split "/" t.
Proof.
  intros [_ Hs]. induction k as [|c k IH]; [reflexivity|].
  rewrite includes_cons in Hs. apply orb_false_iff in Hs as [Hc Hs].
  cbn [append JS.split]. rewrite Hc, (IH Hs). reflexivity.
Qed.

Lemma join_segments (keys : list string) :
  keys <> [] -> Forall segment keys ->
  noDoubleSlash (String "/" (JS.join "/" keys)) = true /\
  JS.split "/" (JS.join "/" keys) = keys.
Proof.
  unfold JS.join. intros Hne H. induction H as [|k keys Hk Hrest IH];
    [contradiction|].
  destruct keys as [|k' keys].
  - cbn [String.concat]. split.
    + rewrite <- (append_nil_r k). apply (noDoubleSlash_segment k "" Hk).
    + apply split_plain, Hk.
  - destruct (IH ltac:(discriminate)) as [IH1 IH2].
    rewrite concat_cons2. split.
    + rewrite (noDoubleSlash_segment k _ Hk). exact IH1.
    + change ("/" ++ String.concat "/" (k' :: keys))
        with (String "/" (String.concat "/" (k' :: keys))).
      rewrite (split_segment k _ Hk), IH2. reflexivity.
Qed.

(** X8: the keys of a file are the segments of its path below [pagesDir]:
    when [pagesDir] holds no character that a regular expression reads as
    syntax, and the segments are not empty and hold no slash, the file
    [pagesDir/k1/.../kn.vue] (or [.js]) has exactly the keys
    [k1 ... kn]. *)
Theorem fileKeys_of_segments (pagesDir : string) (keys : list string) :
  literalPattern pagesDir = true ->
  keys <> [] -> Forall segment keys ->
  fileKeys pagesDir (pagesDir ++ "/" ++ JS.join "/" keys ++ ".vue") = keys /\
  fileKeys pagesDir (pagesDir ++ "/" ++ JS.join "/" keys ++ ".js") = keys.
Proof.
  intros _ Hne H. destruct (join_segments keys Hne H) as [H1 H2].
  unfold fileKeys. rewrite !replacePrefix_app.
  change ("/" ++ JS.join "/" keys ++ ".vue")
    with (String "/" (JS.join "/" keys) ++ ".vue").
  change ("/" ++ JS.join "/" keys ++ ".js")
    with (String "/" (JS.join "/" keys) ++ ".js").
  rewrite stripExt_vue, stripExt_js, (collapseSlashes_fix _ H1).
  rewrite split_cons_sep, H2. split; reflexivity.
Qed.

Lemma fileKeys_of_segments_witness :
  literalPattern "pages" = true /\
  ["users"; "_id"] <> [] /\ Forall segment ["users"; "_id"] /\
  fileKeys "pages" ("pages" ++ "/" ++ JS.join "/" ["users"; "_id"] ++ ".vue")
  = ["users"; "_id"].
Proof.
  assert (H : Forall segment ["users"; "_id"]).
  { repeat (apply Forall_cons; [split; [discriminate|reflexivity]|]).
    apply Forall_nil. }
  split; [reflexivity|]. split; [discriminate|]. split; [exact H|].
  exact (proj1 (fileKeys_of_segments "pages" ["users"; "_id"]
                  eq_refl ltac:(discriminate) H)).
Defined.

(** ** [encodeHtml] *)

Lemma replaceAll_absent (c : ascii) (r s : string) :
  JS.includes c s = false -> Utils.replaceAll c r s = s.
Proof.
  induction s as [|x s IH]; [reflexivity|].
  rewrite includes_cons. intros H. apply orb_false_iff in H as [Hx Hs].
  cbn [Utils.replaceAll]. rewrite Hx, (IH Hs). reflexivity.
Qed.

Lemma replaceAll_includes (c d : ascii) (r s : string) :
  JS.includes d r = false ->
  JS.includes d (Utils.replaceAll c r s)
  = if Ascii.eqb c d then false
    else JS.includes d s.
Proof.
  intros Hr. induction s as [|x s IH]; cbn [Utils.replaceAll].
  - destruct (Ascii.eqb c d); reflexivity.
  - rewrite includes_cons. destruct (Ascii.eqb_spec x c) as [->|Hx].
    + rewrite includes_append, Hr, IH. cbn [orb].
      destruct (Ascii.eqb c d); reflexivity.
    + rewrite includes_cons, IH.
      destruct (Ascii.eqb_spec c d) as [->|Hcd].
      * destruct (Ascii.eqb_spec x d); [contradiction|reflexivity].
      * reflexivity.
Qed.

(** X9: the result of [encodeHtml] holds neither [<] nor [>]; a string
    without them is returned as it is, so that encoding twice is encoding
    once. *)
Theorem encodeHtml_no_angle_brackets (str : string) :
  JS.includes "<" (Utils.encodeHtml str) = false /\
  JS.includes ">" (Utils.encodeHtml str) = false /\
  (JS.includes "<" str = false -> JS.includes ">" str = false ->
   Utils.encodeHtml str = str) /\
  Utils.encodeHtml (Utils.encodeHtml str) = Utils.encodeHtml str.
Proof.
  assert (H1 : JS.includes "<" (Utils.encodeHtml str) = false).
  { unfold Utils.encodeHtml.
    rewrite (replaceAll_includes ">" "<") by reflexivity.
    change (Ascii.eqb ">" "<") with false. cbv iota.
    rewrite (replaceAll_includes "<" "<") by reflexivity.
    rewrite Ascii.eqb_refl. reflexivity. }
  assert (H2 : JS.includes ">" (Utils.encodeHtml str) = false).
  { unfold Utils.encodeHtml.
    rewrite (replaceAll_includes ">" ">") by reflexivity.
    rewrite Ascii.eqb_refl. reflexivity. }
  assert (H3 : forall s, JS.includes "<" s = false -> JS.includes ">" s = false ->
                         Utils.encodeHtml s = s).
  { intros s Ha Hb. unfold Utils.encodeHtml.
    rewrite (replaceAll_absent "<" _ s Ha). apply replaceAll_absent, Hb. }
  repeat split; [exact H1|exact H2|apply H3|apply H3; assumption].
Qed.

Lemma encodeHtml_no_angle_brackets_witness :
  Utils.encodeHtml "<b>a</b>" = "&lt;b&gt;a&lt;/b&gt;" /\
  JS.includes "<" "a&amp;b" = false /\ JS.includes ">" "a&amp;b" = false /\
  Utils.encodeHtml "a&amp;b" = "a&amp;b".
Proof.
  split; [reflexivity|]. split; [reflexivity|]. split; [reflexivity|].
  apply (proj1 (proj2 (proj2 (encodeHtml_no_angle_brackets "a&amp;b"))));
    reflexivity.
Defined.

(** ** [urlJoin] *)

Lemma collapseSlashes_head (s : string) (c : ascii) :
  exists u, JS.collapseSlashes (String c s) = String c u.
Proof.
  revert c; induction s as [|c' s IH]; intros c.
  - exists "". reflexivity.
  - cbn [JS.collapseSlashes].
    destruct (Ascii.eqb_spec c "/") as [->|Hc]; cbn [andb].
    + destruct (Ascii.eqb_spec c' "/") as [->|Hc'].
      * apply IH.
      * eexists. reflexivity.
    + eexists. reflexivity.
Qed.

Lemma noDoubleSlash_cons2 (c c' : ascii) (u : string) :
  noDoubleSlash (String c (String c' u))
  = negb (Ascii.eqb c "/" && Ascii.eqb c' "/") && noDoubleSlash (String c' u).
Proof. reflexivity. Qed.

Lemma collapseSlashes_cons2 (c c' : ascii) (s : string) :
  JS.collapseSlashes (String c (String c' s))
  = if Ascii.eqb c "/" && Ascii.eqb c' "/"
    then JS.collapseSlashes (String c' s)
    else String c (JS.collapseSlashes (String c' s)).
Proof. reflexivity. Qed.

Lemma collapseSlashes_noDouble (s : string) :
  noDoubleSlash (JS.collapseSlashes s) = true.
Proof.
  induction s as [|c s IH]; [reflexivity|].
  destruct s as [|c' s]; [reflexivity|].
  rewrite collapseSlashes_cons2.
  destruct (Ascii.eqb c "/" && Ascii.eqb c' "/") eqn:E; [exact IH|].
  destruct (collapseSlashes_head s c') as [u Hu]. rewrite Hu in *.
  rewrite noDoubleSlash_cons2, E. exact IH.
Qed.

Lemma replaceColonSlash_cons2 (x y : ascii) (s : string) :
  Utils.replaceColonSlash (String x (String y s))
  = if Ascii.eqb x ":" && Ascii.eqb y "/" then "://" ++ s
    else String x (Utils.replaceColonSlash (String y s)).
Proof. reflexivity. Qed.

Lemma replaceColonSlash_head (s : string) (c : ascii) :
  exists u, Utils.replaceColonSlash (String c s) = String c u.
Proof.
  destruct s as [|y s]; [exists ""; reflexivity|].
  rewrite replaceColonSlash_cons2.
  destruct (Ascii.eqb_spec c ":") as [->|Hc]; cbn [andb].
  - destruct (Ascii.eqb y "/"); eexists; reflexivity.
  - eexists; reflexivity.
Qed.

(** Collapsing the slashes undoes the replacement of the first [:/]. *)
Lemma collapse_replaceColonSlash (s : string) :
  noDoubleSlash s = true ->
  JS.collapseSlashes (Utils.replaceColonSlash s) = s.
Proof.
  induction s as [|x s IH]; [reflexivity|].
  destruct s as [|y s]; [reflexivity|].
  rewrite noDoubleSlash_cons2. intros H. apply andb_true_iff in H as [H1 H2].
  apply negb_true_iff in H1.
  rewrite replaceColonSlash_cons2.
  destruct (Ascii.eqb_spec x ":") as [->|Hx]; cbn [andb].
  - destruct (Ascii.eqb_spec y "/") as [->|Hy].
    + change ("://" ++ s) with (String ":" (String "/" (String "/" s))).
      rewrite collapseSlashes_cons2. change (Ascii.eqb ":" "/") with false.
      cbn [andb]. rewrite collapseSlashes_cons2, Ascii.eqb_refl. cbn [andb].
      rewrite (collapseSlashes_fix _ H2). reflexivity.
    + specialize (IH H2).
      destruct (replaceColonSlash_head s y) as [u Hu]. rewrite Hu in *.
      rewrite collapseSlashes_cons2. change (Ascii.eqb ":" "/") with false.
      cbn [andb]. rewrite IH. reflexivity.
  - specialize (IH H2).
    destruct (replaceColonSlash_head s y) as [u Hu]. rewrite Hu in *.
    rewrite collapseSlashes_cons2, H1, IH. reflexivity.
Qed.

(** X10: [urlJoin] is idempotent: joining the single string that a call
    returned gives that string again; in particular the one double slash
    a result may hold, after the first colon, is kept. *)
Theorem urlJoin_idempotent (args : list string) :
  Utils.urlJoin [Utils.urlJoin args] = Utils.urlJoin args.
Proof.
  unfold Utils.urlJoin at 1. unfold JS.join. cbn [String.concat].
  unfold Utils.urlJoin.
  rewrite collapse_replaceColonSlash by apply collapseSlashes_noDouble.
  reflexivity.
Qed.

Lemma includes_collapse (c : ascii) (s : string) :
  JS.includes c s = false -> JS.includes c (JS.collapseSlashes s) = false.
Proof.
  induction s as [|x s IH]; [reflexivity|].
  rewrite includes_cons. intros H. apply orb_false_iff in H as [Hx Hs].
  destruct s as [|y s];
    [cbn [JS.collapseSlashes]; rewrite includes_cons, Hx; reflexivity|].
  rewrite collapseSlashes_cons2.
  destruct (Ascii.eqb x "/" && Ascii.eqb y "/"); [exact (IH Hs)|].
  rewrite includes_cons, Hx. exact (IH Hs).
Qed.

Lemma replaceColonSlash_absent (s : string) :
  JS.includes ":" s = false -> Utils.replaceColonSlash s = s.
Proof.
  induction s as [|x s IH]; [reflexivity|].
  rewrite includes_cons. intros H. apply orb_false_iff in H as [Hx Hs].
  destruct s as [|y s]; [reflexivity|].
  rewrite replaceColonSlash_cons2, Hx. cbn [andb]. rewrite (IH Hs). reflexivity.
Qed.

Lemma includes_join (c : ascii) (l : list string) :
  Ascii.eqb "/" c = false ->
  Forall (fun a => JS.includes c a = false) l ->
  JS.includes c (JS.join "/" l) = false.
Proof.
  intros Hc H. unfold JS.join. induction H as [|a l Ha _ IH]; [reflexivity|].
  destruct l as [|b l]; [exact Ha|].
  rewrite concat_cons2, !includes_append, Ha, IH.
  change "/" with (String "/" ""). rewrite includes_cons, Hc. reflexivity.
Qed.

(** X11: when no argument holds a colon, [urlJoin] returns the arguments
    joined by slashes with every run of slashes made one: the result has no
    two slashes side by side, so a leading [//] of a protocol-relative
    address is lost. *)
Theorem urlJoin_without_colon (args : list string) :
  Forall (fun a => JS.includes ":" a = false) args ->
  Utils.urlJoin args = JS.collapseSlashes (JS.join "/" args) /\
  noDoubleSlash (Utils.urlJoin args) = true.
Proof.
  intros H.
  assert (E : Utils.urlJoin args = JS.collapseSlashes (JS.join "/" args)).
  { unfold Utils.urlJoin. apply replaceColonSlash_absent, includes_collapse.
    apply includes_join; [reflexivity|exact H]. }
  split; [exact E|]. rewrite E. apply collapseSlashes_noDouble.
Qed.

Lemma urlJoin_without_colon_witness :
  Forall (fun a => JS.includes ":" a = false)
    ["//cdn.example.org"; "/static/"; "app.js"] /\
  Utils.urlJoin ["//cdn.example.org"; "/static/"; "app.js"]
  = "/cdn.example.org/static/app.js" /\
  noDoubleSlash (Utils.urlJoin ["//cdn.example.org"; "/static/"; "app.js"])
  = true.
Proof.
  assert (H : Forall (fun a => JS.includes ":" a = false)
                ["//cdn.example.org"; "/static/"; "app.js"]).
  { repeat (apply Forall_cons; [reflexivity|]). apply Forall_nil. }
  split; [exact H|]. split; [reflexivity|].
  exact (proj2 (urlJoin_without_colon _ H)).
Defined.

(** ** [wp] and [wChunk] *)

Lemma replaceAll_char_length (c d : ascii) (p : string) :
  String.length (Utils.replaceAll c (String d "") p) = String.length p.
Proof.
  induction p as [|x p IH]; [reflexivity|]. cbn [Utils.replaceAll].
  destruct (Ascii.eqb x c); cbn [append String.length]; rewrite IH; reflexivity.
Qed.

(** X12: [wChunk] never changes the length of a chunk name; on Windows its
    result holds no slash, elsewhere it is the argument. *)
Theorem wChunk_length_and_slashes (pf : Utils.platform) (p : string) :
  String.length (Utils.wChunk pf p) = String.length p /\
  (Utils.isWindows pf = true -> JS.includes "/" (Utils.wChunk pf p) = false) /\
  (Utils.isWindows pf = false -> Utils.wChunk pf p = p).
Proof.
  unfold Utils.wChunk. destruct (Utils.isWindows pf).
  - split; [apply replaceAll_char_length|]. split; [|discriminate].
    intros _. rewrite (replaceAll_includes "/" "/") by reflexivity.
    rewrite Ascii.eqb_refl. reflexivity.
  - split; [reflexivity|]. split; [discriminate|reflexivity].
Qed.

Lemma wChunk_length_and_slashes_witness :
  Utils.isWindows Utils.Win32 = true /\
  Utils.wChunk Utils.Win32 "pages/users/_id" = "pages_users__id" /\
  JS.includes "/" (Utils.wChunk Utils.Win32 "pages/users/_id") = false.
Proof.
  split; [reflexivity|]. split; [reflexivity|].
  apply (proj1 (proj2 (wChunk_length_and_slashes Utils.Win32 "pages/users/_id"))).
  reflexivity.
Defined.

(** X13: [wp] loses nothing: on every platform two different paths get
    different results (on Windows each backslash is doubled, elsewhere the
    path is returned as it is). *)
Theorem wp_injective (pf : Utils.platform) (p q : string) :
  Utils.wp pf p = Utils.wp pf q -> p = q.
Proof.
  unfold Utils.wp. destruct (Utils.isWindows pf); [|auto].
  revert q; induction p as [|x p IH]; intros q H.
  - destruct q as [|y q]; [reflexivity|]. cbn [Utils.replaceAll] in H.
    destruct (Ascii.eqb y Utils.backslash); discriminate H.
  - destruct q as [|y q]; cbn [Utils.replaceAll] in H.
    + destruct (Ascii.eqb x Utils.backslash); discriminate H.
    + destruct (Ascii.eqb_spec x Utils.backslash) as [Ex|Ex];
        destruct (Ascii.eqb_spec y Utils.backslash) as [Ey|Ey];
        cbn [append] in H.
      * injection H as H. rewrite Ex, Ey, (IH q H). reflexivity.
      * injection H as Hy _. congruence.
      * injection H as Hx _. congruence.
      * injection H as Hxy H. rewrite Hxy, (IH q H). reflexivity.
Qed.

Lemma wp_injective_witness :
  Utils.wp Utils.Win32 "C:\pages" = Utils.wp Utils.Win32 "C:\pages" /\
  String.length (Utils.wp Utils.Win32 "C:\pages") = 9%nat /\
  "C:\pages" = "C:\pages".
Proof.
  split; [reflexivity|]. split; [reflexivity|].
  apply (wp_injective Utils.Win32). reflexivity.
Defined.

(** ** [relativeTo] *)

Lemma replaceAll_head (c x : ascii) (r s : string) :
  Ascii.eqb x c = false ->
  exists u, Utils.replaceAll c r (String x s) = String x u.
Proof. intros H. cbn [Utils.replaceAll]. rewrite H. eexists; reflexivity. Qed.

Lemma wp_keeps_dot (pf : Utils.platform) (s : string) :
  Classes.headIs "." (Utils.wp pf (String "." s)) = true.
Proof.
  unfold Utils.wp. destruct (Utils.isWindows pf); [|reflexivity].
  destruct (replaceAll_head Utils.backslash "." 
              (String Utils.backslash (String Utils.backslash "")) s
              eq_refl) as [u ->].
  reflexivity.
Qed.

(** X14: [relativeTo] fails exactly when it gets fewer than two arguments
    (there is then no last argument for [r] to test); every string it
    returns starts with [@], [~] or a dot, whatever [path.resolve] and
    [path.relative] return and on every platform: the result is an alias
    or an explicitly relative path. *)
Theorem relativeTo_alias_or_relative
    (resolve : list string -> string) (relative : string -> string -> string)
    (pf : Utils.platform) (args : list string) :
  (Utils.relativeTo resolve relative pf args = None <-> (length args < 2)%nat)
  /\
  (forall out,
      Utils.relativeTo resolve relative pf args = Some out ->
      Classes.headIs "@" out = true \/ Classes.headIs "~" out = true
      \/ Classes.headIs "." out = true).
Proof.
  unfold Utils.relativeTo.
  destruct args as [|dir [|a args']].
  - split; [split; [simpl; lia|reflexivity]|discriminate].
  - split; [split; [simpl; lia|reflexivity]|discriminate].
  - assert (Hl : exists _path,
        Utils.r resolve pf (a :: args') = Some _path).
    { unfold Utils.r. destruct (Utils.isAlias (last (a :: args') ""));
        eexists; reflexivity. }
    destruct Hl as [_path ->].
    split.
    + split; [|simpl; lia].
      destruct (Utils.isAlias _path); discriminate.
    + intros out H. destruct (Utils.isAlias _path) eqn:Ha.
      * injection H as <-. unfold Utils.isAlias in Ha.
        rewrite !headIs_indexOf in Ha.
        apply orb_true_iff in Ha as [Ha|Ha]; auto.
      * injection H as <-. right; right.
        destruct (relative dir _path) as [|c rp] eqn:E; cbn [Utils.firstIsNotDot].
        -- apply (wp_keeps_dot pf "/").
        -- destruct (Ascii.eqb_spec c ".") as [->|Hc]; cbn [negb].
           ++ apply wp_keeps_dot.
           ++ apply (wp_keeps_dot pf (String "/" (String c rp))).
Qed.

Lemma relativeTo_alias_or_relative_witness :
  Utils.relativeTo (fun l => String.concat "/" l)
    (fun _ _ => "pages/index.vue") Utils.Posix
    ["/src"; "/src"; "pages/index.vue"]
  = Some "./pages/index.vue" /\
  (Classes.headIs "@" "./pages/index.vue" = true
   \/ Classes.headIs "~" "./pages/index.vue" = true
   \/ Classes.headIs "." "./pages/index.vue" = true).
Proof.
  split; [reflexivity|].
  apply (proj2 (relativeTo_alias_or_relative
                  (fun l => String.concat "/" l)
                  (fun _ _ => "pages/index.vue") Utils.Posix
                  ["/src"; "/src"; "pages/index.vue"])).
  reflexivity.
Defined.

(** ** [chainFn] *)

Lemma sameHook_refl {V R S : Type} (h : Utils.hook V R S) :
  Utils.sameHook V R S h h.
Proof. destruct h; simpl; auto. Qed.

(** X15: chaining is associative and a value that is not a function is
    neutral before a function and after any value, up to what calls can
    observe: [chainFn(chainFn(a, b), c)] and [chainFn(a, chainFn(b, c))]
    return the same result and leave the same state on every call. *)
Theorem chainFn_associative {V R S : Type} (a b c : Utils.hook V R S) :
  Utils.sameHook V R S
    (Utils.chainFn V R S (Utils.chainFn V R S a b) c)
    (Utils.chainFn V R S a (Utils.chainFn V R S b c)) /\
  (forall v f,
      Utils.sameHook V R S
        (Utils.chainFn V R S (Utils.NotFunction V R S v)
           (Utils.Function V R S f))
        (Utils.Function V R S f)) /\
  (forall v, Utils.chainFn V R S a (Utils.NotFunction V R S v) = a).
Proof.
  split; [|split; [intros v f arg0 rest s; reflexivity | reflexivity]].
  destruct c as [w|h]; [apply sameHook_refl|].
  destruct b as [w|g]; [intros arg0 rest s; destruct a; reflexivity|].
  destruct a as [w|f]; intros arg0 rest s; cbn [Utils.chainFn Utils.chained].
  - reflexivity.
  - destruct (f arg0 rest s) as [sa [ra|]];
      [destruct (g (Some ra) rest sa) as [sb [rb|]]
      |destruct (g arg0 rest sa) as [sb [rb|]]].
    + destruct (h (Some rb) rest sb) as [s2 [fr|]]; reflexivity.
    + destruct (h (Some ra) rest sb) as [s2 [fr|]]; reflexivity.
    + destruct (h (Some rb) rest sb) as [s2 [fr|]]; reflexivity.
    + destruct arg0 as [v|];
        [destruct (h (Some v) rest sb) as [s2 [fr|]]
        |destruct (h None rest sb) as [s2 [fr|]]]; reflexivity.
Qed.

(** X16: when [base] is a function, the chained function called with a
    defined first argument never returns [undefined]: a hook that returns
    nothing hands on what it was given.  The state is the one [fn] leaves
    after [base]. *)
Theorem chainFn_result_defined {V R S : Type}
    (b f : Utils.jsFunction V R S) (v : V) (rest : R) (s : S) :
  (exists w,
      snd (Utils.chained V R S (Utils.Function V R S b) f (Some v) rest s)
      = Some w)
  /\
  (exists x,
      fst (Utils.chained V R S (Utils.Function V R S b) f (Some v) rest s)
      = fst (f (Some x) rest (fst (b (Some v) rest s)))).
Proof.
  cbn [Utils.chained].
  destruct (b (Some v) rest s) as [s1 [r1|]]; cbn [fst].
  - destruct (f (Some r1) rest s1) as [s2 [fr|]] eqn:E; split;
      try (eexists; reflexivity); exists r1; rewrite E; reflexivity.
  - destruct (f (Some v) rest s1) as [s2 [fr|]] eqn:E; split;
      try (eexists; reflexivity); exists v; rewrite E; reflexivity.
Qed.

(** ** The progress bar *)

Lemma below_barWidth (i progress : Z) :
  Progress.below i (Progress.barWidth progress) = (4 * i <? progress)%Z.
Proof.
  unfold Progress.below, Progress.barWidth, QArith_base.Qcompare.
  change (QArith_base.Qnum (QArith_base.inject_Z i)
          * QArith_base.QDen
              (QArith_base.Qmult (QArith_base.inject_Z progress)
                 (QArith_base.Qdiv
                    (QArith_base.inject_Z Progress.BAR_LENGTH)
                    (QArith_base.inject_Z 100))))%Z
    with (i * 100)%Z.
  change (QArith_base.Qnum
            (QArith_base.Qmult (QArith_base.inject_Z progress)
               (QArith_base.Qdiv
                  (QArith_base.inject_Z Progress.BAR_LENGTH)
                  (QArith_base.inject_Z 100)))
          * QArith_base.QDen (QArith_base.inject_Z i))%Z
    with (progress * 25 * 1)%Z.
  destruct (Z.compare_spec (i * 100) (progress * 25 * 1));
    destruct (Z.ltb_spec (4 * i) progress); try reflexivity; lia.
Qed.

Lemma map_const_repeat {A B : Type} (b : B) (l : list A) :
  map (fun _ => b) l = repeat b (length l).
Proof. induction l; simpl; congruence. Qed.

Lemma range_split {A : Type} (f : Z -> A) (b : A) (k n : Z) :
  (0 <= k <= n)%Z ->
  map (fun i => if (i <? k)%Z then f i else b) (Progress.range n)
  = (map f (Progress.range k) ++ repeat b (Z.to_nat (n - k)))%list.
Proof.
  intros Hk. unfold Progress.range.
  replace (Z.to_nat n) with (Z.to_nat k + Z.to_nat (n - k))%nat by lia.
  rewrite seq_app, !map_app. f_equal.
  - rewrite !map_map. apply map_ext_in. intros x Hx.
    apply in_seq in Hx.
    destruct (Z.ltb_spec (Z.of_nat x) k); [reflexivity|lia].
  - rewrite map_map.
    rewrite (map_ext_in _ (fun _ => b)).
    + rewrite map_const_repeat, length_seq. reflexivity.
    + intros x Hx. apply in_seq in Hx.
      destruct (Z.ltb_spec (Z.of_nat x) k); [lia|reflexivity].
Qed.

(** X17: the bar always has 25 places: a filled prefix, place [i] with hue
    [3 i + base], then background places.  The number of filled places is
    [progress / 4] rounded up, kept between 0 and 25: nothing is filled
    for a progress of 0 or less, everything from 97 on. *)
Theorem bar_is_filled_prefix (progress : Z) (green : bool) :
  let k := Z.max 0 (Z.min Progress.BAR_LENGTH ((progress + 3) / 4)) in
  let base := if green then 120%Z else 50%Z in
  Progress.barCells progress green
  = (map (fun i => Progress.Fg (i * 3 + base)) (Progress.range k)
     ++ repeat Progress.Bg (Z.to_nat (Progress.BAR_LENGTH - k)))%list
  /\ length (Progress.barCells progress green) = 25%nat.
Proof.
  intros k base. split.
  - unfold Progress.barCells. fold base.
    rewrite <- (range_split (fun i => Progress.Fg (i * 3 + base))
                  Progress.Bg k Progress.BAR_LENGTH)
      by (unfold k, Progress.BAR_LENGTH; lia).
    apply map_ext_in. intros i Hi. rewrite below_barWidth.
    unfold Progress.range in Hi. apply in_map_iff in Hi as [x [<- Hx]].
    apply in_seq in Hx. unfold Progress.BAR_LENGTH in Hx.
    assert (Hdiv : (4 * ((progress + 3) / 4) <= progress + 3
                    < 4 * ((progress + 3) / 4) + 4)%Z).
    { pose proof (Z.div_mod (progress + 3) 4 ltac:(lia)).
      pose proof (Z.mod_pos_bound (progress + 3) 4 ltac:(lia)). lia. }
    unfold k, Progress.BAR_LENGTH.
    destruct (Z.ltb_spec (4 * Z.of_nat x) progress);
      destruct (Z.ltb_spec (Z.of_nat x)
                  (Z.max 0 (Z.min 25 ((progress + 3) / 4))));
      try reflexivity; lia.
  - unfold Progress.barCells. rewrite length_map. reflexivity.
Qed.

(** ** [isUrl] after [urlJoin] *)

Lemma prefix2_head (x y : ascii) (u : string) :
  x <> "/"%char \/ (exists v, u = String y v /\ y <> "/"%char) \/ u = "" ->
  String.prefix "//" (String x u) = false.
Proof.
  intros H. cbn [String.prefix].
  destruct (ascii_dec "/" x) as [<-|Hx]; [|reflexivity].
  destruct H as [H|[[v [-> Hy]]| ->]]; [congruence| |reflexivity].
  cbn [String.prefix].
  destruct (ascii_dec "/" y) as [<-|Hy']; [congruence|reflexivity].
Qed.

(** X18: [urlJoin] never returns a string that starts with two slashes:
    the slashes of a protocol-relative first argument are made one.  So
    [isUrl] holds of its result only when the result starts with
    [http]. *)
Theorem urlJoin_never_protocol_relative (args : list string) :
  String.prefix "//" (Utils.urlJoin args) = false /\
  Utils.isUrl (Utils.urlJoin args) = String.prefix "http" (Utils.urlJoin args).
Proof.
  assert (H : String.prefix "//" (Utils.urlJoin args) = false).
  { unfold Utils.urlJoin.
    pose proof (collapseSlashes_noDouble (JS.join "/" args)) as Hn.
    destruct (JS.collapseSlashes (JS.join "/" args)) as [|x t];
      [reflexivity|].
    destruct t as [|y t];
      [apply (prefix2_head x x); right; right; reflexivity|].
    rewrite noDoubleSlash_cons2 in Hn. apply andb_true_iff in Hn as [Hn _].
    apply negb_true_iff in Hn.
    rewrite replaceColonSlash_cons2.
    destruct (Ascii.eqb_spec x ":") as [->|Hx]; cbn [andb].
    - destruct (Ascii.eqb y "/"); reflexivity.
    - destruct (replaceColonSlash_head t y) as [u ->].
      apply (prefix2_head x y). 
      destruct (Ascii.eqb_spec x "/") as [->|Hx'];
        [|left; exact Hx'].
      right; left. exists u. split; [reflexivity|].
      destruct (Ascii.eqb_spec y "/") as [->|Hy]; [discriminate Hn|exact Hy]. }
  split; [exact H|]. unfold Utils.isUrl. rewrite H. apply orb_false_r.
Qed.

(** ** [sequence] *)

Lemma sequence_from {S E T A : Type} (fn : T -> Utils.promise S E A)
    (l : list T) (p : Utils.promise S E (option A)) (s : S) :
  fold_left (fun promise t =>
               Utils.andThen S E promise (fun _ => Utils.task S E T A fn t))
    l p s
  = match p s with
    | (s1, inl e) => (s1, inl e)
    | (s1, inr x) =>
        match l with
        | [] => (s1, inr x)
        | _ => Utils.sequence S E T A l fn s1
        end
    end.
Proof.
  revert p s; induction l as [|t l IH]; intros p s.
  - cbn [fold_left]. destruct (p s) as [s1 [e|x]]; reflexivity.
  - cbn [fold_left]. rewrite IH. unfold Utils.andThen at 1.
    destruct (p s) as [s1 [e|x]]; [reflexivity|].
    unfold Utils.sequence. cbn [fold_left]. rewrite IH.
    reflexivity.
Qed.

(** X19: [sequence] runs the tasks in the order of the list, each one from
    the state the one before left; after the first rejection no task
    runs and the chain is rejected with that reason; when none is
    rejected the chain resolves with the result of the last task. *)
Theorem sequence_runs_in_order {S E T A : Type}
    (fn : T -> Utils.promise S E A) (l1 l2 : list T) (s : S) :
  Utils.sequence S E T A (l1 ++ l2) fn s
  = match Utils.sequence S E T A l1 fn s with
    | (s1, inl e) => (s1, inl e)
    | (s1, inr x) =>
        match l2 with
        | [] => (s1, inr x)
        | t :: l2' =>
            match fn t s1 with
            | (s2, inl e) => (s2, inl e)
            | (s2, inr a) =>
                match l2' with
                | [] => (s2, inr (Some a))
                | _ => Utils.sequence S E T A l2' fn s2
                end
            end
        end
    end.
Proof.
  unfold Utils.sequence at 1. rewrite fold_left_app, sequence_from.
  fold (Utils.sequence S E T A l1 fn).
  destruct (Utils.sequence S E T A l1 fn s) as [s1 [e|x]]; [reflexivity|].
  destruct l2 as [|t l2']; [reflexivity|].
  unfold Utils.sequence. cbn [fold_left]. rewrite sequence_from.
  unfold Utils.andThen, Utils.task, Utils.resolved, Utils.andThen.
  destruct (fn t s1) as [s2 [e|a]]; reflexivity.
Qed.

(** ** The node ["/"] among its siblings *)

(** X20: on every engine whose sort conforms ([Engine.conforms]): when
    every sibling's path is empty, ["/"], or starts with a slash followed
    by the catch-all, a dynamic token, or a static token without a colon
    and without a leading star, then after the sort the node with the path
    ["/"] stands before every sibling that begins with a dynamic or
    catch-all token and after every sibling that begins with a static
    token; this is so in every sibling list of the forest built from files
    whose static keys hold no colon and do not start with a star. *)
Theorem root_between_for_plain_keys (sort : Engine.sorter) :
  Engine.conforms sort ->
  (forall (parent : list rawRoute) (r : rawRoute),
      Classes.allRanked (parent ++ [r])%list = true ->
      Stated.rootBetween (Engine.pushSorted sort parent r))
  /\
  (forall files srcDir pagesDir,
      literalPattern pagesDir = true ->
      plainFiles pagesDir files = true ->
      Siblings Stated.rootBetween
        (Engine.buildRoutes sort files srcDir pagesDir)).
Proof.
  intros Hsort. split.
  - intros parent r HR. unfold Engine.pushSorted.
    apply rankOrdered_rootBetween.
    + apply (allRanked_perm _ _
               (Permutation_sym (proj1 Hsort _ _)) HR).
    + apply (engine_rank_order sort Hsort), HR.
  - intros files srcDir pagesDir _ H.
    apply (Siblings_impl
             (fun l => Classes.allRanked l = true /\ rankOrdered l)
             Stated.rootBetween).
    + intros l HP. exact (rankOrdered_rootBetween l (proj1 HP) (proj2 HP)).
    + apply (engine_buildRoutes_rankOrdered sort Hsort), H.
Qed.

Lemma root_between_for_plain_keys_witness :
  Engine.conforms (@TimSort.sort rawRoute) /\
  literalPattern "pages" = true /\
  plainFiles "pages"
    ["pages/index.vue"; "pages/_c.vue"; "pages/about.vue"] = true /\
  map path
    (Engine.buildRoutes (@TimSort.sort rawRoute)
       ["pages/index.vue"; "pages/_c.vue"; "pages/about.vue"] "src" "pages")
  = ["/about"; "/"; "/:c?"] /\
  Siblings Stated.rootBetween
    (Engine.buildRoutes (@TimSort.sort rawRoute)
       ["pages/index.vue"; "pages/_c.vue"; "pages/about.vue"] "src" "pages").
Proof.
  split; [exact timsort_conforms|].
  split; [reflexivity|].
  split; [vm_compute; reflexivity|].
  split; [vm_compute; reflexivity|].
  apply (proj2 (root_between_for_plain_keys (@TimSort.sort rawRoute)
                  timsort_conforms)); vm_compute; reflexivity.
Defined.
